(** * Logic trees of the OpenQuake engine

    A shallow embedding of [openquake/commonlib/logictree.py]: the
    branch / branch-set tree, its enumeration and seeded sampling, the
    composite weights [ImtWeight], the ground-motion logic tree
    [GsimLogicTree] and the validation steps of [SourceModelLogicTree].

    Conventions of the embedding.
    - Python floats are idealised as the canonical rationals [Qc]: the
      arithmetic is exact, so a statement about "1.0" is a statement about
      the rational one, and rounding is not modelled.
    - A Python generator is the finite list of the values it yields.
    - An exception is a [None] or an [Err]; nothing is swallowed.
    - The global NumPy generator is an explicit state threaded through the
      sampling code; NumPy itself is an interface ([Generator]). *)

From Stdlib Require Import QArith Qcanon.
From Stdlib Require Qcabs OrderedTypeEx.
From stdpp Require Import base numbers list strings gmap sorting.

Local Open Scope Qc_scope.

(** ** Numbers *)

(** Modelled from the spec: the constant [pmf.PRECISION] of
    [openquake.hazardlib], which is not part of the sources at hand; the
    specification gives the tolerance as [1e-12]. *)
Definition PRECISION : Qc := Q2Qc (1 # 1000000000000).

(** Python's [abs] on a float. *)
Definition abs (x : Qc) : Qc := Qcabs.Qcabs x.

(** A decimal literal [n / d], reduced. *)
Definition dec (n : Z) (d : positive) : Qc := Q2Qc (n # d).

(** Python's built-in [sum] over floats. *)
Definition fsum (l : list Qc) : Qc := foldl Qcplus 0 l.

(** ** Text *)

(** What [str.isspace] accepts in the ASCII range. *)
Definition isspace (c : Ascii.ascii) : bool :=
  let n := Ascii.nat_of_ascii c in
  ((9 <=? n)%nat && (n <=? 13)%nat) || ((28 <=? n)%nat && (n <=? 32)%nat).

(** [str.split()] without argument: the maximal runs of non-blank
    characters.  [cur] is the run being read, most recent character
    first. *)
Fixpoint split_aux (cur : list Ascii.ascii) (s : string) : list string :=
  let flush rest :=
    match cur with
    | [] => rest
    | _ => String.string_of_list_ascii (rev cur) :: rest
    end in
  match s with
  | EmptyString => flush []
  | String c s' =>
      if isspace c then flush (split_aux [] s') else split_aux (c :: cur) s'
  end.

Definition split (s : string) : list string := split_aux [] s.

Fixpoint lstrip (s : string) : string :=
  match s with
  | String c s' => if isspace c then lstrip s' else s
  | EmptyString => EmptyString
  end.

Definition string_rev (s : string) : string :=
  String.string_of_list_ascii (rev (String.list_ascii_of_string s)).

(** [str.strip()] without argument. *)
Definition strip (s : string) : string :=
  string_rev (lstrip (string_rev (lstrip s))).

(** [s.endswith(suffix)]. *)
Definition endswith (s suffix : string) : bool :=
  String.prefix (string_rev suffix) (string_rev s).

(** [needle in haystack] on two strings: the substring test. *)
Definition str_contains (haystack needle : string) : bool :=
  match needle with
  | EmptyString => true
  | _ => bool_decide (is_Some (String.index 0 needle haystack))
  end.

(** [len(set(values)) < len(values)]: some value occurs twice. *)
Definition has_duplicates `{EqDecision A} (l : list A) : bool :=
  bool_decide (length (remove_dups l) < length l)%nat.

(** ** Dictionaries in insertion order

    A Python [dict] whose iteration order is observed is an association
    list with at most one entry per key, oldest first. *)
Section odict.
Context {K : Type} `{EqDecision K} {V : Type}.

Fixpoint odict_get (d : list (K * V)) (k : K) : option V :=
  match d with
  | [] => None
  | (k', v) :: d' => if decide (k' = k) then Some v else odict_get d' k
  end.

Definition odict_mem (d : list (K * V)) (k : K) : bool :=
  bool_decide (k ∈ d.*1).

(** [d[k] = v]: overwrite in place, or append a new key. *)
Fixpoint odict_set (d : list (K * V)) (k : K) (v : V) : list (K * V) :=
  match d with
  | [] => [(k, v)]
  | (k', v') :: d' =>
      if decide (k' = k) then (k, v) :: d' else (k', v') :: odict_set d' k v
  end.

End odict.

(** [itertools.groupby]: the maximal runs of consecutive items with the
    same key, each with its key. *)
Fixpoint groupby {A K : Type} `{EqDecision K} (key : A → K) (l : list A)
  : list (K * list A) :=
  match l with
  | [] => []
  | x :: l' =>
      match groupby key l' with
      | (k, g) :: rest =>
          if decide (key x = k) then (k, x :: g) :: rest
          else (key x, [x]) :: (k, g) :: rest
      | [] => [(key x, [x])]
      end
  end.

(** ** Results of fallible steps *)

Inductive result (E A : Type) : Type :=
| Ok (a : A)
| Err (e : E).
Arguments Ok {E A} a.
Arguments Err {E A} e.

Definition rbind {E A B} (m : result E A) (f : A → result E B) : result E B :=
  match m with
  | Ok a => f a
  | Err e => Err e
  end.

Notation "'let*' x ':=' m 'in' k" := (rbind m (fun x => k))
  (at level 10, x pattern, m at level 100, k at level 200, only parsing).

Definition is_err {E A} (m : result E A) : Prop :=
  match m with Ok _ => False | Err _ => True end.

(** [raise_if cond e]: [if cond: raise e]. *)
Definition raise_if {E} (cond : bool) (e : E) : result E unit :=
  if cond then Err e else Ok tt.

(** ** The tree: [Branch] and [BranchSet] *)

(** A filter value: a string, or for [applyToSources] after
    [parse_filters] the list of source ids. *)
Inductive filter_value : Type :=
| FText (s : string)
| FList (l : list string).

(** [Branch.bset] is the child branch set, [None] on a leaf.  The
    uncertainty value is kept in its textual form. *)
Inductive Branch : Type :=
  mkBranch (bs_id branch_id : string) (weight : Qc) (value : string)
           (bset : option BranchSet)
with BranchSet : Type :=
  mkBranchSet (uncertainty_type : string)
              (filters : list (string * filter_value))
              (branches : list Branch).

Module Branch.

Definition bs_id (b : Branch) := let (x, _, _, _, _) := b in x.
Definition branch_id (b : Branch) := let (_, x, _, _, _) := b in x.
Definition weight (b : Branch) := let (_, _, x, _, _) := b in x.
Definition value (b : Branch) := let (_, _, _, x, _) := b in x.
Definition bset (b : Branch) := let (_, _, _, _, x) := b in x.

(** [Branch(bs_id, branch_id, weight, value)]: [bset] starts as [None]. *)
Definition __init__ (bs_id branch_id : string) (weight : Qc) (value : string)
  : Branch := mkBranch bs_id branch_id weight value None.

End Branch.

(** The path that [_enumerate_paths] accumulates: the two-item list
    [[prefix_path, branch]], nested to the left, and [[]] at the root. *)
Inductive nested_path : Type :=
| PEmpty
| PPair (prefix_path : nested_path) (branch : Branch).

Module BranchSet.

Definition uncertainty_type (s : BranchSet) := let (x, _, _) := s in x.
Definition filters (s : BranchSet) := let (_, x, _) := s in x.
Definition branches (s : BranchSet) := let (_, _, x) := s in x.

Fixpoint _enumerate_paths (self : BranchSet) (prefix_path : nested_path)
  : list nested_path :=
  flat_map (fun branch =>
    let path := PPair prefix_path branch in
    match Branch.bset branch with
    | Some child => _enumerate_paths child path
    | None => [path]
    end) (branches self).

(** The [while path:] loop of [enumerate_paths]: unnest from the leaf
    upwards, multiplying the running weight and appending to
    [flat_path]. *)
Fixpoint unnest (path : nested_path) (weight : Qc) (flat_path : list Branch)
  : Qc * list Branch :=
  match path with
  | PEmpty => (weight, flat_path)
  | PPair path' branch =>
      unnest path' (weight * Branch.weight branch) (flat_path ++ [branch])
  end.

Definition enumerate_paths (self : BranchSet) : list (Qc * list Branch) :=
  map (fun path =>
         let '(weight, flat_path) := unnest path 1 [] in
         (weight, rev flat_path))
      (_enumerate_paths self PEmpty).

(** The number of branching levels below (and including) a branch set:
    a bound on the number of turns of the loop of [sample_path]. *)
Fixpoint height (self : BranchSet) : nat :=
  S (foldr (fun branch h =>
              match Branch.bset branch with
              | Some child => max (height child) h
              | None => h
              end) 0%nat (branches self)).

End BranchSet.

Module Realization.

Record t : Type := mk {
  value : string;
  weight : Qc;
  ordinal : option nat;
  lt_path : list string;
  samples : nat;
  offset : nat
}.

(** [Realization(value, weight, ordinal, lt_path, samples)]. *)
Definition __init__ value weight ordinal lt_path samples : t :=
  mk value weight ordinal lt_path samples 0.

End Realization.

(** ** The random generator

    [numpy.random] is not part of the program: it is an interface.
    [state] is the global generator state, [seed] is [numpy.random.seed]
    ([None] where NumPy raises, as on a negative seed) and
    [choice g a size p] is [numpy.random.choice(a, size, p=p)] run in
    state [g]: the indices drawn and the state left behind, or [None]
    where NumPy raises (as on probabilities that do not sum to one). *)
Module numpy_random.

Class Generator : Type := {
  state : Type;
  seed : Z → option state;
  choice : state → nat → nat → list Qc → option (list nat * state)
}.

End numpy_random.

(** Code that may raise and that reads and writes the global generator. *)
Definition M `{numpy_random.Generator} (A : Type) : Type :=
  numpy_random.state → option A * numpy_random.state.

Section sampling.
Context `{G : numpy_random.Generator}.

Definition ret {A} (a : A) : M A := fun g => (Some a, g).
Definition raise {A} : M A := fun g => (None, g).
Definition bind {A B} (m : M A) (f : A → M B) : M B :=
  fun g => match m g with
           | (Some a, g') => f a g'
           | (None, g') => (None, g')
           end.
Definition lift {A} (o : option A) : M A := fun g => (o, g).

(** A [for] loop that collects one result per item, in order. *)
Fixpoint for_each {A B} (f : A → M B) (l : list A) : M (list B) :=
  match l with
  | [] => ret []
  | x :: l' => bind (f x) (fun y => bind (for_each f l') (fun ys => ret (y :: ys)))
  end.

(** The weight that [sample] reads off an object: [obj.weight] when it
    is a float, [obj.weight['weight']] otherwise. *)
Class Weighted (A : Type) : Type := sampling_weight : A → option Qc.

#[export] Instance Branch_weighted : Weighted Branch :=
  fun b => Some (Branch.weight b).

Definition sample {A} `{Weighted A}
    (weighted_objects : list A) (num_samples : nat) (seed : Z) : M (list A) :=
  fun g0 =>
  match mapM sampling_weight weighted_objects with
  | None => (None, g0)
  | Some weights =>
      match numpy_random.seed seed with
      | None => (None, g0)
      | Some g =>
          match numpy_random.choice g (length weights) num_samples weights with
          | None => (None, g)
          | Some (idxs, g') =>
              (mapM (fun idx => weighted_objects !! idx) idxs, g')
          end
      end
  end.

End sampling.

(** ** The input document and the outside world *)

(** A [logicTreeBranch] element: its [branchID] attribute, the float of
    its [uncertaintyWeight] child and the text of its [uncertaintyModel]
    child ([None] for an empty element). *)
Record BranchNode : Type := {
  branchID : string;
  uncertaintyWeight : Qc;
  uncertaintyModel : option string
}.

(** A [logicTreeBranchSet] element: its attributes and its branches. *)
Record BranchSetNode : Type := {
  attrib : list (string * string);
  nodes : list BranchNode
}.

(** What [SourceModelLogicTree] raises. *)
Inductive LogicTreeError : Type :=
| filters_not_allowed
| only_one_filter
| unknown_tectonic_region_type (trt : string)
| must_define_applyToSources (uncertainty_type : string)
| must_define_either (uncertainty_type : string)
| unknown_source_type (source_type : string)
| applyToBranch_required
| source_not_defined (source_id : string)
| branchID_not_unique (branch_id : string)
| weights_dont_sum
| duplicate_values (values : list string)
| source_model_unreadable (fname : string)
| invalid_uncertainty (uncertainty_type : string) (text : option string)
| KeyError (key : string).

(** The files and helpers outside of the module: [open] on a source
    model ([None] when it raises), the three [findall] of the module's
    regular expressions, and [parse_uncertainty].

    Modelled from the spec: [parse_uncertainty] of
    [openquake.commonlib.lt] is not among the sources; it turns the text
    of an [uncertaintyModel] into the branch value for an uncertainty
    kind and raises on a text that is no value of that kind ([None]
    here). *)
Class World : Type := {
  _get_source_model : string → option string;
  TRT_REGEX_findall : string → list string;
  ID_REGEX_findall : string → list string;
  SOURCE_TYPE_REGEX_findall : string → list string;
  parse_uncertainty : string → option string → option string
}.

(** ** The persisted form *)

(** One row of the table of [__toh5__]. *)
Record row : Type := {
  r_branchset : string;
  r_branch : string;
  r_utype : string;
  r_uvalue : string;
  r_weight : Qc
}.

(** The attributes of [__toh5__]: per branch-set id the TOML text of its
    attributes (kept as the dictionary that [toml.loads] gives back),
    and the two scalars. *)
Record h5attrs : Type := {
  a_bsets : list (string * list (string * string));
  a_num_samples : Z;
  a_filename : string
}.

(** Modelled from the spec: [group_array] of [openquake.baselib.general]
    is not among the sources.  The rows owned by one branch-set id form
    one group; the groups come in the order of their keys, the rows of a
    group in the order of the table. *)
Definition group_array (array : list row) : list (string * list row) :=
  groupby r_branchset
    (merge_sort (fun r1 r2 => String.leb (r_branchset r1) (r_branchset r2))
                array).

(** The objects that [__fromh5__] allocates.  A branch points to its
    child by the position of the child in the list [bsets]. *)
Record branch_obj : Type := {
  o_bs_id : string;
  o_branch_id : string;
  o_weight : Qc;
  o_value : string;
  o_bset : option nat
}.

Record bset_obj : Type := {
  o_uncertainty_type : string;
  o_id : string;
  o_branches : list branch_obj
}.

(** The tree read off the objects from the branch set at [addr];
    [fuel] bounds the depth. *)
Fixpoint tree_of (fuel : nat) (bsets : list bset_obj) (addr : nat)
  : option BranchSet :=
  match fuel with
  | O => None
  | S fuel' =>
      s ← bsets !! addr;
      brs ← mapM (fun b =>
                 match o_bset b with
                 | None => Some (mkBranch (o_bs_id b) (o_branch_id b)
                                          (o_weight b) (o_value b) None)
                 | Some child =>
                     c ← tree_of fuel' bsets child;
                     Some (mkBranch (o_bs_id b) (o_branch_id b)
                                    (o_weight b) (o_value b) (Some c))
                 end) (o_branches s);
      Some (mkBranchSet (o_uncertainty_type s) [] brs)
  end.

(** ** [SourceModelLogicTree] *)

Module SourceModelLogicTree.

(** The attributes of an instance that the methods below read or write.
    [branches] is the dictionary [branch_id -> branch] in insertion
    order, [bsetdict] the attributes recorded per branch-set id. *)
Record t : Type := mk {
  filename : string;
  seed : Z;
  num_samples : Z;
  branches : list (string * Branch);
  bsetdict : list (string * list (string * string));
  tectonic_region_types : gset string;
  source_types : gset string;
  source_ids : gmap string (list string);
  root_branchset : option BranchSet
}.

Definition FILTERS : list string :=
  ["applyToTectonicRegionType"; "applyToSources"; "applyToSourceType"].

(** The dictionary [filters] that [parse_branchset] hands over: the
    attributes of the node named in [FILTERS], in that order. *)
Definition filters_of (branchset_node : BranchSetNode)
  : list (string * string) :=
  omap (fun filtername =>
          pair filtername <$> odict_get (attrib branchset_node) filtername)
       FILTERS.

Section methods.
Context `{W : World}.

Definition collect_source_model_data (self : t) (branch_id source_model : string)
  : option t :=
  xml ← _get_source_model source_model;
  Some (mk (filename self) (seed self) (num_samples self) (branches self)
           (bsetdict self)
           (tectonic_region_types self ∪ list_to_set (TRT_REGEX_findall xml))
           (source_types self ∪ list_to_set (SOURCE_TYPE_REGEX_findall xml))
           (<[branch_id :=
                default [] (source_ids self !! branch_id)
                  ++ ID_REGEX_findall xml]> (source_ids self))
           (root_branchset self)).

(** The scan of the files named by a branch of a [sourceModel] or
    [extendModel] branch set; any exception becomes a
    [LogicTreeError]. *)
Fixpoint collect_all (self : t) (branch_id : string) (fnames : list string)
  : result LogicTreeError t :=
  match fnames with
  | [] => Ok self
  | fname :: rest =>
      if endswith fname ".xml" || endswith fname ".nrml" then
        match collect_source_model_data self branch_id fname with
        | Some self' => collect_all self' branch_id rest
        | None => Err (source_model_unreadable fname)
        end
      else collect_all self branch_id rest
  end.

Definition set_branch (self : t) (branch_id : string) (branch : Branch) : t :=
  mk (filename self) (seed self) (num_samples self)
     (odict_set (branches self) branch_id branch)
     (bsetdict self) (tectonic_region_types self) (source_types self)
     (source_ids self) (root_branchset self).

Definition append_branch (branchset : BranchSet) (branch : Branch) : BranchSet :=
  mkBranchSet (BranchSet.uncertainty_type branchset)
              (BranchSet.filters branchset)
              (BranchSet.branches branchset ++ [branch]).

(** The state of the loop of [parse_branches]. *)
Record loop_state : Type := {
  l_self : t;
  l_branchset : BranchSet;
  l_weight_sum : Qc;
  l_values : list string
}.

(** One turn of the [for branchnode in branches] loop. *)
Definition parse_branch (bs_id : string) (st : loop_state)
    (branchnode : BranchNode) : result LogicTreeError loop_state :=
  let self := l_self st in
  let branchset := l_branchset st in
  let weight := uncertaintyWeight branchnode in
  let weight_sum := l_weight_sum st + weight in
  let text := uncertaintyModel branchnode in
  let values :=
    match text with
    | Some txt => l_values st ++ [strip txt]
    | None => l_values st
    end in
  let utype := BranchSet.uncertainty_type branchset in
  let* self :=
    if bool_decide (utype ∈ ["sourceModel"; "extendModel"]) then
      match text with
      | Some txt => collect_all self (branchID branchnode) (split (strip txt))
      | None => Err (source_model_unreadable "")
      end
    else Ok self in
  let* value :=
    match parse_uncertainty utype text with
    | Some value => Ok value
    | None => Err (invalid_uncertainty utype text)
    end in
  let branch_id := branchID branchnode in
  let branch := Branch.__init__ bs_id branch_id weight value in
  let* _ := raise_if (odict_mem (branches self) branch_id)
                     (branchID_not_unique branch_id) in
  Ok {| l_self := set_branch self branch_id branch;
        l_branchset := append_branch branchset branch;
        l_weight_sum := weight_sum;
        l_values := values |}.

Fixpoint parse_branch_loop (bs_id : string) (st : loop_state)
    (branches : list BranchNode) : result LogicTreeError loop_state :=
  match branches with
  | [] => Ok st
  | branchnode :: rest =>
      let* st' := parse_branch bs_id st branchnode in
      parse_branch_loop bs_id st' rest
  end.

(** [parse_branches]: the instance and the branch set after the call,
    or what it raises. *)
Definition parse_branches (self : t) (branchset_node : BranchSetNode)
    (branchset : BranchSet) : result LogicTreeError (t * BranchSet) :=
  let* bs_id :=
    match odict_get (attrib branchset_node) "branchSetID" with
    | Some bs_id => Ok bs_id
    | None => Err (KeyError "branchSetID")
    end in
  let* st :=
    parse_branch_loop bs_id
      {| l_self := self; l_branchset := branchset;
         l_weight_sum := 0; l_values := [] |}
      (nodes branchset_node) in
  let* _ := raise_if (bool_decide (PRECISION < abs (l_weight_sum st - 1)))
                     weights_dont_sum in
  let* _ := raise_if (has_duplicates (l_values st))
                     (duplicate_values (l_values st)) in
  Ok (l_self st, l_branchset st).

Definition absolute_kinds : list string :=
  ["abGRAbsolute"; "maxMagGRAbsolute";
   "simpleFaultGeometryAbsolute"; "complexFaultGeometryAbsolute"].

Definition fault_dip_kinds : list string :=
  ["simpleFaultDipRelative"; "simpleFaultDipAbsolute"].

(** [uncertainty_type in kinds], where [uncertainty_type] may be the
    [None] of an absent attribute. *)
Definition kind_in (uncertainty_type : option string) (kinds : list string)
  : bool :=
  match uncertainty_type with
  | Some u => bool_decide (u ∈ kinds)
  | None => false
  end.

Definition kind_name (uncertainty_type : option string) : string :=
  default "None" uncertainty_type.

(** [validate_filters]; [filters] is the dictionary still holding the
    raw attribute texts. *)
Definition validate_filters (self : t) (branchset_node : BranchSetNode)
    (uncertainty_type : option string) (filters : list (string * string))
  : result LogicTreeError unit :=
  let* _ := raise_if (bool_decide (uncertainty_type = Some "sourceModel")
                      && bool_decide (filters ≠ []))
                     filters_not_allowed in
  let* _ := raise_if (bool_decide (1 < length filters)%nat) only_one_filter in
  let* _ :=
    match odict_get filters "applyToTectonicRegionType" with
    | Some trt =>
        raise_if (negb (bool_decide (trt ∈ tectonic_region_types self)))
                 (unknown_tectonic_region_type trt)
    | None => Ok tt
    end in
  let* _ :=
    if kind_in uncertainty_type absolute_kinds then
      raise_if
        (bool_decide (filters = [])
         || negb (bool_decide (filters.*1 = ["applyToSources"]))
         || negb (bool_decide
                    (length (split (default "" (odict_get filters "applyToSources")))
                     = 1%nat)))
        (must_define_applyToSources (kind_name uncertainty_type))
    else Ok tt in
  let* _ :=
    if kind_in uncertainty_type fault_dip_kinds then
      raise_if
        (bool_decide (filters = [])
         || (negb (odict_mem filters "applyToSources")
             && negb (odict_mem filters "applyToSourceType")))
        (must_define_either (kind_name uncertainty_type))
    else Ok tt in
  let* _ :=
    match odict_get filters "applyToSourceType" with
    | Some source_type =>
        raise_if (negb (bool_decide (source_type ∈ source_types self)))
                 (unknown_source_type source_type)
    | None => Ok tt
    end in
  match odict_get filters "applyToSources" with
  | Some sources =>
      let* _ := raise_if (bool_decide (1 < size (source_ids self))%nat
                          && negb (odict_mem (attrib branchset_node)
                                             "applyToBranches"))
                         applyToBranch_required in
      foldr (fun source_id k =>
               let* _ := raise_if
                 (bool_decide
                    (map_Forall (fun _ (ids : list string) => source_id ∉ ids)
                                (source_ids self)))
                 (source_not_defined source_id) in
               k)
            (Ok tt) (split sources)
  | None => Ok tt
  end.

End methods.

Section iteration.
Context `{G : numpy_random.Generator}.

(** The [while branchset is not None] loop of [sample_path].  [fuel]
    bounds the number of turns; [sample_path] starts it with the height
    of the tree, which is never used up. *)
Fixpoint sample_path_loop (fuel : nat) (branchset : option BranchSet)
    (seed : Z) (branches : list Branch) : M (list Branch) :=
  match branchset with
  | None => ret branches
  | Some bs =>
      match fuel with
      | O => raise
      | S fuel' =>
          bind (sample (BranchSet.branches bs) 1 seed) (fun drawn =>
            match drawn with
            | [branch] =>
                sample_path_loop fuel' (Branch.bset branch) seed
                                 (branches ++ [branch])
            | _ => raise
            end)
      end
  end.

Definition sample_path (self : t) (seed : Z) : M (list Branch) :=
  sample_path_loop (from_option BranchSet.height 0%nat (root_branchset self))
                   (root_branchset self) seed [].

(** The realization built from a path: [smlt_path[0].value] is its
    name. *)
Definition realization_of (weight : Qc) (ordinal : option nat)
    (smlt_path : list Branch) : option Realization.t :=
  first ← head smlt_path;
  Some (Realization.__init__ (Branch.value first) weight ordinal
                             (map Branch.branch_id smlt_path) 1).

Definition __iter__ (self : t) : M (list Realization.t) :=
  if bool_decide (num_samples self ≠ 0%Z) then
    let weight := 1 / Qc_of_Z (num_samples self) in
    for_each (fun i =>
                bind (sample_path self (seed self + i)) (fun smlt_path =>
                lift (realization_of weight None smlt_path)))
             (seqZ 0 (num_samples self))
  else
    bind (lift (root_branchset self)) (fun root =>
    lift (mapM (fun '(ordinal, (weight, smlt_path)) =>
                  realization_of weight (Some ordinal) smlt_path)
               (imap pair (BranchSet.enumerate_paths root)))).

End iteration.

(** [tomldict]: per branch-set id, its attributes without
    [uncertaintyType], each text stripped. *)
Definition tomldict (ddic : list (string * list (string * string)))
  : list (string * list (string * string)) :=
  map (fun '(key, dic) =>
         (key, map (fun '(k, v) => (k, strip v))
                   (filter (fun kv => fst kv ≠ "uncertaintyType") dic)))
      ddic.

Definition __toh5__ (self : t) : option (list row * h5attrs) :=
  tbl ← mapM (fun '(brid, br) =>
                dic ← odict_get (bsetdict self) (Branch.bs_id br);
                utype ← odict_get dic "uncertaintyType";
                Some {| r_branchset := Branch.bs_id br; r_branch := brid;
                        r_utype := utype; r_uvalue := Branch.value br;
                        r_weight := Branch.weight br |})
             (branches self);
  Some (tbl, {| a_bsets := tomldict (bsetdict self);
                a_num_samples := num_samples self;
                a_filename := filename self |}).

(** What [__fromh5__] leaves in the instance: the objects it allocated,
    the position of [root_branchset] among them, and the two scalars. *)
Record restored : Type := {
  bsets : list bset_obj;
  root : nat;
  restored_num_samples : Z;
  restored_filename : string
}.

(** [branch.bset = bset] for the parent branches that the test on
    [applyToBranches] selects. *)
Definition link (atb : option string) (bset : nat) (parent : bset_obj)
  : bset_obj :=
  {| o_uncertainty_type := o_uncertainty_type parent;
     o_id := o_id parent;
     o_branches :=
       map (fun branch =>
              if bool_decide (atb = None) || bool_decide (atb = Some "")
                 || str_contains (default "" atb) (o_branch_id branch)
              then {| o_bs_id := o_bs_id branch;
                      o_branch_id := o_branch_id branch;
                      o_weight := o_weight branch;
                      o_value := o_value branch;
                      o_bset := Some bset |}
              else branch)
           (o_branches parent) |}.

(** The second loop of [__fromh5__], over [enumerate(bsets[1:])].  The
    name [bset] is still bound to the last branch set that the first
    loop built. *)
Fixpoint link_loop (attrs : h5attrs) (bset : nat) (bsets : list bset_obj)
    (children : list (nat * bset_obj)) : option (list bset_obj) :=
  match children with
  | [] => Some bsets
  | (i, childset) :: rest =>
      dic ← odict_get (a_bsets attrs) (o_id childset);
      let atb := odict_get dic "applyToBranches" in
      link_loop attrs bset (alter (link atb bset) i bsets) rest
  end.

Definition __fromh5__ (array : list row) (attrs : h5attrs) : option restored :=
  let bsets :=
    map (fun '(bsid, rows) =>
           {| o_uncertainty_type := from_option r_utype "" (head rows);
              o_id := bsid;
              o_branches :=
                map (fun row =>
                       {| o_bs_id := bsid; o_branch_id := r_branch row;
                          o_weight := r_weight row; o_value := r_uvalue row;
                          o_bset := None |}) rows |})
        (group_array array) in
  _ ← bsets !! 0%nat;
  let bset := (length bsets - 1)%nat in
  bsets' ← link_loop attrs bset bsets (imap pair (drop 1 bsets));
  Some {| bsets := bsets'; root := 0;
          restored_num_samples := a_num_samples attrs;
          restored_filename := a_filename attrs |}.

(** The instance that [__fromh5__] fills, as the methods above see it.
    [__fromh5__] sets neither [seed] nor the dictionaries; the
    enumeration reads none of them. *)
Definition instance_of (r : restored) : option t :=
  tree ← tree_of (S (length (bsets r))) (bsets r) (root r);
  Some (mk (restored_filename r) 0 (restored_num_samples r) [] [] ∅ ∅ ∅
           (Some tree)).

End SourceModelLogicTree.

(** ** [ImtWeight] *)

Module ImtWeight.

Record t : Type := mk { dic : gmap string Qc }.

(** The other operand of an arithmetic operator on an [ImtWeight]:
    another [ImtWeight], or a number (the [0] that [sum] starts from
    included). *)
Inductive operand : Type :=
| W (w : t)
| F (x : Qc).

(** A dictionary comprehension [{k: f(k, v) for k, v in m.items()}]
    whose expression may raise: the whole comprehension raises as soon
    as one item does. *)
Definition dict_comp {A B : Type} (f : string → A → option B)
    (m : gmap string A) : option (gmap string B) :=
  if decide (map_Forall (fun k a => is_Some (f k a)) m)
  then Some (map_imap f m)
  else None.

(** [self[imt]]: the entry of [imt], else the entry of ['weight'], else
    a [KeyError]. *)
Definition __getitem__ (self : t) (imt : string) : option Qc :=
  match dic self !! imt with
  | Some v => Some v
  | None => dic self !! "weight"
  end.

Definition __mul__ (self : t) (other : operand) : option t :=
  match other with
  | W other =>
      let keys : gset string := dom (dic self) ∪ dom (dic other) in
      mk <$> dict_comp (fun k _ =>
                          a ← __getitem__ self k;
                          b ← __getitem__ other k;
                          Some (a * b))
                       (gset_to_gmap tt keys)
  | F other => Some (mk ((fun v => v * other) <$> dic self))
  end.

Definition __rmul__ := __mul__.

Definition __add__ (self : t) (other : operand) : option t :=
  match other with
  | W other =>
      mk <$> dict_comp (fun k v => b ← __getitem__ other k; Some (v + b))
                       (dic self)
  | F other => Some (mk ((fun v => v + other) <$> dic self))
  end.

Definition __radd__ := __add__.

(** [all(abs(v - 1.) < PRECISION for v in self.dic.values() if v)]. *)
Definition is_one (self : t) : bool :=
  forallb (fun kv =>
             if decide (snd kv = 0) then true
             else bool_decide (abs (snd kv - 1) < PRECISION))
          (map_to_list (dic self)).

(** The built-in [sum(weights)]: it starts from the integer [0], and
    [0 + w] is [w.__radd__(0)]. *)
Definition sum (weights : list t) : option operand :=
  foldl (fun acc w =>
           acc ← acc;
           match acc with
           | F x => W <$> __radd__ w (F x)
           | W a => W <$> __add__ a (W w)
           end)
        (Some (F 0)) weights.

(** The [uncertaintyWeight] children of a branch: the [imt] attribute,
    when there is one, and the number. *)
Definition weight_nodes : Type := list (option string * Qc).

Inductive error : Type :=
| no_uncertaintyWeight
| first_weight_has_imt
| weight_without_imt
| duplicated_imts.

(** [ImtWeight(branch, fname)]. *)
Definition __init__ (nodes : weight_nodes) : result error t :=
  match nodes with
  | [] => Err no_uncertaintyWeight
  | (Some _, _) :: _ => Err first_weight_has_imt
  | (None, w) :: rest =>
      let* entries :=
        foldr (fun n acc =>
                 let* acc := acc in
                 match fst n with
                 | Some imt => Ok ((imt, snd n) :: acc)
                 | None => Err weight_without_imt
                 end) (Ok []) rest in
      let* _ := raise_if (has_duplicates (entries.*1)) duplicated_imts in
      Ok (mk (foldl (fun d e => <[fst e := snd e]> d)
                    {["weight" := w]} entries))
  end.

End ImtWeight.

(** ** [GsimLogicTree] *)

(** A ground-motion model.  An instance made by [valid.gsim] is known by
    its text; [AvgGMPE] is the average that [collapse] allocates, with
    its [kwargs] (per branch id the model it stands for), its [gsims]
    and its [weights].  The attribute [gsim.weight] that the tree hangs
    on a model with per-IMT weights is not part of the model's identity
    and is left out. *)
#[local] Set Warnings "-register-all".
Inductive Gsim : Type :=
| gsim_instance (text : string)
| AvgGMPE (kwargs : list (string * Gsim)) (gsims : list Gsim)
          (weights : list Qc).

(** Equality of ground-motion models is decidable: [gsim in values]. *)
Fixpoint Gsim_eqb (x y : Gsim) : bool :=
  match x, y with
  | gsim_instance s, gsim_instance s' => bool_decide (s = s')
  | AvgGMPE k g w, AvgGMPE k' g' w' =>
      (fix kw (a b : list (string * Gsim)) : bool :=
         match a, b with
         | [], [] => true
         | (i, u) :: a', (j, v) :: b' =>
             bool_decide (i = j) && Gsim_eqb u v && kw a' b'
         | _, _ => false
         end) k k'
      && (fix gs (a b : list Gsim) : bool :=
            match a, b with
            | [], [] => true
            | u :: a', v :: b' => Gsim_eqb u v && gs a' b'
            | _, _ => false
            end) g g'
      && bool_decide (w = w')
  | _, _ => false
  end.

(** The named tuple [BranchTuple]. *)
Record BranchTuple : Type := mkBranchTuple {
  trt : string;
  id : string;
  gsim : Gsim;
  weight : ImtWeight.t;
  effective : bool
}.

#[export] Instance BranchTuple_weighted : Weighted BranchTuple :=
  fun b => ImtWeight.__getitem__ (weight b) "weight".

(** A [logicTreeBranch] of the GSIM tree. *)
Record GsimBranchNode : Type := {
  g_branchID : string;
  g_uncertaintyModel : string;
  g_uncertaintyWeight : ImtWeight.weight_nodes
}.

(** A [logicTreeBranchSet] of the GSIM tree.  An absent
    [applyToTectonicRegionType] is [None]. *)
Record GsimBranchSetNode : Type := {
  g_uncertaintyType : string;
  g_branchSetID : string;
  g_applyToTectonicRegionType : option string;
  g_branches : list GsimBranchNode
}.

(** A child of the [logicTree] element: a legacy branching level
    holding branch sets, a branch set, or an element of another tag. *)
Inductive level_node : Type :=
| logicTreeBranchingLevel (branchsets : list GsimBranchSetNode)
| logicTreeBranchSet (branchset : GsimBranchSetNode)
| other_element.

Inductive GsimError : Type :=
| multiple_branchsets
| not_a_branchset
| unpack_failed
| only_gmpeModel
| duplicated_branchSetID (bsid : string)
| bad_weight (e : ImtWeight.error)
| invalid_gsim (text : string)
| duplicated_gsim (g : Gsim)
| missing_applyToTectonicRegionType
| total_has_no_is_one
| weights_not_one
| duplicated_branchIDs
| duplicated_applyToTectonicRegionType (trts : list string)
| trts_not_distinct
| no_branches.

(** [_bsnodes(fname, branchinglevel)]. *)
Definition _bsnodes (branchinglevel : level_node)
  : result GsimError (list GsimBranchSetNode) :=
  match branchinglevel with
  | logicTreeBranchingLevel branchsets =>
      let* _ := raise_if (bool_decide (1 < length branchsets)%nat)
                         multiple_branchsets in
      Ok branchsets
  | logicTreeBranchSet branchset => Ok [branchset]
  | other_element => Err not_a_branchset
  end.

(** [valid.gsim] of [openquake.hazardlib]: the model named by a text,
    [None] where it raises. *)
Class Registry : Type := valid_gsim : string → option Gsim.

(** The order of [branches.sort(key=lambda b: (b.trt, b.id))]. *)
Definition branch_le (a b : BranchTuple) : bool :=
  match String.compare (trt a) (trt b) with
  | Lt => true
  | Eq => String.leb (id a) (id b)
  | Gt => false
  end.

Module GsimLogicTree.

Record t : Type := mk {
  filename : string;
  values : list (option string * list Gsim);
  bs_id_by_trt : list (option string * string);
  branches : list BranchTuple
}.

Section construction.
Context `{R : Registry}.

(** The state of the loops of [_build_trts_branches]. *)
Record build_state : Type := {
  b_values : list (option string * list Gsim);
  b_bs_id_by_trt : list (option string * string);
  b_trts : list string;
  b_branches : list BranchTuple;
  b_branchsetids : list string
}.

Record branch_state : Type := {
  s_values : list (option string * list Gsim);
  s_branches : list BranchTuple;
  s_weights : list ImtWeight.t;
  s_branch_ids : list string
}.

(** One turn of [for branch in branchset]. *)
Definition build_branch (trt : option string) (effective : bool)
    (st : branch_state) (branch : GsimBranchNode)
  : result GsimError branch_state :=
  let* weight :=
    match ImtWeight.__init__ (g_uncertaintyWeight branch) with
    | Ok w => Ok w
    | Err e => Err (bad_weight e)
    end in
  let weights := s_weights st ++ [weight] in
  let branch_id := g_branchID branch in
  let branch_ids := s_branch_ids st ++ [branch_id] in
  let* gsim :=
    match valid_gsim (g_uncertaintyModel branch) with
    | Some g => Ok g
    | None => Err (invalid_gsim (g_uncertaintyModel branch))
    end in
  let known := default [] (odict_get (s_values st) trt) in
  let* _ := raise_if (existsb (Gsim_eqb gsim) known) (duplicated_gsim gsim) in
  let values := odict_set (s_values st) trt (known ++ [gsim]) in
  let* trt_attr :=
    match trt with
    | Some x => Ok x
    | None => Err missing_applyToTectonicRegionType
    end in
  let bt := mkBranchTuple trt_attr branch_id gsim weight effective in
  Ok {| s_values := values;
        s_branches := if effective then s_branches st ++ [bt]
                      else s_branches st;
        s_weights := weights;
        s_branch_ids := branch_ids |}.

Fixpoint build_branches (trt : option string) (effective : bool)
    (st : branch_state) (branches : list GsimBranchNode)
  : result GsimError branch_state :=
  match branches with
  | [] => Ok st
  | branch :: rest =>
      let* st' := build_branch trt effective st branch in
      build_branches trt effective st' rest
  end.

(** The check [assert tot.is_one()] on [tot = sum(weights)]; the sum of
    no weights is the integer [0], which has no [is_one]. *)
Definition check_total (weights : list ImtWeight.t) : result GsimError unit :=
  match ImtWeight.sum weights with
  | Some (ImtWeight.W tot) =>
      raise_if (negb (ImtWeight.is_one tot)) weights_not_one
  | _ => Err total_has_no_is_one
  end.

(** One turn of [for blnode in self._ltnode]. *)
Definition build_level (tectonic_region_types : list string)
    (st : build_state) (blnode : level_node) : result GsimError build_state :=
  let* bsnodes := _bsnodes blnode in
  let* branchset :=
    match bsnodes with
    | [branchset] => Ok branchset
    | _ => Err unpack_failed
    end in
  let* _ := raise_if (negb (bool_decide (g_uncertaintyType branchset = "gmpeModel")))
                     only_gmpeModel in
  let bsid := g_branchSetID branchset in
  let* _ := raise_if (bool_decide (bsid ∈ b_branchsetids st))
                     (duplicated_branchSetID bsid) in
  let branchsetids := bsid :: b_branchsetids st in
  let trt := g_applyToTectonicRegionType branchset in
  let trts :=
    match trt with
    | Some x => if bool_decide (x = "") then b_trts st else b_trts st ++ [x]
    | None => b_trts st
    end in
  let bs_id_by_trt := odict_set (b_bs_id_by_trt st) trt bsid in
  let effective :=
    bool_decide (tectonic_region_types = ["*"])
    || match trt with
       | Some x => bool_decide (x ∈ tectonic_region_types)
       | None => false
       end in
  let* bst :=
    build_branches trt effective
      {| s_values := b_values st; s_branches := b_branches st;
         s_weights := []; s_branch_ids := [] |}
      (g_branches branchset) in
  let* _ := check_total (s_weights bst) in
  let* _ := raise_if (has_duplicates (s_branch_ids bst)) duplicated_branchIDs in
  Ok {| b_values := s_values bst;
        b_bs_id_by_trt := bs_id_by_trt;
        b_trts := trts;
        b_branches := s_branches bst;
        b_branchsetids := branchsetids |}.

Fixpoint build_levels (tectonic_region_types : list string)
    (st : build_state) (ltnode : list level_node)
  : result GsimError build_state :=
  match ltnode with
  | [] => Ok st
  | blnode :: rest =>
      let* st' := build_level tectonic_region_types st blnode in
      build_levels tectonic_region_types st' rest
  end.

(** [_build_trts_branches]: the sorted branches, with the dictionaries
    [values] and [bs_id_by_trt] that it fills on the way. *)
Definition _build_trts_branches (tectonic_region_types : list string)
    (ltnode : list level_node) : result GsimError build_state :=
  let* st :=
    build_levels tectonic_region_types
      {| b_values := []; b_bs_id_by_trt := []; b_trts := [];
         b_branches := []; b_branchsetids := [] |} ltnode in
  let* _ := raise_if (has_duplicates (b_trts st))
                     (duplicated_applyToTectonicRegionType (b_trts st)) in
  Ok {| b_values := b_values st;
        b_bs_id_by_trt := b_bs_id_by_trt st;
        b_trts := b_trts st;
        b_branches := merge_sort branch_le (b_branches st);
        b_branchsetids := b_branchsetids st |}.

(** [GsimLogicTree(fname, tectonic_region_types, ltnode)]. *)
Definition __init__ (fname : string) (tectonic_region_types : list string)
    (ltnode : list level_node) : result GsimError t :=
  let trts := merge_sort String.leb tectonic_region_types in
  let* _ := raise_if (has_duplicates trts) trts_not_distinct in
  let* st := _build_trts_branches trts ltnode in
  let values :=
    if bool_decide (trts ≠ ["*"])
    then map (fun trt => (Some trt,
                          default [] (odict_get (b_values st) (Some trt)))) trts
    else b_values st in
  let* _ := raise_if (bool_decide (tectonic_region_types ≠ [])
                      && bool_decide (b_branches st = []))
                     no_branches in
  Ok (mk fname values (b_bs_id_by_trt st) (b_branches st)).

End construction.

(** [reduce(trts)]. *)
Definition reduce (self : t) (trts : gset string) : t :=
  if bool_decide (trts ≠ {["*"]}) then
    mk (filename self) (values self) (bs_id_by_trt self)
       (map (fun br => mkBranchTuple (trt br) (id br) (gsim br) (weight br)
                                     (bool_decide (trt br ∈ trts)))
            (branches self))
  else self.

(** The body of the [for trt, grp in itertools.groupby(...)] loop of
    [collapse]: what it appends to [new.branches].  After the inner
    loop [for br in grp] the name [br] is left bound to the last branch
    of the group. *)
Definition collapse_group (self : t) (branchset_ids : list string)
    (trt : string) (grp : list BranchTuple) : option (list BranchTuple) :=
  bs_id ← odict_get (bs_id_by_trt self) (Some trt);
  let brs := map id grp in
  let gsims := map gsim grp in
  let weights := map weight grp in
  if bool_decide (1 < length gsims)%nat && bool_decide (bs_id ∈ branchset_ids)
  then
    let kwargs := foldl (fun d kv => odict_set d (fst kv) (snd kv)) []
                        (zip brs gsims) in
    ws ← mapM (fun w => ImtWeight.__getitem__ w "weight") weights;
    tot ← ImtWeight.sum weights;
    match tot with
    | ImtWeight.W tot =>
        Some [mkBranchTuple trt bs_id (AvgGMPE kwargs gsims ws) tot true]
    | ImtWeight.F _ => None
    end
  else
    br ← last grp;
    Some [br].

Definition collapse (self : t) (branchset_ids : list string) : option t :=
  new_branches ← mapM (fun g => collapse_group self branchset_ids (fst g) (snd g))
                      (groupby trt (branches self));
  Some (mk (filename self) (values self) (bs_id_by_trt self)
           (concat new_branches)).

(** [get_num_branches]: per tectonic region type the number of
    effective branches of its group. *)
Definition get_num_branches (self : t) : gmap string nat :=
  foldl (fun num g =>
           <[fst g := length (filter (fun br => effective br = true) (snd g))]> num)
        ∅ (groupby trt (branches self)).

Definition get_num_paths (self : t) : nat :=
  let num_branches := get_num_branches self in
  if bool_decide (map_fold (fun _ val acc => (acc + val)%nat) 0%nat num_branches
                  = 0%nat)
  then 0%nat
  else map_fold (fun _ val num => if bool_decide (val ≠ 0%nat)
                                  then (num * val)%nat else num)
                1%nat num_branches.

End GsimLogicTree.

(** ** The scenarios of the specification *)

(** Scenario A: a [sourceModel] root with branches [A] (0.6) and [B]
    (0.4); both carry the same [maxMagGRRelative] branch set with two
    branches of weight 0.5. *)
Definition scenario_A_level2 : BranchSet :=
  mkBranchSet "maxMagGRRelative" []
    [mkBranch "bs2" "M1" (dec 5 10) "0.2" None;
     mkBranch "bs2" "M2" (dec 5 10) "-0.2" None].

Definition scenario_A_root : BranchSet :=
  mkBranchSet "sourceModel" []
    [mkBranch "bs1" "A" (dec 6 10) "model_A.xml" (Some scenario_A_level2);
     mkBranch "bs1" "B" (dec 4 10) "model_B.xml" (Some scenario_A_level2)].

(** The instance after construction, with [seed] and [num_samples] as
    given to the constructor. *)
Definition scenario_A (seed num_samples : Z) : SourceModelLogicTree.t :=
  SourceModelLogicTree.mk "logic_tree.xml" seed num_samples
    [("A", mkBranch "bs1" "A" (dec 6 10) "model_A.xml" (Some scenario_A_level2));
     ("B", mkBranch "bs1" "B" (dec 4 10) "model_B.xml" (Some scenario_A_level2));
     ("M1", mkBranch "bs2" "M1" (dec 5 10) "0.2" None);
     ("M2", mkBranch "bs2" "M2" (dec 5 10) "-0.2" None)]
    [("bs1", [("uncertaintyType", "sourceModel")]);
     ("bs2", [("uncertaintyType", "maxMagGRRelative")])]
    ∅ ∅ ∅ (Some scenario_A_root).

(** Scenario C: two tectonic region types with two ground-motion models
    each, of weight 0.5. *)
Definition half : ImtWeight.t := ImtWeight.mk {["weight" := dec 5 10]}.

Definition scenario_C : GsimLogicTree.t :=
  GsimLogicTree.mk "gmpe_logic_tree.xml"
    [(Some "Active", [gsim_instance "BooreAtkinson2008";
                      gsim_instance "ChiouYoungs2008"]);
     (Some "Stable", [gsim_instance "ToroEtAl2002";
                      gsim_instance "Campbell2003"])]
    [(Some "Active", "bs_active"); (Some "Stable", "bs_stable")]
    [mkBranchTuple "Active" "a1" (gsim_instance "BooreAtkinson2008") half true;
     mkBranchTuple "Active" "a2" (gsim_instance "ChiouYoungs2008") half true;
     mkBranchTuple "Stable" "s1" (gsim_instance "ToroEtAl2002") half true;
     mkBranchTuple "Stable" "s2" (gsim_instance "Campbell2003") half true].

(** The document from which the constructor builds Scenario C. *)
Definition scenario_C_ltnode : list level_node :=
  [logicTreeBranchSet
     {| g_uncertaintyType := "gmpeModel"; g_branchSetID := "bs_active";
        g_applyToTectonicRegionType := Some "Active";
        g_branches :=
          [{| g_branchID := "a1"; g_uncertaintyModel := "BooreAtkinson2008";
              g_uncertaintyWeight := [(None, dec 5 10)] |};
           {| g_branchID := "a2"; g_uncertaintyModel := "ChiouYoungs2008";
              g_uncertaintyWeight := [(None, dec 5 10)] |}] |};
   logicTreeBranchSet
     {| g_uncertaintyType := "gmpeModel"; g_branchSetID := "bs_stable";
        g_applyToTectonicRegionType := Some "Stable";
        g_branches :=
          [{| g_branchID := "s1"; g_uncertaintyModel := "ToroEtAl2002";
              g_uncertaintyWeight := [(None, dec 5 10)] |};
           {| g_branchID := "s2"; g_uncertaintyModel := "Campbell2003";
              g_uncertaintyWeight := [(None, dec 5 10)] |}] |}].

(** A registry that knows every name. *)
Definition any_gsim : Registry := fun text => Some (gsim_instance text).

(** ** The words of the specification

    The notions below follow the specification, not the code; the
    theorems compare the code with them. *)

(** The root-to-leaf paths of a tree, depth first, branches left to
    right. *)
Fixpoint dfs_paths (root : BranchSet) : list (list Branch) :=
  flat_map (fun b =>
    match Branch.bset b with
    | Some child => map (cons b) (dfs_paths child)
    | None => [[b]]
    end) (BranchSet.branches root).

(** A root-to-leaf path: one branch per level, down to a branch without
    child. *)
Inductive root_to_leaf : BranchSet → list Branch → Prop :=
| rtl_leaf root b :
    b ∈ BranchSet.branches root → Branch.bset b = None →
    root_to_leaf root [b]
| rtl_step root b child p :
    b ∈ BranchSet.branches root → Branch.bset b = Some child →
    root_to_leaf child p → root_to_leaf root (b :: p).

(** The product of the branch weights along a path. *)
Definition path_weight (p : list Branch) : Qc :=
  foldr (fun b acc => Branch.weight b * acc) 1 p.

(** The realization of the [i]-th enumerated path [p]. *)
Definition enumerated (i : nat) (p : list Branch) : Realization.t :=
  Realization.mk (from_option Branch.value "" (head p)) (path_weight p)
                 (Some i) (map Branch.branch_id p) 1 0.



(** Probabilities as NumPy accepts them, stated with the tolerance of
    the constructor (NumPy's own is wider): none is negative and they
    sum to one within [PRECISION]. *)
Definition probabilities (p : list Qc) : Prop :=
  Forall (fun x => 0 <= x) p ∧ abs (fsum p - 1) <= PRECISION.

#[global] Instance probabilities_dec p : Decision (probabilities p).
Proof. unfold probabilities. apply _. Defined.


(** What the sampling code relies on from NumPy: [seed] accepts the
    unsigned 32-bit integers, and [choice] on a non-empty vector of
    probabilities draws [size] indices within range. *)
Definition numpy_contract (G : numpy_random.Generator) : Prop :=
  (∀ s : Z, (0 <= s < 2 ^ 32)%Z → is_Some (numpy_random.seed s))
  ∧ (∀ g p size,
       p ≠ [] → probabilities p →
       ∃ idxs g',
         numpy_random.choice g (length p) size p = Some (idxs, g')
         ∧ length idxs = size
         ∧ Forall (fun i => (i < length p)%nat) idxs).

(** Two generators to run the sampling code on.  Both honour the
    contract; they are stand-ins, not NumPy's generator.  The first
    always draws index 0; the second draws from a linear congruential
    sequence started at the seed. *)
Definition valid_seed (s : Z) : option Z :=
  if bool_decide (0 <= s < 2 ^ 32)%Z then Some s else None.

Definition valid_p (a : nat) (p : list Qc) : bool :=
  bool_decide (p ≠ []) && bool_decide (length p = a)
  && bool_decide (probabilities p).

Definition constant_generator : numpy_random.Generator :=
  {| numpy_random.state := Z;
     numpy_random.seed := valid_seed;
     numpy_random.choice g a size p :=
       if valid_p a p then Some (replicate size 0%nat, g) else None |}.

Fixpoint lcg_draws (a : nat) (size : nat) (g : Z) : list nat * Z :=
  match size with
  | O => ([], g)
  | S size' =>
      let '(idxs, g') :=
        lcg_draws a size' ((1103515245 * g + 12345) `mod` 2 ^ 31)%Z in
      (Z.to_nat (g `mod` Z.of_nat a) :: idxs, g')
  end.

Definition lcg_generator : numpy_random.Generator :=
  {| numpy_random.state := Z;
     numpy_random.seed := valid_seed;
     numpy_random.choice g a size p :=
       if valid_p a p then Some (lcg_draws a size g) else None |}.

(** The nested list that [_enumerate_paths] holds after following the
    branches [p] from [prefix_path]. *)
Definition nest (prefix_path : nested_path) (p : list Branch) : nested_path :=
  foldl PPair prefix_path p.



(** Two composite weights with different keys. *)
Definition plain_half : ImtWeight.t := ImtWeight.mk {["weight" := dec 5 10]}.

Definition half_with_PGA : ImtWeight.t :=
  ImtWeight.mk (<["PGA" := dec 9 10]> {["weight" := dec 5 10]}).




(** The number of effective branches of a tectonic region type, counted
    over all the branches of the tree. *)
Definition effective_count (self : GsimLogicTree.t) (t : string) : nat :=
  length (filter (fun br => trt br = t ∧ effective br = true)
                 (GsimLogicTree.branches self)).

(** The tectonic region types of the tree, each once. *)
Definition region_types (self : GsimLogicTree.t) : list string :=
  remove_dups (trt <$> GsimLogicTree.branches self).

Definition no_effective_branch (self : GsimLogicTree.t) : Prop :=
  Forall (fun br => effective br = false) (GsimLogicTree.branches self).

(** The number of paths in the words of the specification: the product
    of the effective counts of all the region types, and 0 when no
    branch is effective. *)
Definition product_of_counts (self : GsimLogicTree.t) : nat :=
  if bool_decide (no_effective_branch self) then 0%nat
  else foldr (fun t acc => (effective_count self t * acc)%nat) 1%nat
             (region_types self).

(** The same product restricted to the region types that have an
    effective branch. *)
Definition product_of_positive_counts (self : GsimLogicTree.t) : nat :=
  if bool_decide (no_effective_branch self) then 0%nat
  else foldr (fun t acc =>
                if decide (effective_count self t = 0%nat) then acc
                else (effective_count self t * acc)%nat) 1%nat
             (region_types self).

(** The branches of one tectonic region type follow one another, as they
    do once sorted. *)
Definition one_run_per_trt (self : GsimLogicTree.t) : Prop :=
  NoDup (groupby trt (GsimLogicTree.branches self)).*1.

(** [num[k] = c], and the count that [get_num_branches] stores for a
    run. *)
Definition put (num : gmap string nat) (kc : string * nat) : gmap string nat :=
  <[fst kc := snd kc]> num.

Definition run_count (g : string * list BranchTuple) : string * nat :=
  (fst g, length (filter (fun br => effective br = true) (snd g))).

(** The declared weights of a branch set do not sum to one within the
    tolerance. *)
Definition weights_off (branchset_node : BranchSetNode) : Prop :=
  PRECISION < abs (fsum (uncertaintyWeight <$> nodes branchset_node) - 1).

(** A branch id of the node is already in the tree, or occurs twice in
    the node. *)
Definition repeated_id (self : SourceModelLogicTree.t)
    (branchset_node : BranchSetNode) : Prop :=
  ¬ NoDup ((SourceModelLogicTree.branches self).*1
           ++ (branchID <$> nodes branchset_node)).

(** The uncertainty values of the node, as [parse_branches] collects
    them. *)
Definition values_of (branchset_node : BranchSetNode) : list string :=
  omap (fun b => strip <$> uncertaintyModel b) (nodes branchset_node).

Definition repeated_value (branchset_node : BranchSetNode) : Prop :=
  ¬ NoDup (values_of branchset_node).

(** The scan of the source models of a branch raises: the branch set is
    of kind [sourceModel] or [extendModel] and the branch has no text,
    or names a file [.xml] or [.nrml] that cannot be opened. *)
Definition scan_fails `{World} (utype : string) (b : BranchNode) : Prop :=
  utype ∈ ["sourceModel"; "extendModel"]
  ∧ match uncertaintyModel b with
    | None => True
    | Some txt =>
        ∃ fname, fname ∈ split (strip txt)
                 ∧ (endswith fname ".xml" || endswith fname ".nrml") = true
                 ∧ _get_source_model fname = None
    end.

(** The text of the branch is no value of the uncertainty kind. *)
Definition invalid_value `{World} (utype : string) (b : BranchNode) : Prop :=
  parse_uncertainty utype (uncertaintyModel b) = None.

(** A world without files, in which every text is a value. *)
Definition no_files : World :=
  {| _get_source_model := fun _ => None;
     TRT_REGEX_findall := fun _ => [];
     ID_REGEX_findall := fun _ => [];
     SOURCE_TYPE_REGEX_findall := fun _ => [];
     parse_uncertainty := fun _ text => strip <$> text |}.

(** An instance before its first branch set is parsed. *)
Definition fresh : SourceModelLogicTree.t :=
  SourceModelLogicTree.mk "logic_tree.xml" 0 0 [] [] ∅ ∅ ∅ None.

(** An instance that has scanned a source model defining [src1] and
    [src2] under the branch [A]. *)
Definition scanned : SourceModelLogicTree.t :=
  SourceModelLogicTree.mk "logic_tree.xml" 0 0
    [("A", mkBranch "bs1" "A" 1 "model_A.xml" None)]
    [("bs1", [("uncertaintyType", "sourceModel")])]
    {["Active Shallow Crust"]} {["SimpleFaultSource"]}
    {["A" := ["src1"; "src2"]]} None.

(** A [sourceModel] branch set naming a file that does not exist. *)
Definition missing_model_node : BranchSetNode :=
  {| attrib := [("branchSetID", "bs1"); ("uncertaintyType", "sourceModel")];
     nodes := [{| branchID := "A"; uncertaintyWeight := 1;
                  uncertaintyModel := Some "model_A.xml" |}] |}.

(** A branch set whose weights sum to 0.9. *)
Definition short_weights_node : BranchSetNode :=
  {| attrib := [("branchSetID", "bs2"); ("uncertaintyType", "maxMagGRRelative")];
     nodes := [{| branchID := "M1"; uncertaintyWeight := dec 5 10;
                  uncertaintyModel := Some "0.2" |};
               {| branchID := "M2"; uncertaintyWeight := dec 4 10;
                  uncertaintyModel := Some "-0.2" |}] |}.

(** The branch ids known to the instance, and the uncertainty kind of
    the branch set, in a state of the loop of [parse_branches]. *)
Definition keys (st : SourceModelLogicTree.loop_state) : list string :=
  (SourceModelLogicTree.branches (SourceModelLogicTree.l_self st)).*1.

Definition kind (st : SourceModelLogicTree.loop_state) : string :=
  BranchSet.uncertainty_type (SourceModelLogicTree.l_branchset st).

(** Export, then import: the instance that [__fromh5__] fills from what
    [__toh5__] returns. *)
Definition roundtrip (self : SourceModelLogicTree.t)
  : option SourceModelLogicTree.t :=
  '(array, attrs) ← SourceModelLogicTree.__toh5__ self;
  r ← SourceModelLogicTree.__fromh5__ array attrs;
  SourceModelLogicTree.instance_of r.

(** A tree of three levels: Scenario A with a [bGRRelative] branch set
    under every branch of its second level. *)
Definition three_levels_level3 : BranchSet :=
  mkBranchSet "bGRRelative" []
    [mkBranch "bs3" "G1" (dec 5 10) "0.1" None;
     mkBranch "bs3" "G2" (dec 5 10) "-0.1" None].

Definition three_levels_level2 : BranchSet :=
  mkBranchSet "maxMagGRRelative" []
    [mkBranch "bs2" "M1" (dec 5 10) "0.2" (Some three_levels_level3);
     mkBranch "bs2" "M2" (dec 5 10) "-0.2" (Some three_levels_level3)].

Definition three_levels_root : BranchSet :=
  mkBranchSet "sourceModel" []
    [mkBranch "bs1" "A" (dec 6 10) "model_A.xml" (Some three_levels_level2);
     mkBranch "bs1" "B" (dec 4 10) "model_B.xml" (Some three_levels_level2)].

Definition three_levels : SourceModelLogicTree.t :=
  SourceModelLogicTree.mk "logic_tree.xml" 0 0
    ((fun b => (Branch.branch_id b, b))
       <$> (BranchSet.branches three_levels_root
            ++ BranchSet.branches three_levels_level2
            ++ BranchSet.branches three_levels_level3))
    [("bs1", [("uncertaintyType", "sourceModel")]);
     ("bs2", [("uncertaintyType", "maxMagGRRelative")]);
     ("bs3", [("uncertaintyType", "bGRRelative")])]
    ∅ ∅ ∅ (Some three_levels_root).

(** The paths of the realizations that an iteration yields. *)
Definition paths_of (r : option (list Realization.t)) : option (list (list string)) :=
  fmap (M := list) Realization.lt_path <$> r.

(** The order of Python on strings, by code points. *)
Definition str_le (a b : string) : Prop := String.compare a b ≠ Gt.

(** ** Construction of the source-model tree

    While the tree is built, a branch set is attached to branches made
    earlier, and one branch set to several branches: the branches are
    objects shared by the instance and by the branch sets.  The
    construction is therefore modelled over a store.  A branch object is
    known by its id, the key under which [self.branches] holds it; a
    [BranchSet] object is a cell of [store], known by its position; the
    attribute [bset] of the branches is the map [child].  Once the
    construction is over, the tree is read off the store. *)

(** A child of the [logicTree] element of the source-model document. *)
Inductive sm_level_node : Type :=
| sm_logicTreeBranchingLevel (branchsets : list BranchSetNode)
| sm_logicTreeBranchSet (branchset : BranchSetNode)
| sm_other_element.

(** [os.path], as far as [_abs_paths] uses it: [isabs], [exists], and
    [abspath base fname] for
    [os.path.abspath(os.path.join(base, fname))]. *)
Class OsPath : Type := {
  isabs : string → bool;
  abspath : string → string → string;
  path_exists : string → bool;
  dirname : string → string
}.

Inductive ConstructionError : Type :=
| raised (e : LogicTreeError)
| missing_logicTree
| not_a_logic_tree_file
| level_has_multiple_branchsets
| expected_BranchingLevel_or_BranchSet
| expected_one_branchset
| no_uncertaintyModel_text
| found_duplicates (dupl : list string)
| must_be_a_relative_path (fname : string)
| first_branchset_must_be_sourceModel
| sourceModel_on_first_branchset_only
| gmpeModel_not_allowed
| branch_not_yet_defined (branch_id : string)
| branch_already_has_child (branch_id : string)
| AttributeError (name : string).

(** [unique(objects, key)]: the objects themselves, unless a run of
    equal keys in [sorted(objects)] has more than one element; then the
    keys of those runs are reported. *)
Definition unique {K : Type} `{EqDecision K} (key : string → K)
    (objects : list string) : result (list K) (list string) :=
  let dupl :=
    omap (fun g => if bool_decide (1 < length (snd g))%nat
                   then Some (fst g) else None)
         (groupby key (merge_sort String.leb objects)) in
  if bool_decide (dupl ≠ []) then Err dupl else Ok objects.

(** [_bsnodes(fname, branchinglevel)] on the source-model document. *)
Definition sm_bsnodes (branchinglevel : sm_level_node)
  : result ConstructionError (list BranchSetNode) :=
  match branchinglevel with
  | sm_logicTreeBranchingLevel branchsets =>
      let* _ := raise_if (bool_decide (1 < length branchsets)%nat)
                         level_has_multiple_branchsets in
      Ok branchsets
  | sm_logicTreeBranchSet branchset => Ok [branchset]
  | sm_other_element => Err expected_BranchingLevel_or_BranchSet
  end.

(** [_abs_paths(smlt, fnames)]. *)
Fixpoint _abs_paths `{OsPath} (smlt : string) (fnames : list string)
  : result ConstructionError (list string) :=
  match fnames with
  | [] => Ok []
  | fname :: rest =>
      let* _ := raise_if (isabs fname) (must_be_a_relative_path fname) in
      let fname' := abspath (dirname smlt) fname in
      let* paths := _abs_paths smlt rest in
      Ok (if path_exists fname' then fname' :: paths else paths)
  end.

(** The named tuple [Info].  [smpaths] maps a branch id to a sorted
    list of paths; the keys of [applytosources] are the values of
    [applyToBranches], [None] for a branch set without that
    attribute. *)
Record Info : Type := {
  smpaths : list (string * list string);
  applytosources : list (option string * list string)
}.

(** The body of [for bset in _bsnodes(smlt, blevel)] of [collect_info].
    [paths] holds the sets as lists. *)
Definition collect_bset `{OsPath} (smlt : string)
    (acc : list (string * list string) * list (option string * list string))
    (bset : BranchSetNode)
  : result ConstructionError
      (list (string * list string) * list (option string * list string)) :=
  let '(paths, applytosources) := acc in
  let applytosources :=
    match odict_get (attrib bset) "applyToSources" with
    | Some sources =>
        let key := odict_get (attrib bset) "applyToBranches" in
        odict_set applytosources key
          (default [] (odict_get applytosources key) ++ split sources)
    | None => applytosources
    end in
  let* uncertainty_type :=
    match odict_get (attrib bset) "uncertaintyType" with
    | Some u => Ok u
    | None => Err (raised (KeyError "uncertaintyType"))
    end in
  if str_contains "sourceModel extendModel" uncertainty_type then
    let* paths :=
      foldl (fun acc br =>
               let* paths := acc in
               let* text :=
                 match uncertaintyModel br with
                 | Some text => Ok text
                 | None => Err no_uncertaintyModel_text
                 end in
               let* fnames :=
                 match unique (fun x => x) (split text) with
                 | Ok fnames => Ok fnames
                 | Err dupl => Err (found_duplicates dupl)
                 end in
               let* found := _abs_paths smlt fnames in
               Ok (odict_set paths (branchID br)
                     (default [] (odict_get paths (branchID br)) ++ found)))
            (Ok paths) (nodes bset) in
    Ok (paths, applytosources)
  else Ok (paths, applytosources).

(** [collect_info(smlt)]; [document] is what [nrml.read(smlt)] holds
    under [logicTree], [None] when there is no such element. *)
Definition collect_info `{OsPath} (smlt : string)
    (document : option (list sm_level_node)) : result ConstructionError Info :=
  let* blevels :=
    match document with
    | Some blevels => Ok blevels
    | None => Err not_a_logic_tree_file
    end in
  let* acc :=
    foldl (fun acc blevel =>
             let* acc := acc in
             let* bsets := sm_bsnodes blevel in
             foldl (fun acc bset => let* acc := acc in collect_bset smlt acc bset)
                   (Ok acc) bsets)
          (Ok ([], [])) blevels in
  Ok {| smpaths :=
          map (fun kv => (fst kv, merge_sort String.leb (remove_dups (snd kv))))
              (fst acc);
        applytosources := snd acc |}.

Module Construction.

(** A [BranchSet] object under construction: its branches by id. *)
Record cell : Type := {
  c_uncertainty_type : string;
  c_filters : list (string * filter_value);
  c_branches : list string
}.

(** The instance under construction.  [self] holds the attributes of
    plain data; the branches in its dictionary are kept without their
    attribute [bset], which is in [child].  [root_branchset] and
    [num_paths] are [None] until the first branch set is parsed, and
    [info] until [parse_tree] runs. *)
Record state : Type := {
  self : SourceModelLogicTree.t;
  info : option Info;
  store : list cell;
  child : gmap string nat;
  root_branchset : option nat;
  previous_branches : list string;
  num_paths : option nat
}.

Definition set_bsetdict (s : SourceModelLogicTree.t) (bsid : string)
    (attrs : list (string * string)) : SourceModelLogicTree.t :=
  SourceModelLogicTree.mk
    (SourceModelLogicTree.filename s) (SourceModelLogicTree.seed s)
    (SourceModelLogicTree.num_samples s) (SourceModelLogicTree.branches s)
    (odict_set (SourceModelLogicTree.bsetdict s) bsid attrs)
    (SourceModelLogicTree.tectonic_region_types s)
    (SourceModelLogicTree.source_types s)
    (SourceModelLogicTree.source_ids s)
    (SourceModelLogicTree.root_branchset s).

Definition reset_source_ids (s : SourceModelLogicTree.t)
  : SourceModelLogicTree.t :=
  SourceModelLogicTree.mk
    (SourceModelLogicTree.filename s) (SourceModelLogicTree.seed s)
    (SourceModelLogicTree.num_samples s) (SourceModelLogicTree.branches s)
    (SourceModelLogicTree.bsetdict s)
    (SourceModelLogicTree.tectonic_region_types s)
    (SourceModelLogicTree.source_types s)
    ∅
    (SourceModelLogicTree.root_branchset s).

Definition lift_error {A} (m : result LogicTreeError A)
  : result ConstructionError A :=
  match m with
  | Ok a => Ok a
  | Err e => Err (raised e)
  end.

(** [parse_filters]: the value of [applyToSources] becomes a list. *)
Definition parse_filters (filters : list (string * string))
  : list (string * filter_value) :=
  map (fun kv =>
         (fst kv, if bool_decide (fst kv = "applyToSources")
                  then FList (split (snd kv)) else FText (snd kv)))
      filters.

(** [validate_branchset]; [uncertainty_type] is that of the branch
    set, [None] when the attribute is absent. *)
Definition validate_branchset (depth : nat) (uncertainty_type : option string)
  : result ConstructionError unit :=
  if bool_decide (depth = 0%nat) then
    raise_if (negb (bool_decide (uncertainty_type = Some "sourceModel")))
             first_branchset_must_be_sourceModel
  else if bool_decide (uncertainty_type = Some "sourceModel") then
    Err sourceModel_on_first_branchset_only
  else if bool_decide (uncertainty_type = Some "gmpeModel") then
    Err gmpeModel_not_allowed
  else Ok tt.

(** The loop of [apply_branchset] over the ids of
    [apply_to_branches.split()]; [branchset] is the position of the
    branch set being attached. *)
Fixpoint apply_branchset_loop (s : SourceModelLogicTree.t)
    (child : gmap string nat) (branch_ids : list string) (branchset : nat)
  : result ConstructionError (gmap string nat) :=
  match branch_ids with
  | [] => Ok child
  | branch_id :: rest =>
      let* _ := raise_if (negb (odict_mem (SourceModelLogicTree.branches s)
                                          branch_id))
                         (branch_not_yet_defined branch_id) in
      let* _ := raise_if (bool_decide (is_Some (child !! branch_id)))
                         (branch_already_has_child branch_id) in
      apply_branchset_loop s (<[branch_id := branchset]> child) rest branchset
  end.

Definition apply_branchset (s : SourceModelLogicTree.t)
    (child : gmap string nat) (apply_to_branches : string) (branchset : nat)
  : result ConstructionError (gmap string nat) :=
  apply_branchset_loop s child (split apply_to_branches) branchset.

(** [for branch in self.previous_branches: branch.bset = branchset]. *)
Definition attach_to_previous (child : gmap string nat)
    (previous_branches : list string) (branchset : nat) : gmap string nat :=
  foldl (fun child branch_id => <[branch_id := branchset]> child)
        child previous_branches.

Section methods.
Context `{W : World}.

(** [parse_branchset].  An absent [uncertaintyType] is carried by the
    branch set under the name that [kind_name] gives it, which none of
    the comparisons of the module matches. *)
Definition parse_branchset (st : state) (branchset_node : BranchSetNode)
    (depth : nat) : result ConstructionError state :=
  let* bsid :=
    match odict_get (attrib branchset_node) "branchSetID" with
    | Some bsid => Ok bsid
    | None => Err (raised (KeyError "branchSetID"))
    end in
  let attrs := filter (fun kv => fst kv ≠ "branchSetID") (attrib branchset_node) in
  let s := set_bsetdict (self st) bsid attrs in
  let uncertainty_type := odict_get (attrib branchset_node) "uncertaintyType" in
  let filters := SourceModelLogicTree.filters_of branchset_node in
  let* _ := lift_error (SourceModelLogicTree.validate_filters
                          s branchset_node uncertainty_type filters) in
  let filters := parse_filters filters in
  let branchset := mkBranchSet (SourceModelLogicTree.kind_name uncertainty_type)
                               filters [] in
  let* _ := validate_branchset depth uncertainty_type in
  let* parsed := lift_error (SourceModelLogicTree.parse_branches
                               s branchset_node branchset) in
  let s := fst parsed in
  let branchset := snd parsed in
  let addr := length (store st) in
  let* attached :=
    match root_branchset st with
    | None => Ok (Some 1%nat, addr, child st)
    | Some root =>
        let apply_to_branches :=
          odict_get (attrib branchset_node) "applyToBranches" in
        if bool_decide (apply_to_branches ≠ None)
           && bool_decide (apply_to_branches ≠ Some "")
        then
          let* child := apply_branchset s (child st)
                          (default "" apply_to_branches) addr in
          Ok (num_paths st, root, child)
        else
          Ok (num_paths st, root,
              attach_to_previous (child st) (previous_branches st) addr)
    end in
  let '(num_paths, root, child) := attached in
  let branch_ids := Branch.branch_id <$> BranchSet.branches branchset in
  let* num_paths :=
    match num_paths with
    | Some n => Ok (n * length branch_ids)%nat
    | None => Err (AttributeError "num_paths")
    end in
  Ok {| self := s;
        info := info st;
        store := store st
                 ++ [{| c_uncertainty_type := BranchSet.uncertainty_type branchset;
                        c_filters := BranchSet.filters branchset;
                        c_branches := branch_ids |}];
        child := child;
        root_branchset := Some root;
        previous_branches := branch_ids;
        num_paths := Some num_paths |}.

(** The loop of [parse_tree] over [enumerate(tree_node.nodes)]. *)
Fixpoint parse_levels (st : state) (depth : nat) (levels : list sm_level_node)
  : result ConstructionError state :=
  match levels with
  | [] => Ok st
  | blnode :: rest =>
      let* bsnodes := sm_bsnodes blnode in
      let* bsnode :=
        match bsnodes with
        | [bsnode] => Ok bsnode
        | _ => Err expected_one_branchset
        end in
      let* st' := parse_branchset st bsnode depth in
      parse_levels st' (S depth) rest
  end.

(** [parse_tree(tree_node)]; [collect_info] reads the file anew, which
    holds the same document. *)
Definition parse_tree `{OsPath} (st : state) (tree_node : list sm_level_node)
  : result ConstructionError state :=
  let* i := collect_info (SourceModelLogicTree.filename (self st))
                         (Some tree_node) in
  parse_levels {| self := reset_source_ids (self st);
                  info := Some i;
                  store := store st;
                  child := child st;
                  root_branchset := root_branchset st;
                  previous_branches := previous_branches st;
                  num_paths := num_paths st |}
               0 tree_node.

(** [SourceModelLogicTree(filename, seed, num_samples)], on the
    document that [nrml.read(filename)] returns. *)
Definition __init__ `{OsPath} (filename : string) (seed num_samples : Z)
    (document : option (list sm_level_node)) : result ConstructionError state :=
  let st := {| self := SourceModelLogicTree.mk filename seed num_samples
                         [] [] ∅ ∅ ∅ None;
               info := None; store := []; child := ∅;
               root_branchset := None; previous_branches := [];
               num_paths := None |} in
  match document with
  | Some tree => parse_tree st tree
  | None => Err missing_logicTree
  end.

End methods.

(** The branch object of id [branch_id] with its attribute [bset], and
    the tree below the cell at [addr]; [fuel] bounds the depth. *)
Fixpoint tree_at (fuel : nat) (st : state) (addr : nat) : option BranchSet :=
  match fuel with
  | O => None
  | S fuel' =>
      c ← store st !! addr;
      brs ← mapM (fun branch_id =>
                 b ← odict_get (SourceModelLogicTree.branches (self st))
                               branch_id;
                 match child st !! branch_id with
                 | None => Some b
                 | Some a =>
                     t ← tree_at fuel' st a;
                     Some (mkBranch (Branch.bs_id b) (Branch.branch_id b)
                                    (Branch.weight b) (Branch.value b)
                                    (Some t))
                 end) (c_branches c);
      Some (mkBranchSet (c_uncertainty_type c) (c_filters c) brs)
  end.

(** The instance once built, as the methods of
    [SourceModelLogicTree] see it; [None] when the objects do not form
    a tree. *)
Definition instance (st : state) : option SourceModelLogicTree.t :=
  let fuel := S (length (store st)) in
  root ← match root_branchset st with
         | None => Some None
         | Some addr => Some <$> tree_at fuel st addr
         end;
  branches ← mapM (fun kb =>
                     match child st !! fst kb with
                     | None => Some kb
                     | Some a =>
                         t ← tree_at fuel st a;
                         Some (fst kb,
                               mkBranch (Branch.bs_id (snd kb))
                                        (Branch.branch_id (snd kb))
                                        (Branch.weight (snd kb))
                                        (Branch.value (snd kb)) (Some t))
                     end) (SourceModelLogicTree.branches (self st));
  Some (SourceModelLogicTree.mk
          (SourceModelLogicTree.filename (self st))
          (SourceModelLogicTree.seed (self st))
          (SourceModelLogicTree.num_samples (self st))
          branches
          (SourceModelLogicTree.bsetdict (self st))
          (SourceModelLogicTree.tectonic_region_types (self st))
          (SourceModelLogicTree.source_types (self st))
          (SourceModelLogicTree.source_ids (self st))
          root).

End Construction.

(** The branch-set nodes that a child of [logicTree] holds. *)
Definition level_nodes (blnode : sm_level_node) : list BranchSetNode :=
  match blnode with
  | sm_logicTreeBranchingLevel branchsets => branchsets
  | sm_logicTreeBranchSet branchset => [branchset]
  | sm_other_element => []
  end.

(** The attribute [applyToBranches] is absent or empty. *)
Definition no_applyToBranches (branchset_node : BranchSetNode) : Prop :=
  odict_get (attrib branchset_node) "applyToBranches" = None
  ∨ odict_get (attrib branchset_node) "applyToBranches" = Some "".

(** The product of the numbers of branches of the branch sets. *)
Definition product (counts : list nat) : nat := foldr Nat.mul 1%nat counts.

Definition branch_counts (st : Construction.state) : list nat :=
  (fun c => length (Construction.c_branches c)) <$> Construction.store st.

(** The branch that [parse_branches] makes of a node. *)
Definition created `{World} (bs_id kind : string) (b : BranchNode)
  : option Branch :=
  v ← parse_uncertainty kind (uncertaintyModel b);
  Some (Branch.__init__ bs_id (branchID b) (uncertaintyWeight b) v).

(** What the instance knows of the source models only grows. *)
Definition grows (s s' : SourceModelLogicTree.t) : Prop :=
  SourceModelLogicTree.tectonic_region_types s
    ⊆ SourceModelLogicTree.tectonic_region_types s'
  ∧ SourceModelLogicTree.source_types s ⊆ SourceModelLogicTree.source_types s'
  ∧ ∀ k ids, SourceModelLogicTree.source_ids s !! k = Some ids →
             ∃ ids', SourceModelLogicTree.source_ids s' !! k = Some (ids ++ ids').

(** A filter of a branch set names something that the scanned source
    models define. *)
Definition known_filter (s : SourceModelLogicTree.t)
    (f : string * filter_value) : Prop :=
  match f with
  | (key, FText v) =>
      (key = "applyToTectonicRegionType"
       ∧ v ∈ SourceModelLogicTree.tectonic_region_types s)
      ∨ (key = "applyToSourceType" ∧ v ∈ SourceModelLogicTree.source_types s)
  | (key, FList source_ids) =>
      key = "applyToSources"
      ∧ ∀ source_id, source_id ∈ source_ids →
          ∃ k ids, SourceModelLogicTree.source_ids s !! k = Some ids
                   ∧ source_id ∈ ids
  end.

(** The branch-set object that [parse_branchset] makes of a node. *)
Definition cell_of (branchset_node : BranchSetNode) : Construction.cell :=
  {| Construction.c_uncertainty_type :=
       SourceModelLogicTree.kind_name
         (odict_get (attrib branchset_node) "uncertaintyType");
     Construction.c_filters :=
       Construction.parse_filters
         (SourceModelLogicTree.filters_of branchset_node);
     Construction.c_branches := branchID <$> nodes branchset_node |}.

(** The weights of the branches of a branch set of the store. *)
Definition cell_weights (st : Construction.state) (c : Construction.cell)
  : option (list Qc) :=
  mapM (fun branch_id =>
          Branch.weight
            <$> odict_get (SourceModelLogicTree.branches (Construction.self st))
                          branch_id)
       (Construction.c_branches c).

(** The state of a construction is consistent: the keys of the branch
    dictionary are distinct and are the branches of the branch sets, in
    order; every branch is filed under its id; a child is a branch set
    of the store; the root is the first branch set; [num_paths] is the
    product of the numbers of branches; [previous_branches] are the
    branches of the last branch set. *)
Definition consistent (st : Construction.state) : Prop :=
  NoDup (SourceModelLogicTree.branches (Construction.self st)).*1
  ∧ (SourceModelLogicTree.branches (Construction.self st)).*1
    = concat (Construction.c_branches <$> Construction.store st)
  ∧ Forall (fun kb => Branch.branch_id (snd kb) = fst kb
                      ∧ Branch.bset (snd kb) = None)
           (SourceModelLogicTree.branches (Construction.self st))
  ∧ (∀ branch_id a,
       Construction.child st !! branch_id = Some a →
       branch_id ∈ (SourceModelLogicTree.branches (Construction.self st)).*1
       ∧ (a < length (Construction.store st))%nat)
  ∧ Construction.root_branchset st
    = match Construction.store st with [] => None | _ => Some 0%nat end
  ∧ Construction.num_paths st
    = match Construction.store st with
      | [] => None
      | _ => Some (product (branch_counts st))
      end
  ∧ Construction.previous_branches st
    = from_option Construction.c_branches [] (last (Construction.store st)).

(** The number of branches that a child of [logicTree] declares. *)
Definition level_size (blnode : sm_level_node) : nat :=
  length (flat_map nodes (level_nodes blnode)).

(** The branch ids of a document, in the order of the document. *)
Definition document_ids (tree : list sm_level_node) : list string :=
  flat_map (fun blnode =>
              flat_map (fun n => branchID <$> nodes n) (level_nodes blnode))
           tree.

(** A world for the examples: every source model can be opened and
    defines the sources [src1] and [src2], area sources of one tectonic
    region type; every text is a value. *)
Definition example_world : World :=
  {| _get_source_model := fun fname => Some fname;
     TRT_REGEX_findall := fun _ => ["Active Shallow Crust"];
     ID_REGEX_findall := fun _ => ["src1"; "src2"];
     SOURCE_TYPE_REGEX_findall := fun _ => ["areaSource"];
     parse_uncertainty := fun _ text => strip <$> text |}.

(** Paths for the examples: the logic tree is in [/job], where every
    file exists. *)
Definition example_paths : OsPath :=
  {| isabs := String.prefix "/";
     abspath := fun base fname => String.append base (String.append "/" fname);
     path_exists := fun _ => true;
     dirname := fun _ => "/job" |}.

(** The document of Scenario A. *)
Definition scenario_A_document : list sm_level_node :=
  [sm_logicTreeBranchSet
     {| attrib := [("branchSetID", "bs1"); ("uncertaintyType", "sourceModel")];
        nodes := [{| branchID := "A"; uncertaintyWeight := dec 6 10;
                     uncertaintyModel := Some "model_A.xml" |};
                  {| branchID := "B"; uncertaintyWeight := dec 4 10;
                     uncertaintyModel := Some "model_B.xml" |}] |};
   sm_logicTreeBranchSet
     {| attrib := [("branchSetID", "bs2");
                   ("uncertaintyType", "maxMagGRRelative")];
        nodes := [{| branchID := "M1"; uncertaintyWeight := dec 5 10;
                     uncertaintyModel := Some "0.2" |};
                  {| branchID := "M2"; uncertaintyWeight := dec 5 10;
                     uncertaintyModel := Some "-0.2" |}] |}].

(** A document of three levels: the second applies to the branch [A]
    only and to one tectonic region type, the third to all the
    branches of the second. *)
Definition selective_document : list sm_level_node :=
  [sm_logicTreeBranchSet
     {| attrib := [("branchSetID", "bs1"); ("uncertaintyType", "sourceModel")];
        nodes := [{| branchID := "A"; uncertaintyWeight := dec 6 10;
                     uncertaintyModel := Some "model_A.xml" |};
                  {| branchID := "B"; uncertaintyWeight := dec 4 10;
                     uncertaintyModel := Some "model_B.xml" |}] |};
   sm_logicTreeBranchingLevel
     [{| attrib := [("branchSetID", "bs2");
                    ("uncertaintyType", "maxMagGRRelative");
                    ("applyToBranches", "A");
                    ("applyToTectonicRegionType", "Active Shallow Crust")];
         nodes := [{| branchID := "M1"; uncertaintyWeight := dec 5 10;
                      uncertaintyModel := Some "0.2" |};
                   {| branchID := "M2"; uncertaintyWeight := dec 5 10;
                      uncertaintyModel := Some "-0.2" |}] |}];
   sm_logicTreeBranchSet
     {| attrib := [("branchSetID", "bs3"); ("uncertaintyType", "bGRRelative")];
        nodes := [{| branchID := "G1"; uncertaintyWeight := dec 3 10;
                     uncertaintyModel := Some "0.1" |};
                  {| branchID := "G2"; uncertaintyWeight := dec 7 10;
                     uncertaintyModel := Some "-0.1" |}] |}].

(** The branches of every branch set of the store but the last have
    the next branch set as their child, and those of the last have
    none. *)
Definition chained (st : Construction.state) : Prop :=
  ∀ i c branch_id,
    Construction.store st !! i = Some c →
    branch_id ∈ Construction.c_branches c →
    Construction.child st !! branch_id
    = if decide (S i < length (Construction.store st))%nat
      then Some (S i) else None.

(** The state after the first level of Scenario A, and a second level
    that names one of its own branches in [applyToBranches]. *)
Definition after_first_level : Construction.state :=
  {| Construction.self :=
       SourceModelLogicTree.mk "/job/logic_tree.xml" 0 0
         [("A", mkBranch "bs1" "A" (dec 6 10) "model_A.xml" None);
          ("B", mkBranch "bs1" "B" (dec 4 10) "model_B.xml" None)]
         [("bs1", [("uncertaintyType", "sourceModel")])]
         {["Active Shallow Crust"]} {["areaSource"]}
         {["A" := ["src1"; "src2"]; "B" := ["src1"; "src2"]]} None;
     Construction.info := None;
     Construction.store :=
       [{| Construction.c_uncertainty_type := "sourceModel";
           Construction.c_filters := [];
           Construction.c_branches := ["A"; "B"] |}];
     Construction.child := ∅;
     Construction.root_branchset := Some 0%nat;
     Construction.previous_branches := ["A"; "B"];
     Construction.num_paths := Some 2%nat |}.

Definition looping_node : BranchSetNode :=
  {| attrib := [("branchSetID", "bs2");
                ("uncertaintyType", "maxMagGRRelative");
                ("applyToBranches", "A M1")];
     nodes := [{| branchID := "M1"; uncertaintyWeight := dec 5 10;
                  uncertaintyModel := Some "0.2" |};
               {| branchID := "M2"; uncertaintyWeight := dec 5 10;
                  uncertaintyModel := Some "-0.2" |}] |}.

(** ** Iterating over the ground-motion tree *)

(** [itertools.product] over the groups: one item per group, the last
    group varying fastest. *)
Fixpoint cartesian {A : Type} (groups : list (list A)) : list (list A) :=
  match groups with
  | [] => [[]]
  | g :: rest => x ← g; cons x <$> cartesian rest
  end.

(** A [Realization] of the ground-motion tree: its value is the tuple
    of the models, its weight the integer [1] or a composite weight,
    and [lt_path] holds the tuple [lt_uid]. *)
Module GsimRealization.

Record t : Type := mk {
  value : list Gsim;
  weight : ImtWeight.operand;
  ordinal : nat;
  lt_path : list string;
  samples : nat;
  offset : nat
}.

End GsimRealization.

Module GsimIteration.

(** [weight *= branch.weight]: on the integer [1] it is
    [branch.weight.__rmul__(1)]. *)
Definition times (weight : ImtWeight.operand) (w : ImtWeight.t)
  : option ImtWeight.operand :=
  match weight with
  | ImtWeight.F x => ImtWeight.W <$> ImtWeight.__rmul__ w (ImtWeight.F x)
  | ImtWeight.W a => ImtWeight.W <$> ImtWeight.__mul__ a (ImtWeight.W w)
  end.

(** The body of the loops of [__iter__] and [sample] over the branches
    of one realization. *)
Definition realization_of (i : nat) (branches : list BranchTuple)
  : option GsimRealization.t :=
  weight ← foldl (fun acc branch => acc ← acc; times acc (weight branch))
                 (Some (ImtWeight.F 1)) branches;
  Some (GsimRealization.mk
          (gsim <$> branches) weight i
          ((fun branch => if effective branch then id branch else "@")
             <$> branches)
          1 0).

(** [[b for b in self.branches if b.trt == trt]] for each [trt] of
    [self.values]. *)
Definition groups (self : GsimLogicTree.t) : list (list BranchTuple) :=
  (fun kv => filter (fun b => Some (trt b) = fst kv)
                    (GsimLogicTree.branches self))
    <$> GsimLogicTree.values self.

Definition __iter__ (self : GsimLogicTree.t) : option (list GsimRealization.t) :=
  mapM (fun ib => realization_of (fst ib) (snd ib))
       (imap pair (cartesian (groups self))).

(** [sample(n, seed)]. *)
Definition sample `{G : numpy_random.Generator} (self : GsimLogicTree.t)
    (n : nat) (seed : Z) : M (list GsimRealization.t) :=
  bind (for_each (fun ig => sample (snd ig) n (seed + Z.of_nat (fst ig)))
                 (imap pair (groups self)))
       (fun brlists =>
          lift (mapM (fun i =>
                        branches ← mapM (fun brlist => brlist !! i) brlists;
                        realization_of i branches)
                     (seq 0 n))).

End GsimIteration.

(** No two neighbours of the list are equal. *)
Fixpoint no_repeat {K : Type} (ks : list K) : Prop :=
  match ks with
  | a :: rest => match rest with b :: _ => a ≠ b | [] => True end
                 ∧ no_repeat rest
  | [] => True
  end.

(** What [reduce] never changes in a branch. *)
Definition identity (b : BranchTuple) : string * string * Gsim * ImtWeight.t :=
  (trt b, id b, gsim b, weight b).


Definition operand_weight (o : ImtWeight.operand) : option Qc :=
  match o with
  | ImtWeight.F x => Some x
  | ImtWeight.W a => ImtWeight.dic a !! "weight"
  end.



(** ** Applying the uncertainties of a path to the sources *)

(** Modelled from the spec: the source classes of
    [openquake.hazardlib.source] are not among the sources at hand.
    The specification gives them as a closed enumeration with one
    subsumption rule: an area source is also a point source. *)
Inductive SourceKind : Type :=
| AreaSource
| PointSource
| SimpleFaultSource
| ComplexFaultSource
| CharacteristicFaultSource
| OtherSource.

#[global] Instance SourceKind_eq_dec : EqDecision SourceKind.
Proof. solve_decision. Defined.

#[global] Instance filter_value_eq_dec : EqDecision filter_value.
Proof. solve_decision. Defined.

(** [isinstance(source, cls)] for a source of class [k]. *)
Definition isinstance (k cls : SourceKind) : bool :=
  bool_decide (k = cls)
  || (bool_decide (k = AreaSource) && bool_decide (cls = PointSource)).

(** A [SourceGroup]: its sources and its attribute [changes], which is
    [None] until [apply_uncertainties] sets it. *)
Record SourceGroup (S : Type) : Type := {
  sources : list S;
  changes : option nat
}.
Arguments sources {S} _.
Arguments changes {S} _.

(** The seismic sources and what is done to them outside of the
    module.  A source is an opaque object with the three attributes
    that the filters read.  [apply_uncertainty utype source value] is
    the source after the mutation, [None] where it raises;
    [count_ruptures] and the assignment to [num_ruptures] are the
    methods of the source; [read_source_models fname] stands for
    [[sm] = nrml.read_source_models([fname], converter)] and gives the
    groups of the model, [None] where it raises; [path_join] is
    [os.path.join]. *)
Class Sources : Type := {
  Source : Type;
  source_id : Source → string;
  tectonic_region_type : Source → string;
  source_kind : Source → SourceKind;
  apply_uncertainty : string → Source → string → option Source;
  count_ruptures : Source → nat;
  set_num_ruptures : Source → nat → Source;
  read_source_models : string → option (list (SourceGroup Source));
  path_join : string → string → string
}.

Inductive ApplyError : Type :=
| IndexError
| no_such_branch (branch_id : string)
| cannot_read_source_model (fname : string)
| sources_already_present (extname : string) (common : list string)
| unknown_source_type_filter (value : filter_value)
| unknown_filter (key : string)
| uncertainty_not_applicable (uncertainty_type : string) (value : string).

Module BranchSetMethods.

(** [self[branch_id]]: the first branch with that id. *)
Definition __getitem__ (self : BranchSet) (branch_id : string)
  : result ApplyError Branch :=
  match list_find (fun branch => Branch.branch_id branch = branch_id)
                  (BranchSet.branches self) with
  | Some (_, branch) => Ok branch
  | None => Err (no_such_branch branch_id)
  end.

(** The test of [applyToSourceType] on a source of class [k]: [Ok
    false] where [filter_source] returns [False], [Ok true] where it
    goes on to the next filter. *)
Definition source_type_matches (value : filter_value) (k : SourceKind)
  : result ApplyError bool :=
  if bool_decide (value = FText "area") then
    Ok (isinstance k AreaSource)
  else if bool_decide (value = FText "point") then
    Ok (isinstance k PointSource && negb (isinstance k AreaSource))
  else if bool_decide (value = FText "simpleFault") then
    Ok (isinstance k SimpleFaultSource)
  else if bool_decide (value = FText "complexFault") then
    Ok (isinstance k ComplexFaultSource)
  else if bool_decide (value = FText "characteristicFault") then
    Ok (isinstance k CharacteristicFaultSource)
  else Err (unknown_source_type_filter value).

(** [source.source_id not in value]: membership in the list of ids,
    or the substring test when the value is still a text. *)
Definition id_listed (value : filter_value) (source_id : string) : bool :=
  match value with
  | FList ids => bool_decide (source_id ∈ ids)
  | FText text => str_contains text source_id
  end.

Section filter.
Context `{Src : Sources}.

(** The loop of [filter_source] over [self.filters.items()]. *)
Fixpoint filter_source_loop (filters : list (string * filter_value))
    (source : Source) : result ApplyError bool :=
  match filters with
  | [] => Ok true
  | (key, value) :: rest =>
      if bool_decide (key = "applyToTectonicRegionType") then
        if bool_decide (value ≠ FText (tectonic_region_type source))
        then Ok false else filter_source_loop rest source
      else if bool_decide (key = "applyToSourceType") then
        let* ok := source_type_matches value (source_kind source) in
        if ok then filter_source_loop rest source else Ok false
      else if bool_decide (key = "applyToSources") then
        if negb (id_listed value (source_id source))
        then Ok false else filter_source_loop rest source
      else Err (unknown_filter key)
  end.

Definition filter_source (self : BranchSet) (source : Source)
  : result ApplyError bool :=
  filter_source_loop (BranchSet.filters self) source.

End filter.

End BranchSetMethods.

Module Uncertainties.

Section methods.
Context `{Src : Sources}.

Definition ids_of (src_groups : list (SourceGroup Source)) : list string :=
  flat_map (fun sg => source_id <$> sources sg) src_groups.

(** The [while branchset is not None] loop of [apply_uncertainties]:
    each turn takes one id off the path. *)
Fixpoint walk (dirname : string) (base_ids : list string)
    (branchset : option BranchSet) (path : list string)
    (src_groups : list (SourceGroup Source))
    (branchsets_and_uncertainties : list (BranchSet * string))
  : result ApplyError
      (list (SourceGroup Source) * list (BranchSet * string)) :=
  match branchset with
  | None => Ok (src_groups, branchsets_and_uncertainties)
  | Some bs =>
      match path with
      | [] => Err IndexError
      | brid :: path' =>
          let* branch := BranchSetMethods.__getitem__ bs brid in
          let* step :=
            if bool_decide (BranchSet.uncertainty_type bs = "extendModel") then
              let extname := path_join dirname (Branch.value branch) in
              match read_source_models extname with
              | None => Err (cannot_read_source_model extname)
              | Some ext =>
                  let common := filter (fun i => i ∈ ids_of ext)
                                       (remove_dups base_ids) in
                  if bool_decide (common ≠ [])
                  then Err (sources_already_present extname common)
                  else Ok (src_groups ++ ext, branchsets_and_uncertainties)
              end
            else if bool_decide (BranchSet.uncertainty_type bs ≠ "sourceModel")
            then Ok (src_groups,
                     branchsets_and_uncertainties ++ [(bs, Branch.value branch)])
            else Ok (src_groups, branchsets_and_uncertainties) in
          walk dirname base_ids (Branch.bset branch) path' (fst step) (snd step)
      end
  end.

(** The loop [for bset, value in branchsets_and_uncertainties] on one
    source: the source as mutated, and the number of changes. *)
Fixpoint apply_to_source
    (branchsets_and_uncertainties : list (BranchSet * string))
    (source : Source) (changes : nat) : result ApplyError (Source * nat) :=
  match branchsets_and_uncertainties with
  | [] => Ok (source, changes)
  | (bset, value) :: rest =>
      let* selected := BranchSetMethods.filter_source bset source in
      if selected then
        match apply_uncertainty (BranchSet.uncertainty_type bset) source value with
        | Some source' => apply_to_source rest source' (S changes)
        | None => Err (uncertainty_not_applicable
                         (BranchSet.uncertainty_type bset) value)
        end
      else apply_to_source rest source changes
  end.

(** The body of [for i, sg in enumerate(src_groups)]. *)
Fixpoint apply_to_sources
    (branchsets_and_uncertainties : list (BranchSet * string))
    (srcs : list Source) (total : nat) : result ApplyError (list Source * nat) :=
  match srcs with
  | [] => Ok ([], total)
  | source :: rest =>
      let* sc := apply_to_source branchsets_and_uncertainties source 0 in
      let source' :=
        if bool_decide (snd sc ≠ 0%nat)
        then set_num_ruptures (fst sc) (count_ruptures (fst sc))
        else fst sc in
      let* done := apply_to_sources branchsets_and_uncertainties rest
                                    (total + snd sc) in
      Ok (source' :: fst done, snd done)
  end.

Definition apply_to_group
    (branchsets_and_uncertainties : list (BranchSet * string))
    (sg : SourceGroup Source) : result ApplyError (SourceGroup Source) :=
  let* done := apply_to_sources branchsets_and_uncertainties (sources sg) 0 in
  Ok {| sources := fst done; changes := Some (snd done) |}.

Fixpoint apply_to_groups
    (branchsets_and_uncertainties : list (BranchSet * string))
    (src_groups : list (SourceGroup Source))
  : result ApplyError (list (SourceGroup Source)) :=
  match src_groups with
  | [] => Ok []
  | sg :: rest =>
      let* sg' := apply_to_group branchsets_and_uncertainties sg in
      let* rest' := apply_to_groups branchsets_and_uncertainties rest in
      Ok (sg' :: rest')
  end.

(** [apply_uncertainties(ltpath, fname, converter)]; [dirname] is
    [os.path.dirname(self.filename)]. *)
Definition apply_uncertainties (self : SourceModelLogicTree.t)
    (dirname : string) (ltpath : list string) (fname : string)
  : result ApplyError (list (SourceGroup Source)) :=
  let* src_groups :=
    match read_source_models fname with
    | Some src_groups => Ok src_groups
    | None => Err (cannot_read_source_model fname)
    end in
  let base_ids := ids_of src_groups in
  let* walked := walk dirname base_ids
                      (SourceModelLogicTree.root_branchset self) ltpath
                      src_groups [] in
  if bool_decide (snd walked ≠ [])
  then apply_to_groups (snd walked) (fst walked)
  else Ok (fst walked).

End methods.

End Uncertainties.

(** A property of every branch set of a tree. *)
Fixpoint every_branchset (P : BranchSet → bool) (root : BranchSet) : bool :=
  P root
  && forallb (fun b =>
                match Branch.bset b with
                | Some child => every_branchset P child
                | None => true
                end) (BranchSet.branches root).

(** In every branch set the branch ids are distinct. *)
Definition distinct_ids (bs : BranchSet) : bool :=
  bool_decide (NoDup (Branch.branch_id <$> BranchSet.branches bs)).

(** The branch set does not extend the source model. *)
Definition no_extension (bs : BranchSet) : bool :=
  bool_decide (BranchSet.uncertainty_type bs ≠ "extendModel").

(** What the expression [<(\w+Source)\b] of [SOURCE_TYPE_REGEX]
    guarantees of a match: it ends with [Source]. *)
Definition source_type_matches_end_with_Source (W : World) : Prop :=
  ∀ xml t, t ∈ SOURCE_TYPE_REGEX_findall xml → endswith t "Source" = true.

(** The source types of [s'] are those of [s] or were found by a
    scan. *)
Definition scanned_types `{World} (s s' : SourceModelLogicTree.t) : Prop :=
  ∀ t, t ∈ SourceModelLogicTree.source_types s' →
       t ∈ SourceModelLogicTree.source_types s
       ∨ ∃ xml, t ∈ SOURCE_TYPE_REGEX_findall xml.

(** Sources for the examples: a source is its id, its tectonic region
    type, its class and the log of the uncertainties applied to it;
    every source model holds one group of two area sources. *)
Record example_source : Type := {
  ex_id : string;
  ex_trt : string;
  ex_kind : SourceKind;
  ex_log : list (string * string);
  ex_num_ruptures : nat
}.

Definition example_sources : Sources :=
  {| Source := example_source;
     source_id := ex_id;
     tectonic_region_type := ex_trt;
     source_kind := ex_kind;
     apply_uncertainty := fun utype s value =>
       Some {| ex_id := ex_id s; ex_trt := ex_trt s; ex_kind := ex_kind s;
               ex_log := ex_log s ++ [(utype, value)];
               ex_num_ruptures := ex_num_ruptures s |};
     count_ruptures := fun s => (10 + length (ex_log s))%nat;
     set_num_ruptures := fun s n =>
       {| ex_id := ex_id s; ex_trt := ex_trt s; ex_kind := ex_kind s;
          ex_log := ex_log s; ex_num_ruptures := n |};
     read_source_models := fun _ =>
       Some [{| sources :=
                  [{| ex_id := "src1"; ex_trt := "Active Shallow Crust";
                      ex_kind := AreaSource; ex_log := [];
                      ex_num_ruptures := 10 |};
                   {| ex_id := "src2"; ex_trt := "Stable Shallow Crust";
                      ex_kind := AreaSource; ex_log := [];
                      ex_num_ruptures := 10 |}];
                changes := None |}];
     path_join := fun a b => String.append a (String.append "/" b) |}.

(** A document whose second level applies to the source type that the
    scan of the source models records. *)
Definition typed_document : list sm_level_node :=
  [sm_logicTreeBranchSet
     {| attrib := [("branchSetID", "bs1"); ("uncertaintyType", "sourceModel")];
        nodes := [{| branchID := "A"; uncertaintyWeight := 1;
                     uncertaintyModel := Some "model_A.xml" |}] |};
   sm_logicTreeBranchSet
     {| attrib := [("branchSetID", "bs2");
                   ("uncertaintyType", "maxMagGRRelative");
                   ("applyToSourceType", "areaSource")];
        nodes := [{| branchID := "M1"; uncertaintyWeight := dec 5 10;
                     uncertaintyModel := Some "0.2" |};
                  {| branchID := "M2"; uncertaintyWeight := dec 5 10;
                     uncertaintyModel := Some "-0.2" |}] |}].



(** ** Division of composite weights *)

Module ImtWeightDivision.


End ImtWeightDivision.

(** The weight has the entry ['weight']. *)
Definition has_plain_weight (w : ImtWeight.t) : Prop :=
  is_Some (ImtWeight.dic w !! "weight").

(** The IMTs named by the [uncertaintyWeight] nodes after the first. *)
Definition imts_of (nodes : ImtWeight.weight_nodes) : list string :=
  omap fst (tail nodes).

(** ** Effective realizations *)

(** Python's [sorted(objects, key=key)] on string keys: a stable sort,
    written as an insertion sort from the right. *)
Fixpoint insert_by {A : Type} (key : A → string) (x : A) (l : list A) : list A :=
  match l with
  | [] => [x]
  | y :: l' =>
      if String.leb (key x) (key y) then x :: y :: l'
      else y :: insert_by key x l'
  end.

Definition sorted_by {A : Type} (key : A → string) (l : list A) : list A :=
  foldr (insert_by key) [] l.

(** Modelled from the spec: [groupby] of [openquake.baselib.general] is
    not among the sources.  It groups together the objects with the
    same key: the objects are sorted by key and the runs of equal keys
    become the values of a dictionary, in the order of the keys. *)
Definition groupby_sorted {A : Type} (key : A → string) (objects : list A)
  : list (string * list A) :=
  groupby key (sorted_by key objects).

Module RealizationMethods.

(** [pid]: the path id ['_'.join(self.lt_path)]. *)
Definition pid (self : Realization.t) : string :=
  String.concat "_" (Realization.lt_path self).

End RealizationMethods.

(** The loop of [get_effective_rlzs] over the groups; a group is never
    empty. *)
Fixpoint effective_loop (groups : list (string * list Realization.t))
    (ordinal : nat) : list Realization.t :=
  match groups with
  | [] => []
  | (_, group) :: rest =>
      match group with
      | [] => effective_loop rest ordinal
      | rlz :: _ =>
          if forallb (fun path => bool_decide (path = "@"))
                     (Realization.lt_path rlz)
          then effective_loop rest ordinal
          else Realization.__init__
                 (Realization.value rlz)
                 (fsum (Realization.weight <$> group))
                 (Some ordinal) (Realization.lt_path rlz) (length group)
               :: effective_loop rest (S ordinal)
      end
  end.

Definition get_effective_rlzs (rlzs : list Realization.t) : list Realization.t :=
  effective_loop (groupby_sorted RealizationMethods.pid rlzs) 0.

(** The realization is empty: every item of its path is ['@']. *)
Definition empty_realization (rlz : Realization.t) : Prop :=
  Forall (fun path => path = "@") (Realization.lt_path rlz).


(** ** The taxonomy mapping *)

(** A record of the association table, as [add_defaults] returns it:
    the columns [taxonomy], [conversion] and [weight]. *)
Record association : Type := {
  taxonomy : string;
  conversion : string;
  a_weight : Qc
}.

Inductive TaxonomyError : Type :=
| taxonomies_not_in_file (missing : list string)
| weights_do_not_sum_up (taxo : string).

(** The loop of [taxonomy_mapping] over [enumerate(taxonomies, 1)]. *)
Fixpoint mapping_loop (dic : list (string * list association))
    (taxonomies : list string)
  : result TaxonomyError (list (list (string * Qc))) :=
  match taxonomies with
  | [] => Ok []
  | taxo :: rest =>
      let recs := default [] (odict_get dic taxo) in
      let* _ := raise_if
                  (bool_decide (PRECISION < abs (fsum (a_weight <$> recs) - 1)))
                  (weights_do_not_sum_up taxo) in
      let* lst := mapping_loop dic rest in
      Ok (((fun rec => (conversion rec, a_weight rec)) <$> recs) :: lst)
  end.

(** [taxonomy_mapping(filename, taxonomies)].  Reading the file is not
    part of the module: [array] is [None] when [filename] is [None],
    and otherwise the array that [hdf5.read_csv] and [add_defaults]
    make of the file.  The grouping is that of [group_array], which
    sorts by key and keeps the order of the records within a group. *)
Definition taxonomy_mapping (array : option (list association))
    (taxonomies : list string)
  : result TaxonomyError (list association * list (list (string * Qc))) :=
  match array with
  | None => Ok ([], (fun taxo => [(taxo, 1)]) <$> taxonomies)
  | Some arr =>
      let dic := groupby_sorted taxonomy arr in
      let taxonomies := drop 1 taxonomies in
      let missing := filter (fun taxo => taxo ∉ dic.*1) (remove_dups taxonomies) in
      let* _ := raise_if (bool_decide (missing ≠ []))
                         (taxonomies_not_in_file missing) in
      let* lst := mapping_loop dic taxonomies in
      Ok (arr, [("?", 1)] :: lst)
  end.

(** The records of a taxonomy, in the order of the file. *)
Definition conversions_of (arr : list association) (taxo : string)
  : list (string * Qc) :=
  (fun rec => (conversion rec, a_weight rec))
    <$> filter (fun rec => taxonomy rec = taxo) arr.

(** An association table for two taxonomies. *)
Definition example_associations : list association :=
  [{| taxonomy := "RC"; conversion := "RC-low"; a_weight := dec 3 10 |};
   {| taxonomy := "MS"; conversion := "MS-any"; a_weight := 1 |};
   {| taxonomy := "RC"; conversion := "RC-high"; a_weight := dec 7 10 |}].

(** ** Group ids *)

(** [{trt: i for i, trt in enumerate(trts)}]. *)
Definition trti_of (trts : list string) : gmap string nat :=
  foldl (fun d it => <[snd it := fst it]> d) ∅ (imap pair trts).

Module GroupIds.

Section methods.
Context `{G : numpy_random.Generator}.

(** [len(get_effective_rlzs(self))], which iterates over the tree. *)
Definition num_effective_rlzs (self : SourceModelLogicTree.t) : M nat :=
  bind (SourceModelLogicTree.__iter__ self)
       (fun rlzs => ret (length (get_effective_rlzs rlzs))).

(** [get_trti_eri()]: the function [gid -> divmod(gid, n)]; [divmod]
    raises when [n] is zero. *)
Definition get_trti_eri (self : SourceModelLogicTree.t)
  : M (Z → option (Z * Z)) :=
  bind (num_effective_rlzs self)
       (fun n => ret (fun gid : Z =>
                        if decide (n = 0%nat) then None
                        else Some ((gid `div` Z.of_nat n)%Z,
                                   (gid `mod` Z.of_nat n)%Z))).

(** [get_grp_id(trts)]: the function
    [trt, eri -> trti[trt] * n + int(eri)]. *)
Definition get_grp_id (self : SourceModelLogicTree.t) (trts : list string)
  : M (string → Z → option Z) :=
  bind (num_effective_rlzs self)
       (fun n => ret (fun (trt : string) (eri : Z) =>
                        i ← trti_of trts !! trt;
                        Some (Z.of_nat i * Z.of_nat n + eri)%Z)).

End methods.

End GroupIds.

(** A path that [collect_info] may record: it exists, and it is the
    absolute form of a relative name. *)
Definition recorded_path `{OsPath} (smlt : string) (p : string) : Prop :=
  path_exists p = true
  ∧ ∃ fname, isabs fname = false ∧ p = abspath (dirname smlt) fname.

(** A document whose first branch names two files, one of them
    twice over two branches. *)
Definition two_files_document : list sm_level_node :=
  [sm_logicTreeBranchSet
     {| attrib := [("branchSetID", "bs1"); ("uncertaintyType", "sourceModel")];
        nodes := [{| branchID := "A"; uncertaintyWeight := dec 6 10;
                     uncertaintyModel := Some "model_B.xml model_A.xml" |};
                  {| branchID := "B"; uncertaintyWeight := dec 4 10;
                     uncertaintyModel := Some "model_B.xml" |}] |}].

(** * Properties *)

(** ** Arithmetic of weights *)


Lemma fsum_from (a : Qc) (l : list Qc) : foldl Qcplus a l = a + fsum l.
Proof.
  unfold fsum. revert a. induction l as [|x l IH]; intros a; simpl.
  - ring.
  - rewrite IH, (IH (0 + x)). ring.
Qed.

Lemma fsum_cons (x : Qc) (l : list Qc) : fsum (x :: l) = x + fsum l.
Proof. unfold fsum at 1. simpl. rewrite fsum_from. ring. Qed.

Lemma fsum_app (l1 l2 : list Qc) : fsum (l1 ++ l2) = fsum l1 + fsum l2.
Proof.
  induction l1 as [|x l1 IH]; simpl.
  - unfold fsum at 2. simpl. ring.
  - rewrite !fsum_cons, IH. ring.
Qed.


(** ** Induction on trees *)

Lemma BranchSet_tree_ind (P : BranchSet → Prop) :
  (∀ ut fs brs,
     Forall (fun b => ∀ child, Branch.bset b = Some child → P child) brs →
     P (mkBranchSet ut fs brs)) →
  ∀ root, P root.
Proof.
  intros step.
  fix IH 1. intros [ut fs brs]. apply step.
  induction brs as [|[bsid brid w v [child|]] brs IHbrs]; constructor;
    try assumption.
  - intros c [= <-]. apply IH.
  - intros c [=].
Qed.

(** ** Enumeration *)

Section enumeration.

Lemma _enumerate_paths_nest (root : BranchSet) :
  ∀ prefix_path,
    BranchSet._enumerate_paths root prefix_path
    = map (nest prefix_path) (dfs_paths root).
Proof.
  induction root as [ut fs brs IH] using BranchSet_tree_ind.
  intros prefix_path. simpl.
  induction IH as [|b brs Hb _ IHbrs]; simpl; [reflexivity|].
  rewrite map_app, IHbrs. f_equal.
  destruct (Branch.bset b) as [child|] eqn:E; [|reflexivity].
  rewrite (Hb child eq_refl), map_map. reflexivity.
Qed.

Lemma unnest_nest (p : list Branch) :
  ∀ prefix_path w flat_path,
    BranchSet.unnest (nest prefix_path p) w flat_path
    = BranchSet.unnest prefix_path (w * path_weight p) (flat_path ++ rev p).
Proof.
  induction p as [|b p IH]; intros prefix_path w flat_path; simpl.
  - rewrite Qcmult_1_r, app_nil_r. reflexivity.
  - unfold nest in *. simpl. rewrite IH. simpl.
    rewrite <- app_assoc. f_equal. ring.
Qed.

(** The generator of [enumerate_paths] yields the depth-first paths,
    each with the product of its weights. *)
Lemma enumerate_paths_dfs (root : BranchSet) :
  BranchSet.enumerate_paths root
  = map (fun p => (path_weight p, p)) (dfs_paths root).
Proof.
  unfold BranchSet.enumerate_paths.
  rewrite _enumerate_paths_nest, map_map.
  apply map_ext. intros p.
  rewrite unnest_nest. simpl. rewrite rev_involutive, Qcmult_1_l.
  reflexivity.
Qed.

Lemma dfs_paths_root_to_leaf (root : BranchSet) :
  ∀ p, p ∈ dfs_paths root ↔ root_to_leaf root p.
Proof.
  induction root as [ut fs brs IH] using BranchSet_tree_ind.
  intros p. rewrite list_elem_of_In. simpl. rewrite in_flat_map. split.
  - intros (b & Hin & Hp). apply list_elem_of_In in Hin.
    rewrite Forall_forall in IH. specialize (IH b Hin).
    destruct (Branch.bset b) as [child|] eqn:E.
    + apply in_map_iff in Hp as (q & <- & Hq).
      eapply rtl_step; eauto. apply (IH child eq_refl).
      by apply list_elem_of_In.
    + destruct Hp as [<-|[]]. by apply rtl_leaf.
  - intros Hp. inversion Hp as [r b Hin E|r b child q Hin E Hq]; subst;
      simpl in Hin; exists b; (split; [by apply list_elem_of_In|]);
      rewrite E.
    + by left.
    + apply in_map. apply list_elem_of_In.
      rewrite Forall_forall in IH. by apply (IH b Hin child E).
Qed.

Lemma dfs_paths_head (root : BranchSet) (p : list Branch) :
  p ∈ dfs_paths root → is_Some (head p).
Proof.
  rewrite dfs_paths_root_to_leaf. intros [ ]; simpl; eauto.
Qed.


Lemma mapM_enumerate {A B C : Type} (f : A → C) (F : nat * C → option B)
    (H : nat → A → B) (l : list A) :
  ∀ k, (∀ i x, x ∈ l → F ((k + i)%nat, f x) = Some (H (k + i)%nat x)) →
       mapM F (imap (fun i => pair (k + i)%nat) (map f l))
       = Some (imap (fun i => H (k + i)%nat) l).
Proof.
  induction l as [|x l IH]; intros k HF; simpl; [reflexivity|].
  rewrite (HF 0%nat x) by constructor. simpl.
  rewrite (imap_ext _ (fun i => pair (S k + i)%nat) (map f l)),
          (imap_ext (_ ∘ S) (fun i => H (S k + i)%nat) l).
  - rewrite IH; [by rewrite Nat.add_0_r|]. intros i y Hy.
    replace (S k + i)%nat with (k + S i)%nat by lia.
    apply HF. by constructor.
  - intros i y _. simpl. f_equal. lia.
  - intros i y _. simpl. f_equal. lia.
Qed.

Context `{G : numpy_random.Generator}.

(** With [num_samples = 0], [__iter__] is the enumeration; it leaves
    the generator alone. *)
Lemma iter_enumerates (self : SourceModelLogicTree.t) (root : BranchSet) g :
  SourceModelLogicTree.root_branchset self = Some root →
  SourceModelLogicTree.num_samples self = 0%Z →
  SourceModelLogicTree.__iter__ self g
  = (Some (imap enumerated (dfs_paths root)), g).
Proof.
  intros Hroot Hn. unfold SourceModelLogicTree.__iter__.
  rewrite Hn, Hroot. simpl. unfold bind, lift. simpl.
  rewrite enumerate_paths_dfs. f_equal.
  apply (mapM_enumerate _ _ enumerated _ 0%nat).
  intros i p Hp. simpl. unfold SourceModelLogicTree.realization_of.
  destruct (dfs_paths_head root p Hp) as [b Hb]. rewrite Hb. simpl.
  unfold enumerated. rewrite Hb. reflexivity.
Qed.

End enumeration.




(** ** Sampling *)

Section sampling_facts.
Context `{G : numpy_random.Generator}.

(** [sample] reseeds the generator: whatever state it is entered in, a
    successful call returns the same objects and leaves the same
    state. *)
Lemma sample_reseeds {A : Type} `{Weighted A} (objs : list A) n s g g' out g1 :
  sample objs n s g = (Some out, g1) →
  sample objs n s g' = (Some out, g1).
Proof.
  unfold sample.
  destruct (mapM sampling_weight objs) as [weights|]; [|intros [=]].
  destruct (numpy_random.seed s) as [g0|]; [|intros [=]].
  destruct (numpy_random.choice g0 _ n weights) as [[idxs g2]|]; [|intros [=]].
  done.
Qed.

Lemma sample_deterministic {A : Type} `{Weighted A} (objs : list A) n s g g' :
  fst (sample objs n s g) = fst (sample objs n s g').
Proof.
  unfold sample.
  destruct (mapM sampling_weight objs) as [weights|]; [|done].
  destruct (numpy_random.seed s) as [g0|]; [|done].
  by destruct (numpy_random.choice g0 _ n weights) as [[idxs g2]|].
Qed.

(** The objects come out in the order in which their indices were
    drawn. *)
Lemma sample_order {A : Type} `{Weighted A} (objs : list A) n s g out :
  fst (sample objs n s g) = Some out →
  ∃ weights g0 idxs g1,
    mapM sampling_weight objs = Some weights
    ∧ numpy_random.seed s = Some g0
    ∧ numpy_random.choice g0 (length weights) n weights = Some (idxs, g1)
    ∧ Forall2 (fun idx obj => objs !! idx = Some obj) idxs out.
Proof.
  unfold sample.
  destruct (mapM sampling_weight objs) as [weights|]; [|intros [=]].
  destruct (numpy_random.seed s) as [g0|]; [|intros [=]].
  destruct (numpy_random.choice g0 _ n weights) as [[idxs g1]|] eqn:E;
    [|intros [=]].
  simpl. intros Hout. exists weights, g0, idxs, g1.
  repeat split; try done. by apply mapM_Some.
Qed.

Lemma sample_path_loop_deterministic fuel branchset s acc g g' :
  fst (SourceModelLogicTree.sample_path_loop fuel branchset s acc g)
  = fst (SourceModelLogicTree.sample_path_loop fuel branchset s acc g').
Proof.
  destruct branchset as [bs|], fuel as [|fuel]; simpl; try done.
  unfold bind.
  destruct (sample (BranchSet.branches bs) 1 s g) as [[out|] g1] eqn:E.
  - by rewrite (sample_reseeds _ _ _ _ g' _ _ E).
  - pose proof (sample_deterministic (BranchSet.branches bs) 1 s g g') as D.
    rewrite E in D.
    by destruct (sample (BranchSet.branches bs) 1 s g') as [[out|] g1'].
Qed.

(** [sample_path] does not depend on the state of the generator. *)
Lemma sample_path_deterministic (self : SourceModelLogicTree.t) s g g' :
  fst (SourceModelLogicTree.sample_path self s g)
  = fst (SourceModelLogicTree.sample_path self s g').
Proof. apply sample_path_loop_deterministic. Qed.



Lemma height_child ut fs brs b child :
  b ∈ brs → Branch.bset b = Some child →
  (S (BranchSet.height child) <= BranchSet.height (mkBranchSet ut fs brs))%nat.
Proof.
  intros Hin E. simpl. apply le_n_S.
  induction Hin as [b brs|b b' brs Hin IH]; simpl.
  - rewrite E. apply Nat.le_max_l.
  - specialize (IH E). destruct (Branch.bset b'); [|exact IH].
    etrans; [exact IH|apply Nat.le_max_r].
Qed.



Lemma sample_elements {A : Type} `{Weighted A} (objs : list A) n s g out g' :
  sample objs n s g = (Some out, g') → Forall (fun x => x ∈ objs) out.
Proof.
  unfold sample.
  destruct (mapM sampling_weight objs) as [weights|]; [|intros [=]].
  destruct (numpy_random.seed s) as [g0|]; [|intros [=]].
  destruct (numpy_random.choice g0 _ n weights) as [[idxs g1]|]; [|intros [=]].
  intros [= Hout <-]. apply mapM_Some in Hout.
  induction Hout as [|idx x idxs out Hx _ IH]; constructor; [|done].
  by eapply list_elem_of_lookup_2.
Qed.

(** The fuel that [sample_path] provides is never used up: more fuel
    gives the same walk. *)
Lemma sample_path_loop_fuel (root : BranchSet) :
  ∀ fuel s acc g,
    (BranchSet.height root <= fuel)%nat →
    SourceModelLogicTree.sample_path_loop fuel (Some root) s acc g
    = SourceModelLogicTree.sample_path_loop (BranchSet.height root)
        (Some root) s acc g.
Proof.
  induction root as [ut fs brs IH] using BranchSet_tree_ind.
  intros fuel s acc g Hfuel.
  destruct fuel as [|fuel]; [simpl in Hfuel; lia|].
  remember (BranchSet.height (mkBranchSet ut fs brs)) as hroot eqn:Hh.
  destruct hroot as [|h]; [discriminate Hh|].
  simpl SourceModelLogicTree.sample_path_loop. unfold bind.
  destruct (sample brs 1 s g) as [[out|] g1] eqn:E; [|done].
  apply sample_elements in E.
  destruct out as [|b [|? ?]]; try done.
  apply Forall_inv in E.
  destruct (Branch.bset b) as [child|] eqn:Eb.
  - pose proof (height_child ut fs brs b child E Eb) as Hc.
    rewrite <- Hh in Hc.
    rewrite Forall_forall in IH.
    rewrite (IH b E child Eb fuel) by lia.
    rewrite (IH b E child Eb h) by lia. done.
  - by destruct fuel, h.
Qed.


End sampling_facts.

Lemma constant_generator_contract : numpy_contract constant_generator.
Proof.
  split.
  - intros s Hs. simpl. unfold valid_seed.
    rewrite bool_decide_eq_true_2 by done. eauto.
  - intros g p size Hne Hp. simpl. unfold valid_p.
    rewrite !bool_decide_eq_true_2 by done. simpl.
    eexists _, _. split; [reflexivity|].
    split; [apply length_replicate|].
    apply Forall_replicate. destruct p; [done|simpl; lia].
Qed.

Lemma lcg_draws_spec (a : nat) :
  (0 < a)%nat →
  ∀ size g, length (fst (lcg_draws a size g)) = size
            ∧ Forall (fun i => (i < a)%nat) (fst (lcg_draws a size g)).
Proof.
  intros Ha. induction size as [|size IH]; intros g; simpl; [by split|].
  specialize (IH ((1103515245 * g + 12345) `mod` 2 ^ 31)%Z).
  destruct (lcg_draws a size _) as [idxs g']. simpl in *.
  destruct IH as [Hlen Hall]. split; [by rewrite Hlen|].
  constructor; [|done].
  pose proof (Z.mod_pos_bound g (Z.of_nat a)). lia.
Qed.

Lemma lcg_generator_contract : numpy_contract lcg_generator.
Proof.
  split.
  - intros s Hs. simpl. unfold valid_seed.
    rewrite bool_decide_eq_true_2 by done. eauto.
  - intros g p size Hne Hp. simpl. unfold valid_p.
    rewrite !bool_decide_eq_true_2 by done. simpl.
    assert (Ha : (0 < length p)%nat) by (destruct p; [done|simpl; lia]).
    destruct (lcg_draws_spec (length p) Ha size g) as [Hlen Hall].
    destruct (lcg_draws (length p) size g) as [idxs g'] eqn:E.
    exists idxs, g'. by repeat split.
Qed.

Section iteration_facts.
Context `{G : numpy_random.Generator}.



End iteration_facts.



(** C9.  Sampling is a function of the seed: neither [sample_path] nor
    [sample] depends on the state in which the generator is found, and
    [sample] returns the objects in the order in which their indices
    were drawn.  Two consecutive seeds may give different paths (they
    do under one generator) and need not (they do not under
    another). *)
Theorem sampling_deterministic :
  (∀ (G : numpy_random.Generator) (self : SourceModelLogicTree.t) s g g',
     fst (SourceModelLogicTree.sample_path self s g)
     = fst (SourceModelLogicTree.sample_path self s g'))
  ∧ (∀ (G : numpy_random.Generator) (A : Type) (W : Weighted A)
       (objs : list A) n s g g',
       fst (sample objs n s g) = fst (sample objs n s g'))
  ∧ (∀ (G : numpy_random.Generator) (A : Type) (W : Weighted A)
       (objs : list A) n s g out,
       fst (sample objs n s g) = Some out →
       ∃ weights g0 idxs g1,
         mapM sampling_weight objs = Some weights
         ∧ numpy_random.seed s = Some g0
         ∧ numpy_random.choice g0 (length weights) n weights = Some (idxs, g1)
         ∧ Forall2 (fun idx obj => objs !! idx = Some obj) idxs out)
  ∧ (∃ (G : numpy_random.Generator) self s g,
       numpy_contract G
       ∧ fst (SourceModelLogicTree.sample_path self s g)
         ≠ fst (SourceModelLogicTree.sample_path self (s + 1) g))
  ∧ (∃ (G : numpy_random.Generator) self s g,
       numpy_contract G
       ∧ is_Some (fst (SourceModelLogicTree.sample_path self s g))
       ∧ fst (SourceModelLogicTree.sample_path self s g)
         = fst (SourceModelLogicTree.sample_path self (s + 1) g)).
Proof.
  split; [|split; [|split; [|split]]].
  - intros G. apply sample_path_deterministic.
  - intros G A W. apply sample_deterministic.
  - intros G A W. apply sample_order.
  - exists lcg_generator, (scenario_A 42 0), 42%Z, 0%Z.
    split; [exact lcg_generator_contract|].
    intros Heq. vm_compute in Heq. discriminate Heq.
  - exists constant_generator, (scenario_A 42 0), 42%Z, 0%Z.
    split; [exact constant_generator_contract|].
    split; [vm_compute; eauto|vm_compute; reflexivity].
Qed.

Lemma sampling_deterministic_witness :
  fst (@sample lcg_generator _ Branch_weighted
         (BranchSet.branches scenario_A_root) 3%nat 42%Z 0%Z)
  = Some [mkBranch "bs1" "A" (dec 6 10) "model_A.xml" (Some scenario_A_level2);
          mkBranch "bs1" "B" (dec 4 10) "model_B.xml" (Some scenario_A_level2);
          mkBranch "bs1" "A" (dec 6 10) "model_A.xml" (Some scenario_A_level2)]
  ∧ ∃ weights g0 idxs g1,
      mapM sampling_weight (BranchSet.branches scenario_A_root) = Some weights
      ∧ @numpy_random.seed lcg_generator 42%Z = Some g0
      ∧ @numpy_random.choice lcg_generator g0 (length weights) 3%nat weights
        = Some (idxs, g1)
      ∧ Forall2 (fun idx obj =>
                   BranchSet.branches scenario_A_root !! idx = Some obj) idxs
          [mkBranch "bs1" "A" (dec 6 10) "model_A.xml" (Some scenario_A_level2);
           mkBranch "bs1" "B" (dec 4 10) "model_B.xml" (Some scenario_A_level2);
           mkBranch "bs1" "A" (dec 6 10) "model_A.xml" (Some scenario_A_level2)].
Proof.
  assert (H : fst (@sample lcg_generator _ Branch_weighted
                     (BranchSet.branches scenario_A_root) 3%nat 42%Z 0%Z)
              = Some [mkBranch "bs1" "A" (dec 6 10) "model_A.xml"
                               (Some scenario_A_level2);
                      mkBranch "bs1" "B" (dec 4 10) "model_B.xml"
                               (Some scenario_A_level2);
                      mkBranch "bs1" "A" (dec 6 10) "model_A.xml"
                               (Some scenario_A_level2)])
    by (vm_compute; reflexivity).
  split; [exact H|].
  exact (proj1 (proj2 (proj2 sampling_deterministic)) lcg_generator Branch
           Branch_weighted (BranchSet.branches scenario_A_root) 3%nat 42%Z 0%Z
           _ H).
Defined.

(** ** Composite weights *)

Lemma dict_comp_lookup {A B : Type} (f : string → A → option B)
    (m : gmap string A) (z : gmap string B) :
  ImtWeight.dict_comp f m = Some z → ∀ k, z !! k = m !! k ≫= f k.
Proof.
  unfold ImtWeight.dict_comp. case_decide; [|done].
  intros [= <-] k. apply map_lookup_imap.
Qed.

Lemma dict_comp_dom {A B : Type} (f : string → A → option B)
    (m : gmap string A) (z : gmap string B) :
  ImtWeight.dict_comp f m = Some z → dom z = dom m.
Proof.
  unfold ImtWeight.dict_comp. case_decide as HF; [|done].
  intros [= <-]. apply dom_imap_L. intros k. rewrite elem_of_dom. split.
  - intros [a Ha]. exists a. split; [done|]. by apply (HF k a).
  - intros (a & Ha & _). by exists a.
Qed.

Lemma dict_comp_is_Some {A B : Type} (f : string → A → option B)
    (m : gmap string A) :
  (∀ k a, m !! k = Some a → is_Some (f k a)) →
  is_Some (ImtWeight.dict_comp f m).
Proof.
  intros HF. unfold ImtWeight.dict_comp.
  rewrite decide_True by exact HF. eauto.
Qed.

Lemma dict_comp_ext {A B : Type} (f f' : string → A → option B)
    (m : gmap string A) :
  (∀ k a, f k a = f' k a) →
  ImtWeight.dict_comp f m = ImtWeight.dict_comp f' m.
Proof.
  intros Hext. unfold ImtWeight.dict_comp.
  assert (Hiff : map_Forall (fun k a => is_Some (f k a)) m
                 ↔ map_Forall (fun k a => is_Some (f' k a)) m).
  { split; intros HF k a Hk; specialize (HF k a Hk); simpl in *;
      [by rewrite <- Hext|by rewrite Hext]. }
  repeat case_decide; try tauto.
  f_equal. apply map_imap_ext. intros k.
  destruct (m !! k); simpl; [|done]. by rewrite Hext.
Qed.

Lemma getitem_fallback (y : ImtWeight.t) (k : string) :
  ImtWeight.dic y !! k = None →
  ImtWeight.__getitem__ y k = ImtWeight.dic y !! "weight".
Proof. unfold ImtWeight.__getitem__. by intros ->. Qed.

Lemma getitem_present (y : ImtWeight.t) (k : string) (v : Qc) :
  ImtWeight.dic y !! k = Some v → ImtWeight.__getitem__ y k = Some v.
Proof. unfold ImtWeight.__getitem__. by intros ->. Qed.

Lemma getitem_is_Some (y : ImtWeight.t) (k : string) :
  is_Some (ImtWeight.dic y !! "weight") →
  is_Some (ImtWeight.__getitem__ y k).
Proof. unfold ImtWeight.__getitem__. destruct (_ !! k); eauto. Qed.

Lemma add_spec (x y z : ImtWeight.t) :
  ImtWeight.__add__ x (ImtWeight.W y) = Some z →
  dom (ImtWeight.dic z) = dom (ImtWeight.dic x)
  ∧ ∀ k v, ImtWeight.dic x !! k = Some v →
           ∃ b, ImtWeight.__getitem__ y k = Some b
                ∧ ImtWeight.dic z !! k = Some (v + b).
Proof.
  simpl. intros Hz. apply fmap_Some in Hz as (d & Hd & ->). simpl. split.
  - by eapply dict_comp_dom.
  - intros k v Hk. pose proof (dict_comp_dom _ _ _ Hd) as Hdom.
    rewrite (dict_comp_lookup _ _ _ Hd k), Hk. simpl.
    assert (Hin : is_Some (d !! k)).
    { apply elem_of_dom. rewrite Hdom. apply elem_of_dom. eauto. }
    rewrite (dict_comp_lookup _ _ _ Hd k), Hk in Hin. simpl in Hin.
    destruct (ImtWeight.__getitem__ y k) as [b|]; simpl in *;
      [eauto|by destruct Hin].
Qed.

Lemma add_is_Some (x y : ImtWeight.t) :
  is_Some (ImtWeight.dic y !! "weight") →
  is_Some (ImtWeight.__add__ x (ImtWeight.W y)).
Proof.
  intros Hw. simpl. apply fmap_is_Some, dict_comp_is_Some.
  intros k a _. destruct (getitem_is_Some y k Hw) as [b ->]. simpl. eauto.
Qed.

Lemma mul_spec (x y z : ImtWeight.t) :
  ImtWeight.__mul__ x (ImtWeight.W y) = Some z →
  dom (ImtWeight.dic z) = dom (ImtWeight.dic x) ∪ dom (ImtWeight.dic y)
  ∧ ∀ k, k ∈ dom (ImtWeight.dic z) →
         ∃ a b, ImtWeight.__getitem__ x k = Some a
                ∧ ImtWeight.__getitem__ y k = Some b
                ∧ ImtWeight.dic z !! k = Some (a * b).
Proof.
  simpl. intros Hz. apply fmap_Some in Hz as (d & Hd & ->). simpl.
  pose proof (dict_comp_dom _ _ _ Hd) as Hdom.
  rewrite dom_gset_to_gmap in Hdom. split; [done|].
  intros k Hk. pose proof Hk as Hk'. apply elem_of_dom in Hk' as [c Hc].
  rewrite Hdom in Hk.
  pose proof (dict_comp_lookup _ _ _ Hd k) as Hl.
  rewrite Hc, lookup_gset_to_gmap, option_guard_True in Hl by done.
  simpl in Hl. symmetry in Hl.
  apply bind_Some in Hl as (a & Ha & Hl).
  apply bind_Some in Hl as (b & Hb & [= <-]).
  exists a, b. by rewrite Hc.
Qed.

Lemma mul_comm (x y : ImtWeight.t) :
  ImtWeight.__mul__ x (ImtWeight.W y) = ImtWeight.__mul__ y (ImtWeight.W x).
Proof.
  simpl. rewrite (union_comm_L (dom (ImtWeight.dic x))). f_equal.
  apply dict_comp_ext. intros k _.
  destruct (ImtWeight.__getitem__ x k), (ImtWeight.__getitem__ y k);
    simpl; try done.
  by rewrite Qcmult_comm.
Qed.

(** C10.  The sum of two composite weights has the keys of the left
    operand, each entry being the left entry plus the right operand's
    entry for that key, which falls back to the right operand's
    ['weight'] entry when the key is missing there; with a ['weight']
    entry on the right the sum is defined.  The product has the keys of
    both operands and does not depend on their order.  Addition does
    depend on the order: [plain_half + half_with_PGA] and
    [half_with_PGA + plain_half] differ. *)
Theorem add_keeps_left_keys :
  (∀ x y z : ImtWeight.t,
     ImtWeight.__add__ x (ImtWeight.W y) = Some z →
     dom (ImtWeight.dic z) = dom (ImtWeight.dic x)
     ∧ ∀ k v, ImtWeight.dic x !! k = Some v →
              ∃ b, ImtWeight.__getitem__ y k = Some b
                   ∧ ImtWeight.dic z !! k = Some (v + b))
  ∧ (∀ (y : ImtWeight.t) (k : string),
       ImtWeight.dic y !! k = None →
       ImtWeight.__getitem__ y k = ImtWeight.dic y !! "weight")
  ∧ (∀ x y : ImtWeight.t,
       is_Some (ImtWeight.dic y !! "weight") →
       is_Some (ImtWeight.__add__ x (ImtWeight.W y)))
  ∧ (∃ x y : ImtWeight.t,
       is_Some (ImtWeight.__add__ x (ImtWeight.W y))
       ∧ is_Some (ImtWeight.__add__ y (ImtWeight.W x))
       ∧ ImtWeight.__add__ x (ImtWeight.W y)
         ≠ ImtWeight.__add__ y (ImtWeight.W x))
  ∧ (∀ x y z : ImtWeight.t,
       ImtWeight.__mul__ x (ImtWeight.W y) = Some z →
       dom (ImtWeight.dic z) = dom (ImtWeight.dic x) ∪ dom (ImtWeight.dic y)
       ∧ ∀ k, k ∈ dom (ImtWeight.dic z) →
              ∃ a b, ImtWeight.__getitem__ x k = Some a
                     ∧ ImtWeight.__getitem__ y k = Some b
                     ∧ ImtWeight.dic z !! k = Some (a * b))
  ∧ (∀ x y : ImtWeight.t,
       ImtWeight.__mul__ x (ImtWeight.W y)
       = ImtWeight.__mul__ y (ImtWeight.W x)).
Proof.
  split; [exact add_spec|].
  split; [exact getitem_fallback|].
  split; [exact add_is_Some|].
  split; [|split; [exact mul_spec|exact mul_comm]].
  exists plain_half, half_with_PGA.
  split; [apply add_is_Some; vm_compute; eauto|].
  split; [apply add_is_Some; vm_compute; eauto|].
  intros Heq.
  apply (f_equal (fun o => o ≫= fun z => ImtWeight.dic z !! "PGA")) in Heq.
  vm_compute in Heq. discriminate Heq.
Qed.

Lemma add_keeps_left_keys_witness :
  ∃ z : ImtWeight.t,
    ImtWeight.__add__ plain_half (ImtWeight.W half_with_PGA) = Some z
    ∧ dom (ImtWeight.dic z) = dom (ImtWeight.dic plain_half)
    ∧ ∀ k v, ImtWeight.dic plain_half !! k = Some v →
             ∃ b, ImtWeight.__getitem__ half_with_PGA k = Some b
                  ∧ ImtWeight.dic z !! k = Some (v + b).
Proof.
  destruct (ImtWeight.__add__ plain_half (ImtWeight.W half_with_PGA))
    as [z|] eqn:E.
  - exists z. split; [reflexivity|].
    exact (proj1 add_keeps_left_keys plain_half half_with_PGA z E).
  - vm_compute in E. discriminate E.
Defined.


(** ** Construction of the GSIM tree *)

Lemma rbind_Ok {E A B : Type} (m : result E A) (f : A → result E B) (b : B) :
  rbind m f = Ok b → ∃ a, m = Ok a ∧ f a = Ok b.
Proof. destruct m; simpl; [eauto|discriminate]. Qed.

Lemma raise_if_Ok {E : Type} (cond : bool) (e : E) (u : unit) :
  raise_if cond e = Ok u → cond = false.
Proof. by destruct cond. Qed.

Ltac inv_bind H x Hx :=
  apply rbind_Ok in H as (x & Hx & H).

Section construction_facts.
Context `{R : Registry}.





End construction_facts.




(** ** Runs of [groupby] *)

Lemma filter_none {A : Type} (P : A → Prop) `{!∀ x, Decision (P x)}
    (l : list A) :
  (∀ x, x ∈ l → ¬ P x) → filter P l = [].
Proof.
  induction l as [|x l IH]; intros Hl; [done|].
  rewrite filter_cons_False by (apply Hl; by left).
  apply IH. intros y Hy. apply Hl. by right.
Qed.

Lemma elem_of_fst {K V : Type} (l : list (K * V)) (k : K) (v : V) :
  (k, v) ∈ l → k ∈ l.*1.
Proof. intros Hin. apply list_elem_of_fmap. by exists (k, v). Qed.

Section groupby_facts.
Context {A K : Type} `{EqDecision K} (key : A → K).

Lemma groupby_nil (l : list A) : groupby key l = [] → l = [].
Proof.
  destruct l as [|x l]; [done|]. csimpl.
  destruct (groupby key l) as [|[k g] rest]; [done|].
  by case_decide.
Qed.

Lemma groupby_first (l : list A) k g rest :
  groupby key l = (k, g) :: rest → ∃ y l', l = y :: l' ∧ key y = k.
Proof.
  destruct l as [|x l]; [done|]. csimpl.
  destruct (groupby key l) as [|[k0 g0] r].
  - intros [= <- <- <-]. eauto.
  - case_decide; intros [= <- <- <-]; eauto.
Qed.

Lemma groupby_keys (l : list A) (k : K) :
  k ∈ (groupby key l).*1 ↔ k ∈ key <$> l.
Proof.
  induction l as [|x l IH]; csimpl; [done|].
  destruct (groupby key l) as [|[k0 g0] r] eqn:E.
  - apply groupby_nil in E as ->. done.
  - case_decide as Hk; csimpl in *; rewrite !elem_of_cons;
      rewrite !elem_of_cons in IH; [rewrite Hk|]; tauto.
Qed.

Lemma groupby_keys_remove_dups (l : list A) :
  NoDup (groupby key l).*1 →
  (groupby key l).*1 = remove_dups (key <$> l).
Proof.
  induction l as [|x l IH]; csimpl; [done|].
  pose proof (groupby_keys l) as Hkeys.
  destruct (groupby key l) as [|[k0 g0] r] eqn:E.
  - apply groupby_nil in E as ->. done.
  - case_decide as Hk; csimpl in *.
    + intros Hnd.
      destruct (decide_rel elem_of (key x) (key <$> l)) as [_|Hnot];
        [by apply IH|].
      exfalso. apply Hnot, Hkeys. rewrite Hk. by left.
    + intros Hnd. apply NoDup_cons in Hnd as [Hnot Hnd].
      destruct (decide_rel elem_of (key x) (key <$> l)) as [Hin|_];
        [|by rewrite IH].
      exfalso. by apply Hnot, Hkeys.
Qed.

Lemma groupby_filter (l : list A) :
  NoDup (groupby key l).*1 →
  ∀ k g, (k, g) ∈ groupby key l → filter (fun x => key x = k) l = g.
Proof.
  induction l as [|x l IH]; csimpl; [intros _ k g Hin; by apply elem_of_nil in Hin|].
  pose proof (groupby_keys l) as Hkeys.
  destruct (groupby key l) as [|[k0 g0] r] eqn:E.
  - apply groupby_nil in E as ->. intros _ k g Hin.
    apply list_elem_of_singleton in Hin as [= -> ->].
    by rewrite filter_cons_True.
  - case_decide as Hk; csimpl in *; intros Hnd k g Hin.
    + apply elem_of_cons in Hin as [[= -> ->]|Hin].
      * rewrite filter_cons_True by done. f_equal.
        apply IH; [done|]. by left.
      * apply NoDup_cons in Hnd as [Hnot Hnd'].
        assert (k ≠ k0).
        { intros ->. apply Hnot. by apply (elem_of_fst r k0 g). }
        rewrite filter_cons_False by congruence.
        apply IH; [by constructor|]. by right.
    + apply NoDup_cons in Hnd as [Hnot Hnd].
      apply elem_of_cons in Hin as [[= -> ->]|Hin].
      * rewrite filter_cons_True by done. f_equal.
        apply filter_none. intros y Hy Hyk.
        apply Hnot, Hkeys. rewrite <- Hyk. by apply list_elem_of_fmap_2.
      * assert (k ≠ key x).
        { intros ->. apply Hnot.
          by apply (elem_of_fst ((k0, g0) :: r) (key x) g). }
        rewrite filter_cons_False by congruence.
        by apply IH.
Qed.

Lemma groupby_concat (l : list A) : concat (groupby key l).*2 = l.
Proof.
  induction l as [|x l IH]; csimpl; [done|].
  destruct (groupby key l) as [|[k0 g0] r] eqn:E.
  - apply groupby_nil in E as ->. done.
  - case_decide; csimpl in *; by rewrite IH.
Qed.

End groupby_facts.

(** ** Counting the paths of a GSIM tree *)

Lemma foldl_put_lookup (cs : list (string * nat)) (k : string) :
  ∀ num, k ∉ cs.*1 → foldl put num cs !! k = num !! k.
Proof.
  induction cs as [|[k' c] cs IH]; intros num Hk; csimpl in *; [done|].
  apply not_elem_of_cons in Hk as [Hne Hk].
  rewrite IH by done. unfold put. simpl. by rewrite lookup_insert_ne.
Qed.

Lemma foldr_acc_comm {B : Type} (f : nat → B → B) (c : nat) (b : B)
    (l : list nat) :
  (∀ a a' y, f a (f a' y) = f a' (f a y)) →
  foldr f (f c b) l = f c (foldr f b l).
Proof.
  intros Hcomm. induction l as [|x l IH]; simpl; [done|].
  by rewrite IH, Hcomm.
Qed.

(** Folding over the dictionary built from runs with distinct keys is
    folding over the runs. *)
Lemma map_fold_puts {B : Type} (f : nat → B → B) (b : B)
    (cs : list (string * nat)) :
  (∀ a a' y, f a (f a' y) = f a' (f a y)) →
  NoDup cs.*1 →
  map_fold (fun _ => f) b (foldl put ∅ cs) = foldr f b cs.*2.
Proof.
  intros Hcomm. induction cs as [|[k c] cs IH] using rev_ind; intros Hnd.
  - simpl. apply map_fold_empty.
  - rewrite fmap_app in Hnd. apply NoDup_app in Hnd as (Hnd & Hk & _).
    rewrite foldl_snoc, fmap_app, foldr_app. csimpl. unfold put at 1. simpl.
    rewrite map_fold_insert_L.
    + rewrite IH by done. symmetry. by apply foldr_acc_comm.
    + intros. apply Hcomm.
    + rewrite foldl_put_lookup; [done|].
      intros Hin. apply (Hk k Hin). by left.
Qed.

Lemma sum_zero (cs : list nat) :
  foldr (fun c acc => (acc + c)%nat) 0%nat cs = 0%nat ↔ Forall (fun c => c = 0%nat) cs.
Proof.
  induction cs as [|c cs IH]; simpl; [by split|].
  rewrite Forall_cons, <- IH. lia.
Qed.

Lemma foldr_ext_in {A B : Type} (f g : A → B → B) (b : B) (l : list A) :
  (∀ x, x ∈ l → ∀ a, f x a = g x a) → foldr f b l = foldr g b l.
Proof.
  induction l as [|x l IH]; intros Hfg; simpl; [done|].
  rewrite IH by (intros y Hy; apply Hfg; by right).
  apply Hfg. by left.
Qed.

Lemma filter_effective_nil (g : list BranchTuple) :
  length (filter (fun br => effective br = true) g) = 0%nat
  ↔ Forall (fun br => effective br = false) g.
Proof.
  induction g as [|br g IH]; [by split|].
  rewrite Forall_cons, <- IH, filter_cons.
  destruct (effective br); simpl; split; try lia; try done.
Qed.

Lemma get_num_branches_runs (self : GsimLogicTree.t) :
  GsimLogicTree.get_num_branches self
  = foldl put ∅ (run_count <$> groupby trt (GsimLogicTree.branches self)).
Proof. unfold GsimLogicTree.get_num_branches. by rewrite foldl_fmap. Qed.

Lemma run_count_effective (self : GsimLogicTree.t) g :
  one_run_per_trt self →
  g ∈ groupby trt (GsimLogicTree.branches self) →
  effective_count self (fst g) = snd (run_count g).
Proof.
  intros Hnd Hg. destruct g as [t g]. simpl. unfold effective_count.
  rewrite <- (groupby_filter trt _ Hnd t g Hg), list_filter_filter.
  f_equal. apply list_filter_iff. tauto.
Qed.

Lemma get_num_paths_spec (self : GsimLogicTree.t) :
  one_run_per_trt self →
  GsimLogicTree.get_num_paths self = product_of_positive_counts self.
Proof.
  intros Hnd. unfold GsimLogicTree.get_num_paths, product_of_positive_counts.
  rewrite get_num_branches_runs.
  set (groups := groupby trt (GsimLogicTree.branches self)).
  assert (Hkeys : (run_count <$> groups).*1 = groups.*1).
  { rewrite <- list_fmap_compose. by apply list_fmap_ext. }
  assert (Hnd' : NoDup (run_count <$> groups).*1) by by rewrite Hkeys.
  rewrite (map_fold_puts (fun val acc => (acc + val)%nat))
    by (done || intros; lia).
  rewrite (map_fold_puts (fun val num => if bool_decide (val ≠ 0%nat)
                                         then (num * val)%nat else num))
    by (done || intros; repeat case_bool_decide; lia).
  rewrite (bool_decide_ext _ (no_effective_branch self)).
  2:{ rewrite sum_zero. unfold no_effective_branch.
      rewrite <- (groupby_concat trt (GsimLogicTree.branches self)).
      fold groups. rewrite Forall_concat, <- list_fmap_compose.
      rewrite !Forall_fmap. apply Forall_iff. intros [t g]. simpl.
      apply filter_effective_nil. }
  case_bool_decide; [done|].
  unfold region_types.
  rewrite <- (groupby_keys_remove_dups trt _ Hnd). fold groups.
  rewrite <- list_fmap_compose, !foldr_fmap.
  apply foldr_ext_in. intros g Hg acc. simpl.
  rewrite (run_count_effective self g Hnd Hg). simpl.
  case_bool_decide; case_decide; try done; lia.
Qed.

(** ** The branches of a constructed GSIM tree are sorted *)

Lemma str_le_trans (a b c : string) : str_le a b → str_le b c → str_le a c.
Proof.
  unfold str_le. intros Hab Hbc.
  destruct (String.compare a b) eqn:Eab; [| |done].
  - apply OrderedTypeEx.String_as_OT.cmp_eq in Eab. by subst.
  - destruct (String.compare b c) eqn:Ebc; [| |done].
    + apply OrderedTypeEx.String_as_OT.cmp_eq in Ebc. subst. by rewrite Eab.
    + apply OrderedTypeEx.String_as_OT.cmp_lt in Eab, Ebc.
      pose proof (OrderedTypeEx.String_as_OT.lt_trans _ _ _ Eab Ebc) as Hac.
      apply OrderedTypeEx.String_as_OT.cmp_lt in Hac.
      unfold OrderedTypeEx.String_as_OT.cmp in Hac. by rewrite Hac.
Qed.

Lemma str_le_antisym (a b : string) : str_le a b → str_le b a → a = b.
Proof.
  unfold str_le. intros Hab Hba.
  rewrite String.compare_antisym in Hba.
  destruct (String.compare a b) eqn:Eab; try done.
  by apply OrderedTypeEx.String_as_OT.cmp_eq.
Qed.

Lemma leb_str_le (a b : string) : String.leb a b ↔ str_le a b.
Proof.
  unfold String.leb, str_le. destruct (String.compare a b); simpl; split; done.
Qed.

Lemma branch_le_trt (a b : BranchTuple) :
  branch_le a b → str_le (trt a) (trt b).
Proof.
  unfold branch_le, str_le. by destruct (String.compare (trt a) (trt b)).
Qed.

#[local] Instance branch_le_total :
  Total (fun a b : BranchTuple => Is_true (branch_le a b)).
Proof.
  intros a b. unfold branch_le.
  destruct (String.compare (trt a) (trt b)) eqn:Eab.
  - apply OrderedTypeEx.String_as_OT.cmp_eq in Eab. rewrite Eab.
    assert (Hrefl : String.compare (trt b) (trt b) = Eq)
      by by apply OrderedTypeEx.String_as_OT.cmp_eq.
    rewrite Hrefl.
    destruct (String.leb_total (id a) (id b)) as [->| ->]; simpl; auto.
  - by left.
  - right. by rewrite String.compare_antisym, Eab.
Qed.

#[local] Instance branch_le_transitive :
  Transitive (fun a b : BranchTuple => Is_true (branch_le a b)).
Proof.
  intros a b c. unfold branch_le.
  destruct (String.compare (trt a) (trt b)) eqn:Eab; [| |done].
  - apply OrderedTypeEx.String_as_OT.cmp_eq in Eab. rewrite Eab.
    destruct (String.compare (trt b) (trt c)); try done.
    rewrite !leb_str_le. apply str_le_trans.
  - intros _ Hbc.
    assert (Hle : str_le (trt b) (trt c)) by by apply branch_le_trt.
    assert (Hac : str_le (trt a) (trt c)).
    { apply (str_le_trans _ (trt b)); [|done]. unfold str_le. by rewrite Eab. }
    unfold str_le in Hac.
    destruct (String.compare (trt a) (trt c)) eqn:Eac; try done.
    apply OrderedTypeEx.String_as_OT.cmp_eq in Eac.
    assert (Hab : trt a = trt b).
    { apply str_le_antisym; [unfold str_le; by rewrite Eab|by rewrite Eac]. }
    apply OrderedTypeEx.String_as_OT.cmp_eq in Hab.
    unfold OrderedTypeEx.String_as_OT.cmp in Hab. congruence.
Qed.

(** In a list sorted by [(trt, id)] each tectonic region type makes one
    run. *)
Lemma sorted_one_run (l : list BranchTuple) :
  StronglySorted (fun a b => Is_true (branch_le a b)) l →
  NoDup (groupby trt l).*1.
Proof.
  induction 1 as [|x l Hss IH Hall]; csimpl; [constructor|].
  pose proof (groupby_keys trt l) as Hkeys.
  destruct (groupby trt l) as [|[k0 g0] r] eqn:E; [apply NoDup_singleton|].
  case_decide as Hk; [done|]. csimpl. constructor; [|done].
  intros Hin. apply Hkeys in Hin.
  apply list_elem_of_fmap in Hin as (y & Hy & Hyl).
  destruct (groupby_first trt l k0 g0 r E) as (h & l' & -> & Hh).
  apply Forall_cons in Hall as [Hxh Hxl].
  apply StronglySorted_inv in Hss as [_ Hhl].
  apply Hk. rewrite <- Hh.
  apply elem_of_cons in Hyl as [->|Hyl]; [done|].
  rewrite Forall_forall in Hhl.
  apply str_le_antisym; [by apply branch_le_trt|].
  rewrite Hy. apply branch_le_trt. by apply Hhl.
Qed.

Lemma groupby_keys_map {A K : Type} `{EqDecision K} (key : A → K) (f : A → A)
    (l : list A) :
  (∀ x, key (f x) = key x) →
  (groupby key (map f l)).*1 = (groupby key l).*1.
Proof.
  intros Hf. induction l as [|x l IH]; csimpl; [done|].
  destruct (groupby key (map f l)) as [|[k g] r],
           (groupby key l) as [|[k' g'] r']; csimpl in *; try done.
  - by rewrite Hf.
  - injection IH as -> IH. rewrite Hf.
    case_decide; csimpl; by rewrite ?IH.
Qed.

Lemma constructed_one_run `{R : Registry} fname trts ltnode self :
  GsimLogicTree.__init__ fname trts ltnode = Ok self →
  one_run_per_trt self.
Proof.
  unfold GsimLogicTree.__init__. intros H.
  inv_bind H u1 H1. inv_bind H st Hst. inv_bind H u2 H2.
  injection H as <-. unfold one_run_per_trt. simpl.
  unfold GsimLogicTree._build_trts_branches in Hst.
  inv_bind Hst st0 H0. inv_bind Hst u3 H3. injection Hst as <-. simpl.
  apply sorted_one_run, StronglySorted_merge_sort; apply _.
Qed.

Lemma reduce_one_run (self : GsimLogicTree.t) (trts : gset string) :
  one_run_per_trt self → one_run_per_trt (GsimLogicTree.reduce self trts).
Proof.
  unfold one_run_per_trt, GsimLogicTree.reduce.
  case_bool_decide; [|done]. simpl. intros Hnd.
  by rewrite groupby_keys_map.
Qed.

(** Scenario C is what the constructor builds from its document. *)
Lemma scenario_C_constructed :
  @GsimLogicTree.__init__ any_gsim "gmpe_logic_tree.xml" ["Stable"; "Active"]
    scenario_C_ltnode = Ok scenario_C.
Proof. vm_compute. reflexivity. Qed.

(** C8, as the code has it.  On a tree in which the branches of each
    tectonic region type follow one another, [get_num_paths] is 0 when
    no branch is effective and otherwise the product of the effective
    branch counts of the region types that have an effective branch.
    The trees that the constructor builds, and their reductions, are
    such trees.  Scenario C, built from its document, has 4 paths. *)
Theorem num_paths_positive_product :
  (∀ self : GsimLogicTree.t,
     one_run_per_trt self →
     GsimLogicTree.get_num_paths self = product_of_positive_counts self)
  ∧ (∀ (R : Registry) fname trts ltnode self (subset : gset string),
       GsimLogicTree.__init__ fname trts ltnode = Ok self →
       GsimLogicTree.get_num_paths self = product_of_positive_counts self
       ∧ GsimLogicTree.get_num_paths (GsimLogicTree.reduce self subset)
         = product_of_positive_counts (GsimLogicTree.reduce self subset))
  ∧ @GsimLogicTree.__init__ any_gsim "gmpe_logic_tree.xml" ["Stable"; "Active"]
      scenario_C_ltnode = Ok scenario_C
  ∧ GsimLogicTree.get_num_paths scenario_C = 4%nat.
Proof.
  split; [exact get_num_paths_spec|]. split; [|split].
  - intros R fname trts ltnode self subset Hinit.
    pose proof (constructed_one_run _ _ _ _ Hinit) as Hrun.
    split; apply get_num_paths_spec; [done|by apply reduce_one_run].
  - exact scenario_C_constructed.
  - vm_compute. reflexivity.
Qed.

Lemma num_paths_positive_product_witness :
  one_run_per_trt scenario_C
  ∧ GsimLogicTree.get_num_paths scenario_C
    = product_of_positive_counts scenario_C.
Proof.
  assert (H : one_run_per_trt scenario_C).
  { unfold one_run_per_trt. apply (bool_decide_unpack _).
    vm_compute. reflexivity. }
  split; [exact H|].
  exact (proj1 num_paths_positive_product scenario_C H).
Defined.

(** C8, as stated, fails: once Scenario C is reduced to the region type
    [Active], the group of [Stable] has no effective branch; the product
    of the counts of all the groups is 0, and [get_num_paths] is 2. *)
Lemma num_paths_skips_empty_groups :
  one_run_per_trt (GsimLogicTree.reduce scenario_C {["Active"]})
  ∧ effective_count (GsimLogicTree.reduce scenario_C {["Active"]}) "Stable"
    = 0%nat
  ∧ GsimLogicTree.get_num_paths (GsimLogicTree.reduce scenario_C {["Active"]})
    = 2%nat
  ∧ GsimLogicTree.get_num_paths (GsimLogicTree.reduce scenario_C {["Active"]})
    ≠ product_of_counts (GsimLogicTree.reduce scenario_C {["Active"]}).
Proof.
  split; [|split; [|split]].
  - unfold one_run_per_trt. apply (bool_decide_unpack _).
    vm_compute. reflexivity.
  - vm_compute. reflexivity.
  - vm_compute. reflexivity.
  - vm_compute. discriminate.
Qed.

(** ** Collapsing *)

(** A group that is not collapsed contributes its last branch only. *)
Lemma collapse_group_else (self : GsimLogicTree.t) branchset_ids t grp bs_id :
  odict_get (GsimLogicTree.bs_id_by_trt self) (Some t) = Some bs_id →
  ¬ ((1 < length grp)%nat ∧ bs_id ∈ branchset_ids) →
  GsimLogicTree.collapse_group self branchset_ids t grp
  = (fun br => [br]) <$> last grp.
Proof.
  intros Hbs Hnot. unfold GsimLogicTree.collapse_group.
  rewrite Hbs. simpl. rewrite length_map.
  destruct (bool_decide (1 < length grp)%nat) eqn:E1;
    destruct (bool_decide (bs_id ∈ branchset_ids)) eqn:E2; simpl;
    try (by destruct (last grp)).
  apply bool_decide_eq_true in E1, E2. tauto.
Qed.

(** C2, where the code departs from it.  A group that [collapse] does
    not average is replaced by its last branch alone: on Scenario C,
    collapsing the branch set of [Active] leaves the average for
    [Active] and, for [Stable], the branch [s2] only. *)
Theorem collapse_keeps_last_branch :
  (∀ (self : GsimLogicTree.t) branchset_ids t grp bs_id,
     odict_get (GsimLogicTree.bs_id_by_trt self) (Some t) = Some bs_id →
     ¬ ((1 < length grp)%nat ∧ bs_id ∈ branchset_ids) →
     GsimLogicTree.collapse_group self branchset_ids t grp
     = (fun br => [br]) <$> last grp)
  ∧ ∃ new,
      GsimLogicTree.collapse scenario_C ["bs_active"] = Some new
      ∧ (fun b => (trt b, id b, effective b)) <$> GsimLogicTree.branches new
        = [("Active", "bs_active", true); ("Stable", "s2", true)]
      ∧ gsim <$> GsimLogicTree.branches new
        = [AvgGMPE [("a1", gsim_instance "BooreAtkinson2008");
                    ("a2", gsim_instance "ChiouYoungs2008")]
                   [gsim_instance "BooreAtkinson2008";
                    gsim_instance "ChiouYoungs2008"]
                   [dec 5 10; dec 5 10];
           gsim_instance "Campbell2003"].
Proof.
  split; [exact collapse_group_else|].
  destruct (GsimLogicTree.collapse scenario_C ["bs_active"]) as [new|] eqn:E.
  - exists new. split; [reflexivity|].
    assert (H : (fun new => ((fun b => (trt b, id b, effective b))
                               <$> GsimLogicTree.branches new,
                             gsim <$> GsimLogicTree.branches new))
                  <$> GsimLogicTree.collapse scenario_C ["bs_active"]
                = Some ([("Active", "bs_active", true); ("Stable", "s2", true)],
                        [AvgGMPE [("a1", gsim_instance "BooreAtkinson2008");
                                  ("a2", gsim_instance "ChiouYoungs2008")]
                                 [gsim_instance "BooreAtkinson2008";
                                  gsim_instance "ChiouYoungs2008"]
                                 [dec 5 10; dec 5 10];
                         gsim_instance "Campbell2003"]))
      by (vm_compute; reflexivity).
    rewrite E in H. simpl in H. injection H as H1 H2. by split.
  - vm_compute in E. discriminate E.
Qed.

Lemma collapse_keeps_last_branch_witness :
  GsimLogicTree.collapse_group scenario_C ["bs_active"] "Stable"
    [mkBranchTuple "Stable" "s1" (gsim_instance "ToroEtAl2002") half true;
     mkBranchTuple "Stable" "s2" (gsim_instance "Campbell2003") half true]
  = Some [mkBranchTuple "Stable" "s2" (gsim_instance "Campbell2003") half true].
Proof.
  refine (proj1 collapse_keeps_last_branch scenario_C ["bs_active"] "Stable"
            [mkBranchTuple "Stable" "s1" (gsim_instance "ToroEtAl2002") half true;
             mkBranchTuple "Stable" "s2" (gsim_instance "Campbell2003") half true]
            "bs_stable" _ _).
  - reflexivity.
  - intros [_ Hin]. apply list_elem_of_singleton in Hin. discriminate Hin.
Defined.

(** ** Validation of the filters *)



(** The kinds outside of the two lists are not held to these
    requirements: [incrementalMFDAbsolute] passes without any filter. *)
Lemma unlisted_kind_passes :
  SourceModelLogicTree.validate_filters scanned
    {| attrib := [("branchSetID", "bs2");
                  ("uncertaintyType", "incrementalMFDAbsolute")];
       nodes := [] |}
    (Some "incrementalMFDAbsolute") [] = Ok tt.
Proof. vm_compute. reflexivity. Qed.


(** ** Parsing the branches of a branch set *)

Lemma remove_dups_length {A : Type} `{EqDecision A} (l : list A) :
  (length (remove_dups l) <= length l)%nat.
Proof.
  induction l as [|x l IH]; simpl; [lia|].
  destruct (decide_rel elem_of x l); simpl; lia.
Qed.

Lemma has_duplicates_spec {A : Type} `{EqDecision A} (l : list A) :
  has_duplicates l = true ↔ ¬ NoDup l.
Proof.
  unfold has_duplicates. rewrite bool_decide_eq_true.
  induction l as [|x l IH]; simpl.
  - split; [lia|]. intros H. destruct H. constructor.
  - pose proof (remove_dups_length l).
    rewrite NoDup_cons.
    destruct (decide_rel elem_of x l) as [Hin|Hnot]; simpl.
    + split; [tauto|lia].
    + rewrite <- Nat.succ_lt_mono, IH. tauto.
Qed.

Lemma odict_set_fresh {V : Type} (d : list (string * V)) (k : string) (v : V) :
  k ∉ d.*1 → (odict_set d k v).*1 = d.*1 ++ [k].
Proof.
  induction d as [|[k' v'] d IH]; csimpl; [done|].
  intros [Hne Hk]%not_elem_of_cons.
  rewrite decide_False by done. csimpl. by rewrite IH.
Qed.

Section parse_branches_facts.
Context `{W : World}.

Lemma collect_all_spec (branch_id : string) (fnames : list string) :
  ∀ self,
    match SourceModelLogicTree.collect_all self branch_id fnames with
    | Ok self' =>
        SourceModelLogicTree.branches self' = SourceModelLogicTree.branches self
        ∧ Forall (fun fname =>
                    (endswith fname ".xml" || endswith fname ".nrml") = true →
                    is_Some (_get_source_model fname)) fnames
    | Err _ =>
        ∃ fname, fname ∈ fnames
                 ∧ (endswith fname ".xml" || endswith fname ".nrml") = true
                 ∧ _get_source_model fname = None
    end.
Proof.
  induction fnames as [|fname rest IH]; intros self; simpl; [by split|].
  destruct (endswith fname ".xml" || endswith fname ".nrml") eqn:Eend.
  - unfold SourceModelLogicTree.collect_source_model_data.
    destruct (_get_source_model fname) as [xml|] eqn:Eopen; simpl.
    + specialize (IH (SourceModelLogicTree.mk
                        (SourceModelLogicTree.filename self)
                        (SourceModelLogicTree.seed self)
                        (SourceModelLogicTree.num_samples self)
                        (SourceModelLogicTree.branches self)
                        (SourceModelLogicTree.bsetdict self)
                        (SourceModelLogicTree.tectonic_region_types self
                           ∪ list_to_set (TRT_REGEX_findall xml))
                        (SourceModelLogicTree.source_types self
                           ∪ list_to_set (SOURCE_TYPE_REGEX_findall xml))
                        (<[branch_id :=
                             default [] (SourceModelLogicTree.source_ids self
                                           !! branch_id)
                               ++ ID_REGEX_findall xml]>
                           (SourceModelLogicTree.source_ids self))
                        (SourceModelLogicTree.root_branchset self))).
      destruct (SourceModelLogicTree.collect_all _ branch_id rest) as [self'|e].
      * destruct IH as [Hbr Hall]. split; [done|].
        constructor; [|done]. intros _. rewrite Eopen. eauto.
      * destruct IH as (f & Hin & Hend & Hnone). exists f.
        split; [by right|done].
    + exists fname. split; [by left|done].
  - specialize (IH self).
    destruct (SourceModelLogicTree.collect_all self branch_id rest) as [self'|e].
    + destruct IH as [Hbr Hall]. split; [done|].
      constructor; [|done]. intros Hend. rewrite Eend in Hend. discriminate.
    + destruct IH as (f & Hin & Hend & Hnone). exists f.
      split; [by right|done].
Qed.

(** One turn of the loop either raises, for one of three reasons, or
    records the branch. *)
Lemma parse_branch_spec (bs_id : string)
    (st : SourceModelLogicTree.loop_state) (b : BranchNode) :
  match SourceModelLogicTree.parse_branch bs_id st b with
  | Ok st' =>
      ¬ scan_fails (kind st) b ∧ ¬ invalid_value (kind st) b
      ∧ (branchID b ∉ keys st)
      ∧ keys st' = keys st ++ [branchID b]
      ∧ kind st' = kind st
      ∧ SourceModelLogicTree.l_weight_sum st'
        = SourceModelLogicTree.l_weight_sum st + uncertaintyWeight b
      ∧ SourceModelLogicTree.l_values st'
        = SourceModelLogicTree.l_values st
          ++ option_list (strip <$> uncertaintyModel b)
  | Err _ =>
      scan_fails (kind st) b ∨ invalid_value (kind st) b
      ∨ branchID b ∈ keys st
  end.
Proof.
  unfold SourceModelLogicTree.parse_branch, kind, keys, scan_fails,
    invalid_value.
  set (utype := BranchSet.uncertainty_type (SourceModelLogicTree.l_branchset st)).
  set (self := SourceModelLogicTree.l_self st).
  assert (Hscan :
    match (if bool_decide (utype ∈ ["sourceModel"; "extendModel"])
           then match uncertaintyModel b with
                | Some txt => SourceModelLogicTree.collect_all self (branchID b)
                                (split (strip txt))
                | None => Err (source_model_unreadable "")
                end
           else Ok self) with
    | Ok self' =>
        SourceModelLogicTree.branches self' = SourceModelLogicTree.branches self
        ∧ ¬ (utype ∈ ["sourceModel"; "extendModel"]
             ∧ match uncertaintyModel b with
               | None => True
               | Some txt =>
                   ∃ fname, fname ∈ split (strip txt)
                     ∧ (endswith fname ".xml" || endswith fname ".nrml") = true
                     ∧ _get_source_model fname = None
               end)
    | Err _ =>
        utype ∈ ["sourceModel"; "extendModel"]
        ∧ match uncertaintyModel b with
          | None => True
          | Some txt =>
              ∃ fname, fname ∈ split (strip txt)
                ∧ (endswith fname ".xml" || endswith fname ".nrml") = true
                ∧ _get_source_model fname = None
          end
    end).
  { case_bool_decide as Hu; [|split; [done|tauto]].
    destruct (uncertaintyModel b) as [txt|]; [|done].
    pose proof (collect_all_spec (branchID b) (split (strip txt)) self) as Hc.
    destruct (SourceModelLogicTree.collect_all self (branchID b) _)
      as [self'|e]; [|done].
    destruct Hc as [Hbr Hall]. split; [done|].
    intros (_ & fname & Hin & Hend & Hnone).
    rewrite Forall_forall in Hall. destruct (Hall fname Hin Hend) as [x Hx].
    congruence. }
  destruct (if bool_decide (utype ∈ ["sourceModel"; "extendModel"]) then _ else _)
    as [self'|e]; simpl; [|tauto].
  destruct Hscan as [Hbr Hscan].
  destruct (parse_uncertainty utype (uncertaintyModel b)) as [value|] eqn:Ev;
    simpl; [|tauto].
  unfold odict_mem. rewrite Hbr. case_bool_decide as Hin; simpl; [tauto|].
  rewrite Hbr. split; [done|]. split; [done|]. split; [done|].
  split; [by apply odict_set_fresh|]. split; [done|]. split; [done|].
  destruct (uncertaintyModel b); simpl; [done|by rewrite app_nil_r].
Qed.

Lemma parse_branch_loop_spec (bs_id : string) (branches : list BranchNode) :
  ∀ st,
    NoDup (keys st) →
    match SourceModelLogicTree.parse_branch_loop bs_id st branches with
    | Ok st' =>
        Forall (fun b => ¬ scan_fails (kind st) b ∧ ¬ invalid_value (kind st) b)
               branches
        ∧ NoDup (keys st ++ (branchID <$> branches))
        ∧ SourceModelLogicTree.l_weight_sum st'
          = foldl Qcplus (SourceModelLogicTree.l_weight_sum st)
                  (uncertaintyWeight <$> branches)
        ∧ SourceModelLogicTree.l_values st'
          = SourceModelLogicTree.l_values st
            ++ omap (fun b => strip <$> uncertaintyModel b) branches
    | Err _ =>
        Exists (scan_fails (kind st)) branches
        ∨ Exists (invalid_value (kind st)) branches
        ∨ ¬ NoDup (keys st ++ (branchID <$> branches))
    end.
Proof.
  induction branches as [|b rest IH]; intros st Hnd; csimpl.
  - rewrite !app_nil_r. by repeat split.
  - pose proof (parse_branch_spec bs_id st b) as Hb.
    destruct (SourceModelLogicTree.parse_branch bs_id st b) as [st1|e]; simpl.
    + destruct Hb as (Hs & Hi & Hfresh & Hkeys & Hkind & Hsum & Hvals).
      assert (Hnd1 : NoDup (keys st1)).
      { rewrite Hkeys. apply NoDup_app. repeat split; [done| |apply NoDup_singleton].
        intros x Hx ->%list_elem_of_singleton. done. }
      specialize (IH st1 Hnd1). rewrite Hkind, Hkeys, <- app_assoc in IH.
      destruct (SourceModelLogicTree.parse_branch_loop bs_id st1 rest)
        as [st'|e].
      * destruct IH as (Hall & Hnd' & Hsum' & Hvals').
        split; [by constructor|]. split; [done|].
        rewrite Hsum', Hsum, Hvals', Hvals, <- app_assoc. split; [done|].
        by destruct (uncertaintyModel b).
      * destruct IH as [IH|[IH|IH]]; [left|right; left|right; right];
          try (by apply Exists_cons_tl). done.
    + destruct Hb as [Hb|[Hb|Hb]]; [left|right; left|right; right];
        try (by apply Exists_cons_hd).
      intros Hnd'. apply NoDup_app in Hnd' as (_ & Hdisj & _).
      apply (Hdisj _ Hb). by left.
Qed.

Lemma parse_branches_spec (self : SourceModelLogicTree.t)
    (branchset_node : BranchSetNode) (branchset : BranchSet) :
  NoDup (SourceModelLogicTree.branches self).*1 →
  is_Some (odict_get (attrib branchset_node) "branchSetID") →
  (is_err (SourceModelLogicTree.parse_branches self branchset_node branchset)
   ↔ weights_off branchset_node
     ∨ repeated_id self branchset_node
     ∨ repeated_value branchset_node
     ∨ Exists (scan_fails (BranchSet.uncertainty_type branchset))
              (nodes branchset_node)
     ∨ Exists (invalid_value (BranchSet.uncertainty_type branchset))
              (nodes branchset_node))
  ∧ (weights_off branchset_node →
     ¬ repeated_id self branchset_node →
     ¬ Exists (scan_fails (BranchSet.uncertainty_type branchset))
              (nodes branchset_node) →
     ¬ Exists (invalid_value (BranchSet.uncertainty_type branchset))
              (nodes branchset_node) →
     SourceModelLogicTree.parse_branches self branchset_node branchset
     = Err weights_dont_sum).
Proof.
  intros Hnd [bs_id Hid].
  unfold SourceModelLogicTree.parse_branches. rewrite Hid. simpl.
  pose proof (parse_branch_loop_spec bs_id (nodes branchset_node)
                {| SourceModelLogicTree.l_self := self;
                   SourceModelLogicTree.l_branchset := branchset;
                   SourceModelLogicTree.l_weight_sum := 0;
                   SourceModelLogicTree.l_values := [] |} Hnd) as Hloop.
  unfold kind, keys in Hloop. simpl in Hloop.
  unfold weights_off, repeated_id, repeated_value, values_of, fsum.
  destruct (SourceModelLogicTree.parse_branch_loop bs_id _ _) as [st'|e];
    simpl.
  - destruct Hloop as (Hall & Hnd' & -> & ->).
    assert (Hs : ¬ Exists (scan_fails (BranchSet.uncertainty_type branchset))
                   (nodes branchset_node)).
    { rewrite Exists_exists. intros (b & Hb & Hf).
      rewrite Forall_forall in Hall. by destruct (Hall b Hb). }
    assert (Hi : ¬ Exists (invalid_value (BranchSet.uncertainty_type branchset))
                   (nodes branchset_node)).
    { rewrite Exists_exists. intros (b & Hb & Hf).
      rewrite Forall_forall in Hall. by destruct (Hall b Hb). }
    case_bool_decide as Hw; simpl.
    + split; [tauto|done].
    + split; [|tauto].
      destruct (has_duplicates _) eqn:Hd; simpl.
      * apply has_duplicates_spec in Hd. tauto.
      * assert (Hd' : ¬ ¬ NoDup (omap (fun b => strip <$> uncertaintyModel b)
                                       (nodes branchset_node))).
        { rewrite <- has_duplicates_spec, Hd. done. }
        tauto.
  - split; [|tauto]. split; [|done]. intros _. tauto.
Qed.

End parse_branches_facts.

(** C5, as the code has it.  For an instance whose branch dictionary has
    distinct keys and a branch-set node that has its [branchSetID],
    [parse_branches] raises if and only if the declared weights do not
    sum to one within the tolerance, or a branch id is already in the
    tree or repeated, or two branches have the same value, or the scan
    of the source models of a branch raises, or the text of a branch is
    no value of the uncertainty kind.  When only the weights are at
    fault the error is the one on weights; so it is for the weights 0.5
    and 0.4. *)
Theorem parse_branches_fails_iff :
  (∀ (W : World) (self : SourceModelLogicTree.t)
     (branchset_node : BranchSetNode) (branchset : BranchSet),
     NoDup (SourceModelLogicTree.branches self).*1 →
     is_Some (odict_get (attrib branchset_node) "branchSetID") →
     (is_err (SourceModelLogicTree.parse_branches self branchset_node branchset)
      ↔ weights_off branchset_node
        ∨ repeated_id self branchset_node
        ∨ repeated_value branchset_node
        ∨ Exists (scan_fails (BranchSet.uncertainty_type branchset))
                 (nodes branchset_node)
        ∨ Exists (invalid_value (BranchSet.uncertainty_type branchset))
                 (nodes branchset_node))
     ∧ (weights_off branchset_node →
        ¬ repeated_id self branchset_node →
        ¬ Exists (scan_fails (BranchSet.uncertainty_type branchset))
                 (nodes branchset_node) →
        ¬ Exists (invalid_value (BranchSet.uncertainty_type branchset))
                 (nodes branchset_node) →
        SourceModelLogicTree.parse_branches self branchset_node branchset
        = Err weights_dont_sum))
  ∧ @SourceModelLogicTree.parse_branches no_files scanned short_weights_node
      (mkBranchSet "maxMagGRRelative" [] [])
    = Err weights_dont_sum.
Proof.
  split.
  - intros W. apply parse_branches_spec.
  - vm_compute. reflexivity.
Qed.

Lemma parse_branches_fails_iff_witness :
  NoDup (SourceModelLogicTree.branches scanned).*1
  ∧ is_Some (odict_get (attrib short_weights_node) "branchSetID")
  ∧ (is_err (@SourceModelLogicTree.parse_branches no_files scanned
               short_weights_node (mkBranchSet "maxMagGRRelative" [] []))
     ↔ weights_off short_weights_node
       ∨ repeated_id scanned short_weights_node
       ∨ repeated_value short_weights_node
       ∨ Exists (@scan_fails no_files "maxMagGRRelative")
                (nodes short_weights_node)
       ∨ Exists (@invalid_value no_files "maxMagGRRelative")
                (nodes short_weights_node)).
Proof.
  assert (H1 : NoDup (SourceModelLogicTree.branches scanned).*1)
    by (apply (bool_decide_unpack _); vm_compute; reflexivity).
  assert (H2 : is_Some (odict_get (attrib short_weights_node) "branchSetID"))
    by (vm_compute; eauto).
  split; [exact H1|]. split; [exact H2|].
  exact (proj1 (proj1 parse_branches_fails_iff no_files scanned
                  short_weights_node (mkBranchSet "maxMagGRRelative" [] [])
                  H1 H2)).
Defined.

(** C5, as stated, fails: a [sourceModel] branch set with one branch of
    weight 1, a new branch id and a single value, naming a source model
    that cannot be opened, makes [parse_branches] raise. *)
Lemma unreadable_model_fails :
  @SourceModelLogicTree.parse_branches no_files fresh missing_model_node
    (mkBranchSet "sourceModel" [] [])
  = Err (source_model_unreadable "model_A.xml")
  ∧ ¬ (is_err (@SourceModelLogicTree.parse_branches no_files fresh
                 missing_model_node (mkBranchSet "sourceModel" [] []))
       ↔ weights_off missing_model_node
         ∨ repeated_id fresh missing_model_node
         ∨ repeated_value missing_model_node).
Proof.
  assert (H : @SourceModelLogicTree.parse_branches no_files fresh
                missing_model_node (mkBranchSet "sourceModel" [] [])
              = Err (source_model_unreadable "model_A.xml"))
    by (vm_compute; reflexivity).
  split; [exact H|]. rewrite H. simpl. intros [Hclaim _].
  destruct (Hclaim I) as [Hw|[Hid|Hv]].
  - unfold weights_off in Hw. vm_compute in Hw. discriminate Hw.
  - apply Hid. apply (bool_decide_unpack _). vm_compute. reflexivity.
  - apply Hv. apply (bool_decide_unpack _). vm_compute. reflexivity.
Qed.

(** ** The persisted form *)

(** C3, where the code departs from it.  Exporting the three-level tree
    and importing it back gives a tree of two levels: the branches of
    the root point to the last branch set of the table, and the eight
    realizations of the tree become four.  The two-level tree of
    Scenario A comes back with its enumeration unchanged. *)
Theorem roundtrip_loses_levels :
  (∃ back,
     roundtrip three_levels = Some back
     ∧ ∀ (G : numpy_random.Generator) g,
         paths_of (fst (SourceModelLogicTree.__iter__ three_levels g))
         = Some [["A"; "M1"; "G1"]; ["A"; "M1"; "G2"];
                 ["A"; "M2"; "G1"]; ["A"; "M2"; "G2"];
                 ["B"; "M1"; "G1"]; ["B"; "M1"; "G2"];
                 ["B"; "M2"; "G1"]; ["B"; "M2"; "G2"]]
         ∧ paths_of (fst (SourceModelLogicTree.__iter__ back g))
           = Some [["A"; "G1"]; ["A"; "G2"]; ["B"; "G1"]; ["B"; "G2"]])
  ∧ (∃ back,
       roundtrip (scenario_A 42 0) = Some back
       ∧ ∀ (G : numpy_random.Generator) g,
           fst (SourceModelLogicTree.__iter__ back g)
           = fst (SourceModelLogicTree.__iter__ (scenario_A 42 0) g)).
Proof.
  split.
  - destruct (roundtrip three_levels) as [back|] eqn:E;
      [|vm_compute in E; discriminate E].
    exists back. split; [reflexivity|]. intros G g.
    assert (Hroot : SourceModelLogicTree.root_branchset <$> roundtrip three_levels
                    = Some (Some (mkBranchSet "sourceModel" []
                        [mkBranch "bs1" "A" (dec 6 10) "model_A.xml"
                                  (Some three_levels_level3);
                         mkBranch "bs1" "B" (dec 4 10) "model_B.xml"
                                  (Some three_levels_level3)])))
      by (vm_compute; reflexivity).
    assert (Hn : SourceModelLogicTree.num_samples <$> roundtrip three_levels
                 = Some 0%Z) by (vm_compute; reflexivity).
    rewrite E in Hroot, Hn. simpl in Hroot, Hn.
    injection Hroot as Hroot. injection Hn as Hn.
    rewrite (iter_enumerates _ _ g Hroot Hn).
    rewrite (iter_enumerates three_levels three_levels_root g eq_refl eq_refl).
    split; reflexivity.
  - destruct (roundtrip (scenario_A 42 0)) as [back|] eqn:E;
      [|vm_compute in E; discriminate E].
    exists back. split; [reflexivity|]. intros G g.
    assert (Hroot : SourceModelLogicTree.root_branchset
                      <$> roundtrip (scenario_A 42 0)
                    = Some (Some scenario_A_root))
      by (vm_compute; reflexivity).
    assert (Hn : SourceModelLogicTree.num_samples <$> roundtrip (scenario_A 42 0)
                 = Some 0%Z) by (vm_compute; reflexivity).
    rewrite E in Hroot, Hn. simpl in Hroot, Hn.
    injection Hroot as Hroot. injection Hn as Hn.
    rewrite (iter_enumerates _ _ g Hroot Hn).
    by rewrite (iter_enumerates (scenario_A 42 0) scenario_A_root g eq_refl eq_refl).
Qed.

(** ** Construction of the source-model tree *)

Ltac inv_res H x Hx := apply rbind_Ok in H as (x & Hx & H).

Lemma odict_set_append {V : Type} (d : list (string * V)) (k : string) (v : V) :
  k ∉ d.*1 → odict_set d k v = d ++ [(k, v)].
Proof.
  induction d as [|[k' v'] d IH]; csimpl; [done|].
  intros [Hne Hk]%not_elem_of_cons.
  rewrite decide_False by done. by rewrite IH.
Qed.

Lemma grows_refl (s : SourceModelLogicTree.t) : grows s s.
Proof.
  repeat split; [done|done|]. intros k ids Hk. exists []. by rewrite app_nil_r.
Qed.

Lemma grows_trans (s1 s2 s3 : SourceModelLogicTree.t) :
  grows s1 s2 → grows s2 s3 → grows s1 s3.
Proof.
  intros (Ha & Hb & Hc) (Ha' & Hb' & Hc').
  repeat split; [by etrans|by etrans|].
  intros k ids Hk. destruct (Hc k ids Hk) as [i1 H1].
  destruct (Hc' k _ H1) as [i2 H2]. exists (i1 ++ i2). by rewrite app_assoc.
Qed.

Section construction_lemmas.
Context `{W : World}.

Lemma collect_all_grows (branch_id : string) (fnames : list string) :
  ∀ s s', SourceModelLogicTree.collect_all s branch_id fnames = Ok s' →
          grows s s'
          ∧ SourceModelLogicTree.branches s' = SourceModelLogicTree.branches s.
Proof.
  induction fnames as [|fname rest IH]; intros s s' H; simpl in H.
  - injection H as <-. split; [apply grows_refl|done].
  - destruct (endswith fname ".xml" || endswith fname ".nrml"); [|by apply IH].
    unfold SourceModelLogicTree.collect_source_model_data in H.
    destruct (_get_source_model fname) as [xml|]; simpl in H; [|done].
    apply IH in H as [Hg Hb]. simpl in Hb. split; [|done].
    eapply grows_trans; [|exact Hg].
    repeat split; simpl; [apply union_subseteq_l|apply union_subseteq_l|].
    intros k ids Hk. destruct (decide (branch_id = k)) as [->|Hne].
    + rewrite lookup_insert_eq, Hk. simpl. eauto.
    + rewrite lookup_insert_ne by done. exists []. by rewrite app_nil_r.
Qed.

Lemma parse_branch_Ok (bs_id : string) (st st' : SourceModelLogicTree.loop_state)
    (b : BranchNode) :
  SourceModelLogicTree.parse_branch bs_id st b = Ok st' →
  ∃ br, created bs_id (kind st) b = Some br
    ∧ (branchID b ∉ keys st)
    ∧ SourceModelLogicTree.branches (SourceModelLogicTree.l_self st')
      = SourceModelLogicTree.branches (SourceModelLogicTree.l_self st)
        ++ [(branchID b, br)]
    ∧ SourceModelLogicTree.l_branchset st'
      = SourceModelLogicTree.append_branch (SourceModelLogicTree.l_branchset st) br
    ∧ grows (SourceModelLogicTree.l_self st) (SourceModelLogicTree.l_self st')
    ∧ SourceModelLogicTree.l_weight_sum st'
      = SourceModelLogicTree.l_weight_sum st + uncertaintyWeight b.
Proof.
  unfold SourceModelLogicTree.parse_branch, created, kind, keys.
  intros H. inv_res H s1 Hs1. inv_res H v Hv. inv_res H u Hu.
  injection H as <-. simpl.
  assert (Hg : grows (SourceModelLogicTree.l_self st) s1
               ∧ SourceModelLogicTree.branches s1
                 = SourceModelLogicTree.branches (SourceModelLogicTree.l_self st)).
  { case_bool_decide.
    - destruct (uncertaintyModel b); [|done]. by apply collect_all_grows in Hs1.
    - injection Hs1 as <-. split; [apply grows_refl|done]. }
  destruct Hg as [Hg Hb].
  destruct (parse_uncertainty _ _) as [v'|]; [|done]. injection Hv as ->.
  apply raise_if_Ok in Hu. unfold odict_mem in Hu.
  apply bool_decide_eq_false in Hu. rewrite Hb in Hu.
  eexists. split; [reflexivity|]. split; [done|].
  split; [by rewrite odict_set_append, Hb by (by rewrite Hb)|].
  split; [done|]. split; [|done].
  destruct Hg as (Ha & Hb' & Hc). repeat split; done.
Qed.

Lemma parse_branch_loop_Ok (bs_id : string) (branches : list BranchNode) :
  ∀ st st',
    SourceModelLogicTree.parse_branch_loop bs_id st branches = Ok st' →
    ∃ new,
      mapM (created bs_id (kind st)) branches = Some new
      ∧ SourceModelLogicTree.branches (SourceModelLogicTree.l_self st')
        = SourceModelLogicTree.branches (SourceModelLogicTree.l_self st)
          ++ ((fun br => (Branch.branch_id br, br)) <$> new)
      ∧ SourceModelLogicTree.l_branchset st'
        = mkBranchSet (kind st)
            (BranchSet.filters (SourceModelLogicTree.l_branchset st))
            (BranchSet.branches (SourceModelLogicTree.l_branchset st) ++ new)
      ∧ grows (SourceModelLogicTree.l_self st) (SourceModelLogicTree.l_self st')
      ∧ SourceModelLogicTree.l_weight_sum st'
        = SourceModelLogicTree.l_weight_sum st
          + fsum (uncertaintyWeight <$> branches).
Proof.
  induction branches as [|b rest IH]; intros st st' H; csimpl in H.
  - injection H as <-. exists []. csimpl. rewrite !app_nil_r.
    split; [done|]. split; [done|].
    split; [unfold kind; by destruct (SourceModelLogicTree.l_branchset st)|].
    split; [apply grows_refl|]. unfold fsum. simpl. ring.
  - inv_res H st1 H1.
    apply parse_branch_Ok in H1 as (br & Hbr & Hfresh & Hd & Hbs & Hg & Hw).
    apply IH in H as (new & Hnew & Hd' & Hbs' & Hg' & Hw').
    assert (Hk : kind st1 = kind st).
    { unfold kind. rewrite Hbs. done. }
    rewrite Hk in Hnew. exists (br :: new).
    split.
    { apply mapM_Some. constructor; [done|]. by apply mapM_Some. }
    csimpl. split.
    { rewrite Hd', Hd, <- app_assoc. csimpl.
      unfold created in Hbr. destruct (parse_uncertainty _ _); [|done].
      by injection Hbr as <-. }
    split.
    { rewrite Hbs', Hk, Hbs. simpl. by rewrite <- app_assoc. }
    split; [by eapply grows_trans|].
    rewrite Hw', Hw, fsum_cons. ring.
Qed.

Lemma created_fields (bs_id kind : string) (b : BranchNode) (br : Branch) :
  created bs_id kind b = Some br →
  Branch.branch_id br = branchID b ∧ Branch.weight br = uncertaintyWeight b
  ∧ Branch.bs_id br = bs_id ∧ Branch.bset br = None.
Proof.
  unfold created. destruct (parse_uncertainty _ _); [|done].
  by intros [= <-].
Qed.

Lemma mapM_created (bs_id kind : string) (branches : list BranchNode) new :
  mapM (created bs_id kind) branches = Some new →
  Branch.branch_id <$> new = branchID <$> branches
  ∧ Branch.weight <$> new = uncertaintyWeight <$> branches
  ∧ Forall (fun br => Branch.bset br = None) new.
Proof.
  rewrite mapM_Some. induction 1 as [|b br l l' Hb _ IH]; csimpl; [done|].
  apply created_fields in Hb as (-> & -> & _ & Hn).
  destruct IH as (-> & -> & Hall). by repeat split; [..|constructor].
Qed.

(** What a successful [parse_branches] has done. *)
Lemma parse_branches_Ok (s s' : SourceModelLogicTree.t)
    (branchset_node : BranchSetNode) (utype : string) filters bs' :
  SourceModelLogicTree.parse_branches s branchset_node
    (mkBranchSet utype filters []) = Ok (s', bs') →
  ∃ bs_id new,
    odict_get (attrib branchset_node) "branchSetID" = Some bs_id
    ∧ mapM (created bs_id utype) (nodes branchset_node) = Some new
    ∧ SourceModelLogicTree.branches s'
      = SourceModelLogicTree.branches s
        ++ ((fun br => (Branch.branch_id br, br)) <$> new)
    ∧ bs' = mkBranchSet utype filters new
    ∧ grows s s'
    ∧ ¬ weights_off branchset_node.
Proof.
  unfold SourceModelLogicTree.parse_branches. intros H.
  inv_res H bs_id Hid. inv_res H st Hst. inv_res H u Hu. inv_res H u' Hu'.
  injection H as <- <-.
  destruct (odict_get _ _) as [x|]; [|done]. injection Hid as ->.
  apply parse_branch_loop_Ok in Hst as (new & Hnew & Hd & Hbs & Hg & Hw).
  exists bs_id, new. simpl in *. unfold kind in Hnew. simpl in Hnew.
  split; [done|]. split; [done|]. split; [done|]. split; [done|].
  split; [done|].
  apply raise_if_Ok, bool_decide_eq_false in Hu.
  unfold weights_off. rewrite Hw in Hu.
  replace (0 + fsum (uncertaintyWeight <$> nodes branchset_node) - 1)
    with (fsum (uncertaintyWeight <$> nodes branchset_node) - 1) in Hu by ring.
  done.
Qed.

End construction_lemmas.

Section parse_branchset_facts.
Context `{W : World}.

Lemma lift_error_Ok {A : Type} (m : result LogicTreeError A) (a : A) :
  Construction.lift_error m = Ok a → m = Ok a.
Proof. destruct m; simpl; congruence. Qed.

Lemma validate_branchset_Ok (depth : nat) (uncertainty_type : option string) :
  Construction.validate_branchset depth uncertainty_type = Ok tt
  ↔ (depth = 0%nat ∧ uncertainty_type = Some "sourceModel")
    ∨ (depth ≠ 0%nat ∧ uncertainty_type ≠ Some "sourceModel"
       ∧ uncertainty_type ≠ Some "gmpeModel").
Proof.
  unfold Construction.validate_branchset.
  repeat case_bool_decide; simpl; split; try tauto; try done;
    intros [[? ?]|(? & ? & ?)]; done.
Qed.

(** What a successful [parse_branchset] has done. *)
Lemma parse_branchset_Ok (st st' : Construction.state)
    (branchset_node : BranchSetNode) (depth : nat) :
  Construction.parse_branchset st branchset_node depth = Ok st' →
  ∃ bsid new,
    odict_get (attrib branchset_node) "branchSetID" = Some bsid
    ∧ SourceModelLogicTree.validate_filters
        (Construction.set_bsetdict (Construction.self st) bsid
           (filter (fun kv => fst kv ≠ "branchSetID") (attrib branchset_node)))
        branchset_node (odict_get (attrib branchset_node) "uncertaintyType")
        (SourceModelLogicTree.filters_of branchset_node) = Ok tt
    ∧ Construction.validate_branchset depth
        (odict_get (attrib branchset_node) "uncertaintyType") = Ok tt
    ∧ mapM (created bsid (SourceModelLogicTree.kind_name
                            (odict_get (attrib branchset_node) "uncertaintyType")))
           (nodes branchset_node) = Some new
    ∧ SourceModelLogicTree.branches (Construction.self st')
      = SourceModelLogicTree.branches (Construction.self st)
        ++ ((fun br => (Branch.branch_id br, br)) <$> new)
    ∧ grows (Construction.self st) (Construction.self st')
    ∧ ¬ weights_off branchset_node
    ∧ Construction.store st' = Construction.store st ++ [cell_of branchset_node]
    ∧ Construction.previous_branches st' = branchID <$> nodes branchset_node
    ∧ Construction.info st' = Construction.info st
    ∧ match Construction.root_branchset st with
      | None =>
          Construction.root_branchset st' = Some (length (Construction.store st))
          ∧ Construction.child st' = Construction.child st
          ∧ Construction.num_paths st'
            = Some (length (nodes branchset_node))
      | Some root =>
          Construction.root_branchset st' = Some root
          ∧ (∃ n, Construction.num_paths st = Some n
                  ∧ Construction.num_paths st'
                    = Some (n * length (nodes branchset_node))%nat)
          ∧ match odict_get (attrib branchset_node) "applyToBranches" with
            | Some atb =>
                if bool_decide (atb = "")
                then Construction.child st'
                     = Construction.attach_to_previous
                         (Construction.child st)
                         (Construction.previous_branches st)
                         (length (Construction.store st))
                else Construction.apply_branchset (Construction.self st')
                       (Construction.child st) atb
                       (length (Construction.store st))
                     = Ok (Construction.child st')
            | None =>
                Construction.child st'
                = Construction.attach_to_previous
                    (Construction.child st)
                    (Construction.previous_branches st)
                    (length (Construction.store st))
            end
      end.
Proof.
  unfold Construction.parse_branchset. intros H.
  inv_res H bsid Hid. inv_res H u Hvf. inv_res H u' Hvb.
  inv_res H parsed Hp. inv_res H attached Ha.
  destruct attached as [[np root] ch]. inv_res H n Hn.
  injection H as <-. simpl.
  destruct (odict_get (attrib branchset_node) "branchSetID") as [x|] eqn:Ebs;
    [|done]. injection Hid as ->.
  destruct u, u'. apply lift_error_Ok in Hvf, Hp.
  destruct parsed as [s1 bs1].
  apply parse_branches_Ok in Hp
    as (bs_id & new & Hid' & Hnew & Hd & -> & Hg & Hw).
  rewrite Ebs in Hid'. injection Hid' as <-.
  pose proof (mapM_created _ _ _ _ Hnew) as (Hids & _ & _).
  assert (Hlen : length new = length (nodes branchset_node)).
  { by rewrite <- (length_fmap Branch.branch_id), Hids, length_fmap. }
  simpl in *. exists bsid, new.
  split; [done|]. split; [done|]. split; [done|]. split; [done|].
  split; [done|]. split; [done|]. split; [done|].
  split; [unfold cell_of; by rewrite Hids|].
  split; [done|]. split; [done|].
  destruct (Construction.root_branchset st) as [r|] eqn:Er.
  - destruct (odict_get (attrib branchset_node) "applyToBranches")
      as [atb|] eqn:Eatb; simpl in Ha.
    + try (rewrite bool_decide_true in Ha by done; simpl in Ha).
      case_bool_decide as Hne; simpl in Ha.
      * inv_res Ha ch' Hch. injection Ha as <- <- <-.
        rewrite bool_decide_false by congruence.
        destruct (Construction.num_paths st) as [n0|]; [|done].
        injection Hn as <-. rewrite length_fmap, Hlen. eauto.
      * injection Ha as <- <- <-.
        assert (atb = "") as -> by (destruct (decide (atb = "")); congruence).
        simpl.
        destruct (Construction.num_paths st) as [n0|]; [|done].
        injection Hn as <-. rewrite length_fmap, Hlen. eauto.
    + try (rewrite bool_decide_false in Ha by tauto; simpl in Ha).
      injection Ha as <- <- <-.
      destruct (Construction.num_paths st) as [n0|]; [|done].
      injection Hn as <-. rewrite length_fmap, Hlen. eauto.
  - injection Ha as <- <- <-. injection Hn as <-.
    rewrite length_fmap, Hlen. repeat split; f_equal; lia.
Qed.

End parse_branchset_facts.

Lemma attach_to_previous_lookup (child : gmap string nat)
    (branch_ids : list string) (branchset : nat) (k : string) :
  Construction.attach_to_previous child branch_ids branchset !! k
  = if decide (k ∈ branch_ids) then Some branchset else child !! k.
Proof.
  unfold Construction.attach_to_previous.
  revert child. induction branch_ids as [|x l IH]; intros child; cbn [foldl].
  - destruct (decide (k ∈ [])) as [[]%elem_of_nil|]; done.
  - rewrite IH. destruct (decide (k ∈ l)) as [Hin|Hnot].
    + rewrite decide_True; [done|]. by right.
    + destruct (decide (x = k)) as [->|Hne].
      * rewrite lookup_insert_eq, decide_True; [done|]. by left.
      * rewrite lookup_insert_ne by done.
        rewrite decide_False; [done|].
        intros [?|?]%elem_of_cons; congruence.
Qed.

(** [apply_branchset] attaches the branch set to the listed branches
    when each of them is in the dictionary, has no child yet and is
    listed once; otherwise it raises. *)
Lemma apply_branchset_loop_spec (s : SourceModelLogicTree.t)
    (branch_ids : list string) (branchset : nat) :
  ∀ child,
    match Construction.apply_branchset_loop s child branch_ids branchset with
    | Ok child' =>
        NoDup branch_ids
        ∧ (∀ branch_id, branch_id ∈ branch_ids →
             branch_id ∈ (SourceModelLogicTree.branches s).*1
             ∧ child !! branch_id = None)
        ∧ child' = Construction.attach_to_previous child branch_ids branchset
    | Err e =>
        ¬ (NoDup branch_ids
           ∧ ∀ branch_id, branch_id ∈ branch_ids →
               branch_id ∈ (SourceModelLogicTree.branches s).*1
               ∧ child !! branch_id = None)
    end.
Proof.
  induction branch_ids as [|x l IH]; intros child; simpl.
  - split; [constructor|]. split; [|done]. intros ? []%elem_of_nil.
  - unfold odict_mem. case_bool_decide as Hin; simpl.
    + case_bool_decide as Hch; simpl.
      * intros [_ Hall]. destruct (Hall x) as [_ Hnone]; [by left|].
        rewrite Hnone in Hch. by destruct Hch.
      * specialize (IH (<[x := branchset]> child)).
        destruct (Construction.apply_branchset_loop _ _ l _) as [child'|e].
        -- destruct IH as (Hnd & Hall & ->).
           assert (Hx : x ∉ l).
           { intros Hx. destruct (Hall x Hx) as [_ Hnone].
             by rewrite lookup_insert_eq in Hnone. }
           split; [by constructor|]. split; [|done].
           intros k [->|Hk]%elem_of_cons.
           ++ split; [done|]. by apply eq_None_not_Some.
           ++ destruct (Hall k Hk) as [Hk1 Hk2]. split; [done|].
              rewrite lookup_insert_ne in Hk2; [done|]. congruence.
        -- intros [Hnd Hall]. apply IH. apply NoDup_cons in Hnd as [Hx Hnd].
           split; [done|]. intros k Hk. destruct (Hall k) as [Hk1 Hk2];
             [by right|].
           split; [done|]. rewrite lookup_insert_ne; [done|]. congruence.
    + intros [_ Hall]. destruct (Hall x) as [Hx _]; [by left|]. done.
Qed.

Lemma elem_of_concat {A : Type} (x : A) (ls : list (list A)) :
  x ∈ concat ls ↔ ∃ l, x ∈ l ∧ l ∈ ls.
Proof.
  induction ls as [|l ls IH]; simpl.
  - split; [by intros ?%elem_of_nil|]. by intros (l & _ & ?%elem_of_nil).
  - rewrite elem_of_app, IH. split.
    + intros [Hx|(l' & Hx & Hl')].
      * exists l. split; [done|]. by left.
      * exists l'. split; [done|]. by right.
    + intros (l' & Hx & [->|Hl']%elem_of_cons); [by left|].
      right. by exists l'.
Qed.

Lemma product_app (l1 l2 : list nat) :
  product (l1 ++ l2) = (product l1 * product l2)%nat.
Proof.
  unfold product. induction l1 as [|x l1 IH]; simpl; [lia|].
  rewrite IH. lia.
Qed.

Section consistency.
Context `{W : World}.

Lemma parse_branches_fresh (s s' : SourceModelLogicTree.t)
    (branchset_node : BranchSetNode) (branchset bs' : BranchSet) :
  NoDup (SourceModelLogicTree.branches s).*1 →
  SourceModelLogicTree.parse_branches s branchset_node branchset = Ok (s', bs') →
  NoDup ((SourceModelLogicTree.branches s).*1
         ++ (branchID <$> nodes branchset_node)).
Proof.
  intros Hnd H. unfold SourceModelLogicTree.parse_branches in H.
  inv_res H bs_id Hid. inv_res H st Hst.
  pose proof (parse_branch_loop_spec bs_id (nodes branchset_node)
                {| SourceModelLogicTree.l_self := s;
                   SourceModelLogicTree.l_branchset := branchset;
                   SourceModelLogicTree.l_weight_sum := 0;
                   SourceModelLogicTree.l_values := [] |} Hnd) as Hloop.
  rewrite Hst in Hloop. by destruct Hloop as (_ & Hnd' & _).
Qed.

Lemma parse_branchset_fresh (st st' : Construction.state)
    (branchset_node : BranchSetNode) (depth : nat) :
  NoDup (SourceModelLogicTree.branches (Construction.self st)).*1 →
  Construction.parse_branchset st branchset_node depth = Ok st' →
  NoDup ((SourceModelLogicTree.branches (Construction.self st)).*1
         ++ (branchID <$> nodes branchset_node)).
Proof.
  intros Hnd H. unfold Construction.parse_branchset in H.
  inv_res H bsid Hid. inv_res H u Hvf. inv_res H u' Hvb.
  inv_res H parsed Hp. destruct parsed as [s1 bs1].
  apply lift_error_Ok in Hp.
  by apply parse_branches_fresh in Hp.
Qed.

Lemma parse_branchset_consistent (st st' : Construction.state)
    (branchset_node : BranchSetNode) (depth : nat) :
  consistent st →
  Construction.parse_branchset st branchset_node depth = Ok st' →
  consistent st'.
Proof.
  intros (Hnd & Hkeys & Hfields & Hchild & Hroot & Hnum & Hprev) H.
  pose proof (parse_branchset_fresh _ _ _ _ Hnd H) as Hfresh.
  apply parse_branchset_Ok in H
    as (bsid & new & Hid & Hvf & Hvb & Hnew & Hd & Hg & Hw & Hstore & Hp
        & Hinfo & Hattach).
  pose proof (mapM_created _ _ _ _ Hnew) as (Hids & _ & Hleaf).
  assert (Hkeys' : (SourceModelLogicTree.branches (Construction.self st')).*1
                   = (SourceModelLogicTree.branches (Construction.self st)).*1
                     ++ (branchID <$> nodes branchset_node)).
  { rewrite Hd, fmap_app, <- list_fmap_compose, <- Hids. done. }
  unfold consistent. rewrite Hkeys', Hstore.
  split; [done|].
  split.
  { rewrite fmap_app, concat_app, <- Hkeys. simpl. by rewrite app_nil_r. }
  split.
  { rewrite Hd. apply Forall_app. split; [done|].
    apply Forall_fmap. eapply Forall_impl; [exact Hleaf|]. by intros br ?. }
  rewrite length_app. simpl.
  assert (Hold : ∀ k a, Construction.child st !! k = Some a →
                 k ∈ (SourceModelLogicTree.branches (Construction.self st)).*1
                     ++ (branchID <$> nodes branchset_node)
                 ∧ (a < length (Construction.store st) + 1)%nat).
  { intros k a Hk. destruct (Hchild k a Hk) as [Hk1 Hk2].
    split; [apply elem_of_app; by left|lia]. }
  assert (Hatt : ∀ k a,
            Construction.attach_to_previous (Construction.child st)
              (Construction.previous_branches st)
              (length (Construction.store st)) !! k = Some a →
            k ∈ (SourceModelLogicTree.branches (Construction.self st)).*1
                ++ (branchID <$> nodes branchset_node)
            ∧ (a < length (Construction.store st) + 1)%nat).
  { intros k a. rewrite attach_to_previous_lookup.
    destruct (decide (k ∈ Construction.previous_branches st)) as [Hin|Hnot];
      [|apply Hold].
    intros [= <-]. split; [|lia]. apply elem_of_app. left.
    rewrite Hkeys. rewrite Hprev in Hin.
    destruct (last (Construction.store st)) as [c|] eqn:El; simpl in Hin;
      [|by apply elem_of_nil in Hin].
    apply elem_of_concat. exists (Construction.c_branches c).
    split; [done|]. apply list_elem_of_fmap. exists c. split; [done|].
    apply last_Some in El as [l' ->]. apply elem_of_app. right. by left. }
  split.
  { destruct (Construction.root_branchset st) as [r|] eqn:Er.
    - destruct Hattach as (_ & _ & Hch).
      destruct (odict_get (attrib branchset_node) "applyToBranches") as [atb|];
        [|by rewrite Hch].
      case_bool_decide; [by rewrite Hch|].
      unfold Construction.apply_branchset in Hch.
      pose proof (apply_branchset_loop_spec (Construction.self st') (split atb)
                    (length (Construction.store st)) (Construction.child st))
        as Hspec.
      rewrite Hch in Hspec. destruct Hspec as (_ & Hall & ->).
      intros k a. rewrite attach_to_previous_lookup.
      destruct (decide (k ∈ split atb)) as [Hin|Hnot]; [|apply Hold].
      intros [= <-]. destruct (Hall k Hin) as [Hk _].
      rewrite Hkeys' in Hk. split; [done|lia].
    - destruct Hattach as (_ & -> & _). apply Hold. }
  assert (Hne : ∀ (X : Type) (a b : X) c,
            match Construction.store st ++ [c] with [] => a | _ => b end = b).
  { intros X a b c. by destruct (Construction.store st). }
  rewrite !Hne.
  split.
  { destruct (Construction.root_branchset st) as [r|] eqn:Er.
    - destruct Hattach as (-> & _). rewrite Hroot in Er.
      by destruct (Construction.store st).
    - destruct Hattach as (-> & _). rewrite Hroot in Er.
      by destruct (Construction.store st). }
  split.
  { unfold branch_counts. rewrite Hstore, fmap_app, product_app.
    simpl. rewrite length_fmap.
    destruct (Construction.root_branchset st) as [r|] eqn:Er.
    - destruct Hattach as (_ & (n & Hn & ->) & _).
      rewrite Hnum in Hn. rewrite Hroot in Er.
      destruct (Construction.store st) eqn:Est; [done|].
      injection Hn as <-. unfold branch_counts. rewrite Est.
      unfold product at 2. cbn [foldr]. by rewrite Nat.mul_1_r.
    - destruct Hattach as (_ & _ & ->). rewrite Hroot in Er.
      destruct (Construction.store st) eqn:Est; [|done].
      unfold product. simpl. f_equal. lia. }
  rewrite last_snoc. simpl. done.
Qed.

End consistency.

Lemma grows_known_filter (s s' : SourceModelLogicTree.t) f :
  grows s s' → known_filter s f → known_filter s' f.
Proof.
  intros (Ha & Hb & Hc). destruct f as [key [v|ids]]; simpl.
  - intros [[-> Hv]|[-> Hv]]; [left|right]; split; try done.
    + by apply Ha.
    + by apply Hb.
  - intros [-> Hall]. split; [done|]. intros source_id Hin.
    destruct (Hall source_id Hin) as (k & l & Hk & Hl).
    destruct (Hc k l Hk) as [l' Hk']. exists k, (l ++ l').
    split; [done|]. apply elem_of_app. by left.
Qed.

Lemma sources_defined (s : SourceModelLogicTree.t) (source_ids : list string) :
  foldr (fun source_id k =>
           let* _ := raise_if
             (bool_decide
                (map_Forall (fun _ (ids : list string) => source_id ∉ ids)
                            (SourceModelLogicTree.source_ids s)))
             (source_not_defined source_id) in
           k)
        (Ok tt) source_ids = Ok tt →
  ∀ source_id, source_id ∈ source_ids →
    ∃ k ids, SourceModelLogicTree.source_ids s !! k = Some ids ∧ source_id ∈ ids.
Proof.
  induction source_ids as [|x l IH]; simpl; [by intros _ ? ?%elem_of_nil|].
  intros H. inv_res H u Hu. apply raise_if_Ok, bool_decide_eq_false in Hu.
  intros source_id [->|Hin]%elem_of_cons; [|by apply IH].
  apply map_not_Forall in Hu as (k & ids & Hk & Hx); [|apply _].
  exists k, ids. split; [done|]. by apply dec_stable.
Qed.

Section filters_facts.
Context `{W : World}.

(** The filters that [validate_filters] lets through name only what
    the source models scanned so far define, and there is at most one
    of them. *)
Lemma validate_filters_known (s : SourceModelLogicTree.t)
    (branchset_node : BranchSetNode) (uncertainty_type : option string) :
  SourceModelLogicTree.validate_filters s branchset_node uncertainty_type
    (SourceModelLogicTree.filters_of branchset_node) = Ok tt →
  (length (SourceModelLogicTree.filters_of branchset_node) <= 1)%nat
  ∧ Forall (known_filter s)
           (Construction.parse_filters
              (SourceModelLogicTree.filters_of branchset_node)).
Proof.
  unfold SourceModelLogicTree.validate_filters. intros H.
  inv_res H u1 H1. inv_res H u2 H2. inv_res H u3 H3. inv_res H u4 H4.
  inv_res H u5 H5. inv_res H u6 H6.
  apply raise_if_Ok, bool_decide_eq_false in H2.
  split; [lia|].
  assert (Hkeys : ∀ k v, (k, v) ∈ SourceModelLogicTree.filters_of branchset_node →
                         k ∈ SourceModelLogicTree.FILTERS).
  { intros k v. unfold SourceModelLogicTree.filters_of.
    rewrite list_elem_of_omap. intros (f & Hf & Hkv).
    destruct (odict_get _ f); [|done]. by injection Hkv as <- <-. }
  destruct (SourceModelLogicTree.filters_of branchset_node) as [|[k v] rest];
    [constructor|].
  destruct rest; [|simpl in H2; lia].
  specialize (Hkeys k v (list_elem_of_here _ _)).
  constructor; [|constructor]. simpl.
  unfold SourceModelLogicTree.FILTERS in Hkeys.
  apply elem_of_cons in Hkeys as [->|Hkeys].
  { simpl in H3. apply raise_if_Ok, negb_false_iff, bool_decide_eq_true in H3.
    left. done. }
  apply elem_of_cons in Hkeys as [->|Hkeys].
  { simpl in H. inv_res H u7 H7. simpl. split; [done|].
    by apply sources_defined. }
  apply list_elem_of_singleton in Hkeys as ->.
  simpl in H6. apply raise_if_Ok, negb_false_iff, bool_decide_eq_true in H6.
  right. done.
Qed.

End filters_facts.

Section parse_levels_facts.
Context `{W : World}.

(** What the loop of [parse_tree] has done when it ends without
    raising. *)
Lemma parse_levels_Ok (levels : list sm_level_node) :
  ∀ st depth st',
    consistent st →
    Construction.parse_levels st depth levels = Ok st' →
    consistent st'
    ∧ grows (Construction.self st) (Construction.self st')
    ∧ (∃ ext, SourceModelLogicTree.branches (Construction.self st')
              = SourceModelLogicTree.branches (Construction.self st) ++ ext)
    ∧ Construction.info st' = Construction.info st
    ∧ ∃ bsnodes,
        Forall2 (fun l n => sm_bsnodes l = Ok [n]) levels bsnodes
        ∧ Construction.store st'
          = Construction.store st ++ (cell_of <$> bsnodes)
        ∧ ∀ i n, bsnodes !! i = Some n →
            Construction.validate_branchset (depth + i)
              (odict_get (attrib n) "uncertaintyType") = Ok tt
            ∧ ¬ weights_off n
            ∧ (∃ bsid new,
                 mapM (created bsid (SourceModelLogicTree.kind_name
                                       (odict_get (attrib n) "uncertaintyType")))
                      (nodes n) = Some new
                 ∧ ∀ br, br ∈ new →
                     (Branch.branch_id br, br)
                     ∈ SourceModelLogicTree.branches (Construction.self st'))
            ∧ Forall (known_filter (Construction.self st'))
                     (Construction.c_filters (cell_of n))
            ∧ (length (Construction.c_filters (cell_of n)) <= 1)%nat.
Proof.
  induction levels as [|l rest IH]; intros st depth st' Hc H; simpl in H.
  - injection H as <-. split; [done|]. split; [apply grows_refl|].
    split; [exists []; by rewrite app_nil_r|]. split; [done|].
    exists []. split; [constructor|]. split; [by rewrite app_nil_r|].
    intros i n Hi. by rewrite lookup_nil in Hi.
  - inv_res H bsnodes Hbs. inv_res H n Hn. inv_res H st1 H1.
    destruct bsnodes as [|n0 [|? ?]]; try done. injection Hn as ->.
    pose proof (parse_branchset_consistent _ _ _ _ Hc H1) as Hc1.
    apply parse_branchset_Ok in H1
      as (bsid & new & Hid & Hvf & Hvb & Hnew & Hd & Hg & Hw & Hstore & Hp
          & Hinfo & Hattach).
    apply IH in H as (Hc' & Hg' & [ext Hext] & Hinfo' & bsnodes & Hall & Hstore' & Hfacts);
      [|done].
    split; [done|]. split; [by eapply grows_trans|].
    split; [eexists; by rewrite Hext, Hd, <- app_assoc|].
    split; [congruence|].
    exists (n :: bsnodes). split; [by constructor|].
    split; [by rewrite Hstore', Hstore, <- app_assoc|].
    intros [|i] m Hi; simpl in Hi.
    + injection Hi as <-. rewrite Nat.add_0_r. split; [done|]. split; [done|].
      split.
      { exists bsid, new. split; [done|]. intros br Hbr.
        rewrite Hext, Hd. apply elem_of_app. left. apply elem_of_app. right.
        apply list_elem_of_fmap. by exists br. }
      apply validate_filters_known in Hvf as [Hlen Hknown].
      split.
      { eapply Forall_impl; [exact Hknown|]. intros f Hf.
        apply (grows_known_filter (Construction.self st)); [by eapply grows_trans|].
        destruct f as [key [v|ids]]; exact Hf. }
      unfold cell_of, Construction.parse_filters. simpl.
      by rewrite length_map.
    + replace (depth + S i)%nat with (S depth + i)%nat by lia.
      by apply Hfacts.
Qed.

End parse_levels_facts.

Lemma odict_get_elem {V : Type} (d : list (string * V)) (k : string) (v : V) :
  NoDup d.*1 → (k, v) ∈ d → odict_get d k = Some v.
Proof.
  induction d as [|[k' v'] d IH]; csimpl; [by intros _ ?%elem_of_nil|].
  intros [Hk' Hnd]%NoDup_cons [[= -> ->]|Hin]%elem_of_cons.
  - by rewrite decide_True.
  - rewrite decide_False; [by apply IH|].
    intros ->. apply Hk'. apply list_elem_of_fmap. by exists (k, v).
Qed.

Lemma sm_bsnodes_one (l : sm_level_node) (n : BranchSetNode) :
  sm_bsnodes l = Ok [n] → level_nodes l = [n].
Proof.
  destruct l as [bs|b|]; simpl; [|congruence|done].
  case_bool_decide; simpl; congruence.
Qed.

Section constructed_facts.
Context `{W : World} `{P : OsPath}.

(** The loop of [parse_tree] as the constructor runs it. *)
Lemma init_Ok (filename : string) (seed num_samples : Z)
    (tree : list sm_level_node) (st : Construction.state) :
  Construction.__init__ filename seed num_samples (Some tree) = Ok st →
  consistent st
  ∧ ∃ bsnodes,
      Forall2 (fun l n => level_nodes l = [n]) tree bsnodes
      ∧ Construction.store st = cell_of <$> bsnodes
      ∧ ∀ i n, bsnodes !! i = Some n →
          Construction.validate_branchset i
            (odict_get (attrib n) "uncertaintyType") = Ok tt
          ∧ ¬ weights_off n
          ∧ (∃ bsid new,
               mapM (created bsid (SourceModelLogicTree.kind_name
                                     (odict_get (attrib n) "uncertaintyType")))
                    (nodes n) = Some new
               ∧ ∀ br, br ∈ new →
                   (Branch.branch_id br, br)
                   ∈ SourceModelLogicTree.branches (Construction.self st))
          ∧ Forall (known_filter (Construction.self st))
                   (Construction.c_filters (cell_of n))
          ∧ (length (Construction.c_filters (cell_of n)) <= 1)%nat.
Proof.
  unfold Construction.__init__, Construction.parse_tree. intros H.
  inv_res H i Hi.
  apply parse_levels_Ok in H
    as (Hc & _ & _ & _ & bsnodes & Hall & Hstore & Hfacts).
  - split; [done|]. exists bsnodes.
    split; [eapply Forall2_impl; [exact Hall|]; apply sm_bsnodes_one|].
    split; [done|]. exact Hfacts.
  - unfold consistent. simpl. repeat split; try done; try constructor.
    all: by rewrite lookup_empty in H0.
Qed.

End constructed_facts.

(** X1.  A source-model tree that the constructor accepts has one
    branch set per child of [logicTree]; the first one, and only the
    first one, is of kind [sourceModel], and none is of kind
    [gmpeModel]. *)
Theorem constructed_kinds `{W : World} `{P : OsPath}
    (filename : string) (seed num_samples : Z)
    (tree : list sm_level_node) (st : Construction.state) :
  Construction.__init__ filename seed num_samples (Some tree) = Ok st →
  length (Construction.store st) = length tree
  ∧ ∀ i c, Construction.store st !! i = Some c →
      (Construction.c_uncertainty_type c = "sourceModel" ↔ i = 0%nat)
      ∧ Construction.c_uncertainty_type c ≠ "gmpeModel".
Proof.
  intros H. apply init_Ok in H as (_ & bsnodes & Hall & Hstore & Hfacts).
  rewrite Hstore, length_fmap. split; [symmetry; by eapply Forall2_length|].
  intros i c Hi. apply list_lookup_fmap_Some in Hi as (n & -> & Hn).
  destruct (Hfacts i n Hn) as (Hvb & _).
  apply validate_branchset_Ok in Hvb. unfold cell_of. simpl.
  destruct (odict_get (attrib n) "uncertaintyType") as [u|]; simpl.
  - destruct Hvb as [[-> [= ->]]|(Hi & Hs & Hg)].
    + split; [done|]. discriminate.
    + split; [|congruence]. split; [congruence|done].
  - destruct Hvb as [[_ [=]]|(Hi & _ & _)].
    split; [|discriminate]. split; [discriminate|done].
Qed.

Lemma constructed_kinds_witness :
  ∃ st,
    Construction.__init__ (W := example_world) (H := example_paths)
      "/job/logic_tree.xml" 0 0 (Some selective_document) = Ok st
    ∧ length (Construction.store st) = length selective_document
    ∧ ∀ i c, Construction.store st !! i = Some c →
        (Construction.c_uncertainty_type c = "sourceModel" ↔ i = 0%nat)
        ∧ Construction.c_uncertainty_type c ≠ "gmpeModel".
Proof.
  destruct (Construction.__init__ (W := example_world) (H := example_paths)
              "/job/logic_tree.xml" 0 0 (Some selective_document))
    as [st|e] eqn:E.
  - exists st. split; [reflexivity|].
    exact (constructed_kinds (W := example_world) (P := example_paths)
             _ _ _ _ _ E).
  - vm_compute in E. discriminate E.
Defined.

(** X2.  In a tree that the constructor accepts the keys of the branch
    dictionary are the branch ids of the document, in the order of the
    document, and no id occurs twice: a branch id is unique in the
    whole tree, not only in its branch set. *)
Theorem constructed_branch_ids `{W : World} `{P : OsPath}
    (filename : string) (seed num_samples : Z)
    (tree : list sm_level_node) (st : Construction.state) :
  Construction.__init__ filename seed num_samples (Some tree) = Ok st →
  (SourceModelLogicTree.branches (Construction.self st)).*1 = document_ids tree
  ∧ NoDup (document_ids tree)
  ∧ Forall (fun kb => Branch.branch_id (snd kb) = fst kb)
           (SourceModelLogicTree.branches (Construction.self st)).
Proof.
  intros H. apply init_Ok in H as (Hc & bsnodes & Hall & Hstore & _).
  destruct Hc as (Hnd & Hkeys & Hfields & _).
  assert (Hdoc : (SourceModelLogicTree.branches (Construction.self st)).*1
                 = document_ids tree).
  { rewrite Hkeys, Hstore. unfold document_ids. clear -Hall.
    induction Hall as [|l n tree bsnodes Hl _ IH]; csimpl; [done|].
    rewrite Hl, IH. simpl. by rewrite app_nil_r. }
  split; [done|]. split; [by rewrite <- Hdoc|].
  eapply Forall_impl; [exact Hfields|]. by intros kb [? _].
Qed.

Lemma constructed_branch_ids_witness :
  ∃ st,
    Construction.__init__ (W := example_world) (H := example_paths)
      "/job/logic_tree.xml" 0 0 (Some selective_document) = Ok st
    ∧ (SourceModelLogicTree.branches (Construction.self st)).*1
      = document_ids selective_document
    ∧ NoDup (document_ids selective_document)
    ∧ Forall (fun kb => Branch.branch_id (snd kb) = fst kb)
             (SourceModelLogicTree.branches (Construction.self st)).
Proof.
  destruct (Construction.__init__ (W := example_world) (H := example_paths)
              "/job/logic_tree.xml" 0 0 (Some selective_document))
    as [st|e] eqn:E.
  - exists st. split; [reflexivity|].
    exact (constructed_branch_ids (W := example_world) (P := example_paths)
             _ _ _ _ _ E).
  - vm_compute in E. discriminate E.
Defined.

(** X3.  In a tree that the constructor accepts the weights of the
    branches of every branch set sum to one within the tolerance. *)
Theorem constructed_weights `{W : World} `{P : OsPath}
    (filename : string) (seed num_samples : Z)
    (tree : list sm_level_node) (st : Construction.state) :
  Construction.__init__ filename seed num_samples (Some tree) = Ok st →
  ∀ c, c ∈ Construction.store st →
    ∃ ws, cell_weights st c = Some ws ∧ abs (fsum ws - 1) <= PRECISION.
Proof.
  intros H. apply init_Ok in H as (Hc & bsnodes & Hall & Hstore & Hfacts).
  destruct Hc as (Hnd & _).
  intros c Hin. rewrite Hstore in Hin.
  apply list_elem_of_fmap in Hin as (n & -> & Hn).
  apply list_elem_of_lookup in Hn as [i Hi].
  destruct (Hfacts i n Hi) as (_ & Hw & (bsid & new & Hnew & Hdict) & _).
  pose proof (mapM_created _ _ _ _ Hnew) as (Hids & Hws & _).
  exists (uncertaintyWeight <$> nodes n). split.
  - unfold cell_weights, cell_of. simpl. rewrite <- Hids, <- Hws.
    apply mapM_Some. apply Forall2_fmap_l, Forall2_fmap_r.
    apply Forall_Forall2_diag, Forall_forall. intros br Hbr. simpl.
    by rewrite (odict_get_elem _ _ br Hnd (Hdict br Hbr)).
  - unfold weights_off in Hw. by apply Qcnot_lt_le.
Qed.

Lemma constructed_weights_witness :
  ∃ st,
    Construction.__init__ (W := example_world) (H := example_paths)
      "/job/logic_tree.xml" 0 0 (Some selective_document) = Ok st
    ∧ ∀ c, c ∈ Construction.store st →
        ∃ ws, cell_weights st c = Some ws ∧ abs (fsum ws - 1) <= PRECISION.
Proof.
  destruct (Construction.__init__ (W := example_world) (H := example_paths)
              "/job/logic_tree.xml" 0 0 (Some selective_document))
    as [st|e] eqn:E.
  - exists st. split; [reflexivity|].
    exact (constructed_weights (W := example_world) (P := example_paths)
             _ _ _ _ _ E).
  - vm_compute in E. discriminate E.
Defined.

(** X4.  After construction [num_paths] is the product of the numbers
    of branches that the children of [logicTree] declare, whatever
    [applyToBranches] says; it is not set for a document without
    branch sets. *)
Theorem constructed_num_paths `{W : World} `{P : OsPath}
    (filename : string) (seed num_samples : Z)
    (tree : list sm_level_node) (st : Construction.state) :
  Construction.__init__ filename seed num_samples (Some tree) = Ok st →
  Construction.num_paths st
  = match tree with
    | [] => None
    | _ => Some (product (level_size <$> tree))
    end.
Proof.
  intros H. apply init_Ok in H as (Hc & bsnodes & Hall & Hstore & _).
  destruct Hc as (_ & _ & _ & _ & _ & Hnum & _). rewrite Hnum.
  unfold branch_counts. rewrite Hstore.
  assert (Hsizes : (fun c => length (Construction.c_branches c))
                     <$> (cell_of <$> bsnodes) = level_size <$> tree).
  { clear -Hall. induction Hall as [|l n tree bsnodes Hl _ IH]; csimpl; [done|].
    rewrite IH. f_equal. unfold level_size. rewrite Hl. simpl.
    by rewrite app_nil_r, length_fmap. }
  rewrite Hsizes. destruct Hall; done.
Qed.

Lemma constructed_num_paths_witness :
  ∃ st,
    Construction.__init__ (W := example_world) (H := example_paths)
      "/job/logic_tree.xml" 0 0 (Some selective_document) = Ok st
    ∧ Construction.num_paths st = Some 8%nat.
Proof.
  destruct (Construction.__init__ (W := example_world) (H := example_paths)
              "/job/logic_tree.xml" 0 0 (Some selective_document))
    as [st|e] eqn:E.
  - exists st. split; [reflexivity|].
    exact (constructed_num_paths (W := example_world) (P := example_paths)
             _ _ _ _ _ E).
  - vm_compute in E. discriminate E.
Defined.

(** X5.  In a tree that the constructor accepts every branch set has at
    most one filter, and the filter names a tectonic region type, a
    source type or source ids that the source models scanned during the
    construction define. *)
Theorem constructed_filters_known `{W : World} `{P : OsPath}
    (filename : string) (seed num_samples : Z)
    (tree : list sm_level_node) (st : Construction.state) :
  Construction.__init__ filename seed num_samples (Some tree) = Ok st →
  ∀ c, c ∈ Construction.store st →
    (length (Construction.c_filters c) <= 1)%nat
    ∧ Forall (known_filter (Construction.self st)) (Construction.c_filters c).
Proof.
  intros H. apply init_Ok in H as (_ & bsnodes & _ & Hstore & Hfacts).
  intros c Hin. rewrite Hstore in Hin.
  apply list_elem_of_fmap in Hin as (n & -> & Hn).
  apply list_elem_of_lookup in Hn as [i Hi].
  destruct (Hfacts i n Hi) as (_ & _ & _ & Hknown & Hlen). done.
Qed.

Lemma constructed_filters_known_witness :
  ∃ st,
    Construction.__init__ (W := example_world) (H := example_paths)
      "/job/logic_tree.xml" 0 0 (Some selective_document) = Ok st
    ∧ ∀ c, c ∈ Construction.store st →
        (length (Construction.c_filters c) <= 1)%nat
        ∧ Forall (known_filter (Construction.self st)) (Construction.c_filters c).
Proof.
  destruct (Construction.__init__ (W := example_world) (H := example_paths)
              "/job/logic_tree.xml" 0 0 (Some selective_document))
    as [st|e] eqn:E.
  - exists st. split; [reflexivity|].
    exact (constructed_filters_known (W := example_world) (P := example_paths)
             _ _ _ _ _ E).
  - vm_compute in E. discriminate E.
Defined.

(** X6.  [apply_branchset] attaches the branch set to every branch
    listed in [applyToBranches], and changes no other branch, when each
    listed branch is in the dictionary, has no child yet and is listed
    once; in every other case it raises. *)
Theorem apply_branchset_spec (s : SourceModelLogicTree.t)
    (child : gmap string nat) (apply_to_branches : string) (branchset : nat) :
  match Construction.apply_branchset s child apply_to_branches branchset with
  | Ok child' =>
      NoDup (split apply_to_branches)
      ∧ (∀ branch_id, branch_id ∈ split apply_to_branches →
           branch_id ∈ (SourceModelLogicTree.branches s).*1
           ∧ child !! branch_id = None)
      ∧ ∀ k, child' !! k
             = if decide (k ∈ split apply_to_branches)
               then Some branchset else child !! k
  | Err _ =>
      ¬ (NoDup (split apply_to_branches)
         ∧ ∀ branch_id, branch_id ∈ split apply_to_branches →
             branch_id ∈ (SourceModelLogicTree.branches s).*1
             ∧ child !! branch_id = None)
  end.
Proof.
  unfold Construction.apply_branchset.
  pose proof (apply_branchset_loop_spec s (split apply_to_branches)
                branchset child) as H.
  destruct (Construction.apply_branchset_loop _ _ _ _) as [child'|e]; [|done].
  destruct H as (Hnd & Hall & ->). split; [done|]. split; [done|].
  intros k. apply attach_to_previous_lookup.
Qed.

Lemma NoDup_concat_lookup {A : Type} (ls : list (list A)) (i j : nat)
    (a b : list A) (x : A) :
  NoDup (concat ls) → ls !! i = Some a → ls !! j = Some b →
  x ∈ a → x ∈ b → i = j.
Proof.
  revert i j. induction ls as [|l ls IH]; intros i j Hnd Hi Hj Ha Hb;
    [by rewrite lookup_nil in Hi|].
  simpl in Hnd. apply NoDup_app in Hnd as (_ & Hdisj & Hnd).
  destruct i as [|i], j as [|j]; simpl in Hi, Hj; [done| | |].
  - injection Hi as <-. exfalso. apply (Hdisj x Ha).
    apply elem_of_concat. exists b. split; [done|].
    by eapply list_elem_of_lookup_2.
  - injection Hj as <-. exfalso. apply (Hdisj x Hb).
    apply elem_of_concat. exists a. split; [done|].
    by eapply list_elem_of_lookup_2.
  - f_equal. by apply IH.
Qed.

Lemma dfs_count_uniform (brs : list Branch) (child : option BranchSet) ut fs :
  Forall (fun b => Branch.bset b = child) brs →
  length (dfs_paths (mkBranchSet ut fs brs))
  = (length brs * from_option (fun t => length (dfs_paths t)) 1 child)%nat.
Proof.
  simpl. induction 1 as [|b brs Hb _ IH]; simpl; [done|].
  rewrite length_app, IH, Hb.
  destruct child; simpl; [by rewrite length_map|lia].
Qed.

Lemma mapM_uniform {A : Type} (f : A → option Branch) (l : list A)
    (child : option BranchSet) :
  (∀ x, x ∈ l → ∃ b, f x = Some b ∧ Branch.bset b = child) →
  ∃ brs, mapM f l = Some brs ∧ length brs = length l
         ∧ Forall (fun b => Branch.bset b = child) brs.
Proof.
  induction l as [|x l IH]; intros H.
  - exists []. by repeat split.
  - destruct (H x) as (b & Hb & Hc); [by left|].
    destruct IH as (brs & Hbrs & Hlen & Hall); [intros y Hy; apply H; by right|].
    exists (b :: brs). split.
    + apply mapM_Some. constructor; [done|]. by apply mapM_Some.
    + split; [simpl; by rewrite Hlen|by constructor].
Qed.

Section chain.
Context `{W : World}.

Lemma parse_branchset_chained (st st' : Construction.state)
    (branchset_node : BranchSetNode) (depth : nat) :
  consistent st → chained st → no_applyToBranches branchset_node →
  Construction.parse_branchset st branchset_node depth = Ok st' →
  chained st'.
Proof.
  intros Hc Hch Hno H.
  pose proof Hc as (Hnd & Hkeys & Hfields & Hchild & Hroot & Hnum & Hprev).
  pose proof (parse_branchset_fresh _ _ _ _ Hnd H) as Hfresh.
  apply parse_branchset_Ok in H
    as (bsid & new & Hid & Hvf & Hvb & Hnew & Hd & Hg & Hw & Hstore & Hp
        & Hinfo & Hattach).
  assert (Hch' : Construction.child st'
                 = Construction.attach_to_previous (Construction.child st)
                     (Construction.previous_branches st)
                     (length (Construction.store st))).
  { destruct (Construction.root_branchset st) as [r|] eqn:Er.
    - destruct Hattach as (_ & _ & Hatt).
      destruct Hno as [Hno|Hno]; rewrite Hno in Hatt; [done|].
      by rewrite bool_decide_true in Hatt.
    - destruct Hattach as (_ & -> & _). rewrite Hroot in Er.
      rewrite Hprev. by destruct (Construction.store st). }
  intros i c branch_id Hi Hin. rewrite Hch', attach_to_previous_lookup.
  rewrite Hstore, length_app. simpl.
  rewrite Hstore in Hi.
  apply NoDup_app in Hfresh as (_ & Hdisj & _).
  assert (Hprev_keys : ∀ x, x ∈ Construction.previous_branches st →
            ∃ c0, last (Construction.store st) = Some c0
                  ∧ x ∈ Construction.c_branches c0).
  { intros x Hx. rewrite Hprev in Hx.
    destruct (last (Construction.store st)) as [c0|]; simpl in Hx;
      [eauto|by apply elem_of_nil in Hx]. }
  destruct (decide (i < length (Construction.store st))%nat) as [Hlt|Hge].
  - rewrite lookup_app_l in Hi by done.
    destruct (decide (branch_id ∈ Construction.previous_branches st))
      as [Hp'|Hp'].
    + destruct (Hprev_keys _ Hp') as (c0 & Hl & Hc0).
      rewrite last_lookup in Hl.
      assert (i = pred (length (Construction.store st))) as ->.
      { eapply (NoDup_concat_lookup
                  (Construction.c_branches <$> Construction.store st)
                  _ _ (Construction.c_branches c) (Construction.c_branches c0)
                  branch_id).
        - by rewrite <- Hkeys.
        - by rewrite list_lookup_fmap, Hi.
        - by rewrite list_lookup_fmap, Hl.
        - done.
        - done. }
      rewrite decide_True by lia. f_equal. lia.
    + rewrite (Hch i c branch_id Hi Hin).
      assert (i ≠ pred (length (Construction.store st))).
      { intros ->. apply Hp'. rewrite Hprev, last_lookup, Hi. done. }
      rewrite !decide_True by lia. done.
  - pose proof (lookup_lt_Some _ _ _ Hi) as Hi'. rewrite length_app in Hi'.
    simpl in Hi'. assert (i = length (Construction.store st)) as -> by lia.
    rewrite list_lookup_middle in Hi by done. injection Hi as <-.
    unfold cell_of in Hin. simpl in Hin.
    assert (Hnew_key : branch_id
                       ∉ (SourceModelLogicTree.branches (Construction.self st)).*1).
    { intros Hk. by apply (Hdisj branch_id Hk). }
    rewrite decide_False.
    + rewrite decide_False by lia.
      destruct (Construction.child st !! branch_id) as [a|] eqn:Ea; [|done].
      destruct (Hchild _ _ Ea) as [Hk _]. done.
    + intros Hp'. destruct (Hprev_keys _ Hp') as (c0 & Hl & Hc0).
      apply Hnew_key. rewrite Hkeys. apply elem_of_concat.
      exists (Construction.c_branches c0). split; [done|].
      apply list_elem_of_fmap. exists c0. split; [done|].
      rewrite last_lookup in Hl. by eapply list_elem_of_lookup_2.
Qed.

Lemma parse_levels_chained (levels : list sm_level_node) :
  ∀ st depth st',
    consistent st → chained st →
    (∀ l n, l ∈ levels → n ∈ level_nodes l → no_applyToBranches n) →
    Construction.parse_levels st depth levels = Ok st' →
    chained st'.
Proof.
  induction levels as [|l rest IH]; intros st depth st' Hc Hch Hno H;
    simpl in H.
  - by injection H as <-.
  - inv_res H bsnodes Hbs. inv_res H n Hn. inv_res H st1 H1.
    destruct bsnodes as [|n0 [|? ?]]; try done. injection Hn as ->.
    apply sm_bsnodes_one in Hbs.
    assert (Hn : no_applyToBranches n).
    { apply (Hno l); [by left|]. rewrite Hbs. by left. }
    eapply (IH st1 (S depth)); [| | |exact H].
    + by eapply parse_branchset_consistent.
    + by eapply parse_branchset_chained.
    + intros l' n' Hl'. apply Hno. by right.
Qed.

End chain.

(** The tree below a branch set of a chained store, and the number of
    its paths. *)
Lemma chained_tree (st : Construction.state) :
  consistent st → chained st →
  ∀ fuel i,
    (i < length (Construction.store st))%nat →
    (length (Construction.store st) - i <= fuel)%nat →
    ∃ t, Construction.tree_at fuel st i = Some t
         ∧ length (dfs_paths t) = product (drop i (branch_counts st)).
Proof.
  intros (Hnd & Hkeys & Hfields & Hchild & _) Hch.
  induction fuel as [|fuel IH]; intros i Hi Hf; [lia|].
  destruct (lookup_lt_is_Some_2 (Construction.store st) i Hi) as [c Hc].
  cbn [Construction.tree_at]. rewrite Hc. simpl.
  assert (Hdict : ∀ x, x ∈ Construction.c_branches c →
            ∃ b, odict_get (SourceModelLogicTree.branches (Construction.self st)) x
                 = Some b ∧ Branch.bset b = None).
  { intros x Hx.
    assert (Hk : x ∈ (SourceModelLogicTree.branches (Construction.self st)).*1).
    { rewrite Hkeys. apply elem_of_concat. exists (Construction.c_branches c).
      split; [done|]. apply list_elem_of_fmap. exists c. split; [done|].
      by eapply list_elem_of_lookup_2. }
    apply list_elem_of_fmap in Hk as ([k b] & -> & Hkb). exists b.
    split; [by apply odict_get_elem|].
    rewrite Forall_forall in Hfields. by destruct (Hfields _ Hkb). }
  assert (Hcount : branch_counts st !! i
                   = Some (length (Construction.c_branches c))).
  { unfold branch_counts. by rewrite list_lookup_fmap, Hc. }
  rewrite (drop_S _ _ _ Hcount). unfold product. cbn [foldr].
  fold (product (drop (S i) (branch_counts st))).
  destruct (decide (S i < length (Construction.store st))%nat) as [Hlt|Hge].
  - destruct (IH (S i) Hlt) as (t' & Ht' & Hn'); [lia|].
    destruct (mapM_uniform
                (fun branch_id =>
                   b ← odict_get (SourceModelLogicTree.branches
                                    (Construction.self st)) branch_id;
                   match Construction.child st !! branch_id with
                   | None => Some b
                   | Some a =>
                       t ← Construction.tree_at fuel st a;
                       Some (mkBranch (Branch.bs_id b) (Branch.branch_id b)
                                      (Branch.weight b) (Branch.value b)
                                      (Some t))
                   end)
                (Construction.c_branches c) (Some t'))
      as (brs & Hbrs & Hlen & Hall).
    { intros x Hx. destruct (Hdict x Hx) as (b & Hb & _). rewrite Hb. simpl.
      rewrite (Hch i c x Hc Hx), decide_True by done. rewrite Ht'. simpl.
      eauto. }
    rewrite Hbrs. simpl. eexists. split; [done|].
    rewrite (dfs_count_uniform _ _ _ _ Hall). simpl. by rewrite Hlen, Hn'.
  - destruct (mapM_uniform
                (fun branch_id =>
                   b ← odict_get (SourceModelLogicTree.branches
                                    (Construction.self st)) branch_id;
                   match Construction.child st !! branch_id with
                   | None => Some b
                   | Some a =>
                       t ← Construction.tree_at fuel st a;
                       Some (mkBranch (Branch.bs_id b) (Branch.branch_id b)
                                      (Branch.weight b) (Branch.value b)
                                      (Some t))
                   end)
                (Construction.c_branches c) None)
      as (brs & Hbrs & Hlen & Hall).
    { intros x Hx. destruct (Hdict x Hx) as (b & Hb & Hleaf). rewrite Hb. simpl.
      rewrite (Hch i c x Hc Hx), decide_False by done. eauto. }
    rewrite Hbrs. simpl. eexists. split; [done|].
    rewrite (dfs_count_uniform _ _ _ _ Hall). simpl.
    rewrite drop_ge; [by rewrite Hlen|].
    unfold branch_counts. rewrite length_fmap. lia.
Qed.

(** X7.  For a document in which no branch set has [applyToBranches],
    the constructor builds a tree, and the full enumeration of that
    tree yields exactly [num_paths] paths: the product of the numbers
    of branches of the levels. *)
Theorem chain_enumeration `{W : World} `{P : OsPath}
    (filename : string) (seed num_samples : Z)
    (tree : list sm_level_node) (st : Construction.state) :
  Construction.__init__ filename seed num_samples (Some tree) = Ok st →
  tree ≠ [] →
  (∀ l n, l ∈ tree → n ∈ level_nodes l → no_applyToBranches n) →
  ∃ self root,
    Construction.instance st = Some self
    ∧ SourceModelLogicTree.root_branchset self = Some root
    ∧ Construction.num_paths st = Some (product (level_size <$> tree))
    ∧ length (BranchSet.enumerate_paths root) = product (level_size <$> tree).
Proof.
  intros H Hne Hno.
  assert (Hchain : chained st).
  { unfold Construction.__init__, Construction.parse_tree in H.
    inv_res H i Hi.
    eapply parse_levels_chained; [| |exact Hno|exact H].
    - unfold consistent. simpl. repeat split; try done; try constructor.
      all: by rewrite lookup_empty in H0.
    - intros j c b Hj. simpl in Hj. by rewrite lookup_nil in Hj. }
  apply init_Ok in H as (Hc & bsnodes & Hall & Hstore & _).
  assert (Hsizes : branch_counts st = level_size <$> tree).
  { unfold branch_counts. rewrite Hstore. clear -Hall.
    induction Hall as [|l n tree bsnodes Hl _ IH]; csimpl; [done|].
    rewrite IH. f_equal. unfold level_size. rewrite Hl. simpl.
    by rewrite app_nil_r, length_fmap. }
  pose proof Hc as (Hnd & Hkeys & Hfields & Hchild & Hroot & Hnum & Hprev).
  assert (Hlen : (0 < length (Construction.store st))%nat).
  { rewrite Hstore, length_fmap, <- (Forall2_length _ _ _ Hall).
    destruct tree; [done|simpl; lia]. }
  destruct (chained_tree st Hc Hchain (S (length (Construction.store st))) 0
              Hlen) as (root & Hroot_tree & Hcount); [lia|].
  rewrite drop_0, Hsizes in Hcount.
  assert (Hbranches :
    ∃ brs, mapM (fun kb : string * Branch =>
                   match Construction.child st !! fst kb with
                   | None => Some kb
                   | Some a =>
                       t ← Construction.tree_at
                             (S (length (Construction.store st))) st a;
                       Some (fst kb,
                             mkBranch (Branch.bs_id (snd kb))
                                      (Branch.branch_id (snd kb))
                                      (Branch.weight (snd kb))
                                      (Branch.value (snd kb)) (Some t))
                   end)
                (SourceModelLogicTree.branches (Construction.self st))
           = Some brs).
  { apply (mapM_is_Some_2 _ _). apply Forall_forall. intros kb Hkb.
    unfold compose.
    destruct (Construction.child st !! fst kb) as [a|] eqn:Ea; [|done].
    destruct (Hchild _ _ Ea) as [_ Ha].
    destruct (chained_tree st Hc Hchain (S (length (Construction.store st))) a
                Ha) as (t & Ht & _); [lia|].
    rewrite Ht. done. }
  destruct Hbranches as [brs Hbrs].
  assert (Hr : Construction.root_branchset st = Some 0%nat).
  { rewrite Hroot. destruct (Construction.store st); [simpl in Hlen; lia|done]. }
  eexists _, root. split.
  { unfold Construction.instance. cbv zeta.
    rewrite Hr, Hroot_tree, Hbrs. reflexivity. }
  split; [done|]. split.
  { rewrite Hnum, Hsizes. destruct (Construction.store st);
      [simpl in Hlen; lia|done]. }
  by rewrite enumerate_paths_dfs, length_map.
Qed.

Lemma chain_enumeration_witness :
  ∃ st self root,
    Construction.__init__ (W := example_world) (H := example_paths)
      "/job/logic_tree.xml" 0 0 (Some scenario_A_document) = Ok st
    ∧ Construction.instance st = Some self
    ∧ SourceModelLogicTree.root_branchset self = Some root
    ∧ Construction.num_paths st = Some 4%nat
    ∧ length (BranchSet.enumerate_paths root) = 4%nat.
Proof.
  destruct (Construction.__init__ (W := example_world) (H := example_paths)
              "/job/logic_tree.xml" 0 0 (Some scenario_A_document))
    as [st|e] eqn:E.
  - destruct (chain_enumeration (W := example_world) (P := example_paths)
                _ _ _ _ _ E) as (self & root & H).
    + discriminate.
    + intros l n Hl Hn. left.
      repeat (apply elem_of_cons in Hl as [->|Hl];
              [apply list_elem_of_singleton in Hn as ->; reflexivity|]).
      apply elem_of_nil in Hl. destruct Hl.
    + exists st, self, root. split; [reflexivity|exact H].
  - vm_compute in E. discriminate E.
Defined.

Lemma split_empty_string : split "" = [].
Proof. reflexivity. Qed.

(** X8.  [apply_branchset] does not require the listed branches to
    belong to an earlier branch set.  When [applyToBranches] names a
    branch of the branch set that is being parsed, the construction
    goes on, and that branch gets the branch set it belongs to as its
    child: the objects then hold a cycle and are not a tree. *)
Theorem branch_set_under_own_branch `{W : World}
    (st st' : Construction.state) (branchset_node : BranchSetNode)
    (depth : nat) (apply_to_branches b : string) :
  Construction.parse_branchset st branchset_node depth = Ok st' →
  Construction.root_branchset st ≠ None →
  odict_get (attrib branchset_node) "applyToBranches" = Some apply_to_branches →
  b ∈ split apply_to_branches →
  b ∈ branchID <$> nodes branchset_node →
  Construction.store st' !! length (Construction.store st)
  = Some (cell_of branchset_node)
  ∧ b ∈ Construction.c_branches (cell_of branchset_node)
  ∧ Construction.child st' !! b = Some (length (Construction.store st))
  ∧ (∀ fuel, Construction.tree_at fuel st' (length (Construction.store st))
             = None)
  ∧ Construction.instance st' = None.
Proof.
  intros H Hroot Hatb Hb Hown.
  apply parse_branchset_Ok in H
    as (bsid & new & Hid & Hvf & Hvb & Hnew & Hd & Hg & Hw & Hstore & Hp
        & Hinfo & Hattach).
  destruct (Construction.root_branchset st) as [r|]; [|done].
  destruct Hattach as (_ & _ & Hch). rewrite Hatb in Hch.
  rewrite bool_decide_false in Hch.
  2:{ intros ->. rewrite split_empty_string in Hb. by apply elem_of_nil in Hb. }
  pose proof (apply_branchset_loop_spec (Construction.self st')
                (split apply_to_branches) (length (Construction.store st))
                (Construction.child st)) as Hspec.
  unfold Construction.apply_branchset in Hch. rewrite Hch in Hspec.
  destruct Hspec as (_ & Hall & Hchild).
  assert (Hcell : Construction.store st' !! length (Construction.store st)
                  = Some (cell_of branchset_node)).
  { rewrite Hstore. by apply list_lookup_middle. }
  assert (Hptr : Construction.child st' !! b
                 = Some (length (Construction.store st))).
  { rewrite Hchild, attach_to_previous_lookup. by rewrite decide_True. }
  assert (Hloop : ∀ fuel, Construction.tree_at fuel st'
                            (length (Construction.store st)) = None).
  { induction fuel as [|fuel IH]; [done|].
    cbn [Construction.tree_at]. rewrite Hcell. simpl.
    match goal with
    | |- mapM ?f ?l ≫= _ = None => destruct (mapM f l) as [brs|] eqn:E
    end; [|done].
    exfalso. assert (Hsome : is_Some (mapM
      (fun branch_id =>
         b0 ← odict_get (SourceModelLogicTree.branches (Construction.self st'))
                        branch_id;
         match Construction.child st' !! branch_id with
         | None => Some b0
         | Some a =>
             t ← Construction.tree_at fuel st' a;
             Some (mkBranch (Branch.bs_id b0) (Branch.branch_id b0)
                            (Branch.weight b0) (Branch.value b0) (Some t))
         end) (branchID <$> nodes branchset_node))) by (rewrite E; eauto).
    apply mapM_is_Some_1 in Hsome. rewrite Forall_forall in Hsome.
    specialize (Hsome b Hown). unfold compose in Hsome.
    rewrite Hptr, IH in Hsome.
    destruct (odict_get _ b); simpl in Hsome; by destruct Hsome. }
  split; [done|]. split; [done|]. split; [done|]. split; [done|].
  unfold Construction.instance. cbv zeta.
  destruct (match Construction.root_branchset st' with
            | Some addr => _
            | None => _
            end) as [root|]; [|done].
  cbn [mbind option_bind].
  match goal with
  | |- mapM ?f ?l ≫= _ = None => destruct (mapM f l) as [brs|] eqn:E
  end; [|done].
  exfalso.
  destruct (Hall b Hb) as [Hkey _].
  apply list_elem_of_fmap in Hkey as ([k v] & -> & Hkv).
  assert (Hsome : is_Some (mapM
    (fun kb : string * Branch =>
       match Construction.child st' !! fst kb with
       | None => Some kb
       | Some a =>
           t ← Construction.tree_at (S (length (Construction.store st'))) st' a;
           Some (fst kb,
                 mkBranch (Branch.bs_id (snd kb)) (Branch.branch_id (snd kb))
                          (Branch.weight (snd kb)) (Branch.value (snd kb))
                          (Some t))
       end) (SourceModelLogicTree.branches (Construction.self st'))))
    by (rewrite E; eauto).
  apply mapM_is_Some_1 in Hsome. rewrite Forall_forall in Hsome.
  specialize (Hsome (k, v) Hkv). unfold compose in Hsome.
  cbn [fst snd] in Hsome, Hptr.
  rewrite Hptr, Hloop in Hsome. by destruct Hsome.
Qed.

Lemma branch_set_under_own_branch_witness :
  ∃ st',
    Construction.parse_branchset (W := example_world) after_first_level
      looping_node 1 = Ok st'
    ∧ Construction.child st' !! "M1" = Some 1%nat
    ∧ Construction.instance st' = None.
Proof.
  assert (Hb : "M1" ∈ split "A M1")
    by (apply (list_elem_of_lookup_2 _ 1%nat); reflexivity).
  assert (Hown : "M1" ∈ branchID <$> nodes looping_node)
    by (apply (list_elem_of_lookup_2 _ 0%nat); reflexivity).
  assert (Hroot : Construction.root_branchset after_first_level ≠ None)
    by (intros Hnone; discriminate Hnone).
  destruct (Construction.parse_branchset (W := example_world)
              after_first_level looping_node 1) as [st'|e] eqn:E.
  - exists st'. split; [reflexivity|].
    destruct (branch_set_under_own_branch (W := example_world)
                after_first_level st' looping_node 1 "A M1" "M1" E
                Hroot eq_refl Hb Hown)
      as (_ & _ & Hptr & _ & Hinst).
    split; [exact Hptr|exact Hinst].
  - vm_compute in E. discriminate E.
Defined.

(** ** Reducing and collapsing the ground-motion tree *)

(** X9.  [reduce] keeps the branches and their order and changes
    nothing but the flag [effective], which it computes afresh from the
    tectonic region type: a reduction overrides an earlier one and can
    make effective again a branch that the earlier one had switched
    off.  The set [{'*'}] asks for no reduction. *)
Theorem reduce_overrides (self : GsimLogicTree.t) (earlier trts : gset string) :
  trts ≠ {["*"]} →
  GsimLogicTree.reduce (GsimLogicTree.reduce self earlier) trts
  = GsimLogicTree.reduce self trts
  ∧ identity <$> GsimLogicTree.branches (GsimLogicTree.reduce self trts)
    = identity <$> GsimLogicTree.branches self
  ∧ effective <$> GsimLogicTree.branches (GsimLogicTree.reduce self trts)
    = (fun b => bool_decide (trt b ∈ trts)) <$> GsimLogicTree.branches self
  ∧ GsimLogicTree.reduce self {["*"]} = self.
Proof.
  intros Hne. unfold GsimLogicTree.reduce.
  rewrite (bool_decide_true (trts ≠ {["*"]})) by done.
  rewrite (bool_decide_false ({["*"]} ≠ {["*"]})) by (intros H; by apply H).
  split.
  { case_bool_decide; [|done]. simpl. f_equal. rewrite map_map. done. }
  simpl. split; [|split; [|done]].
  - rewrite <- list_fmap_compose. done.
  - rewrite <- list_fmap_compose. done.
Qed.

Lemma reduce_overrides_witness :
  GsimLogicTree.reduce (GsimLogicTree.reduce scenario_C {["Stable"]})
                       {["Active"]}
  = GsimLogicTree.reduce scenario_C {["Active"]}
  ∧ effective <$> GsimLogicTree.branches
                    (GsimLogicTree.reduce scenario_C {["Active"]})
    = (fun b => bool_decide (trt b ∈ ({["Active"]} : gset string)))
        <$> GsimLogicTree.branches scenario_C.
Proof.
  assert (Hne : ({["Active"]} : gset string) ≠ {["*"]}).
  { intros H. assert (Hin : "Active" ∈ ({["*"]} : gset string))
      by (rewrite <- H; by apply elem_of_singleton).
    apply elem_of_singleton in Hin. discriminate Hin. }
  destruct (reduce_overrides scenario_C {["Stable"]} {["Active"]} Hne)
    as (H1 & _ & H3 & _).
  split; [exact H1|exact H3].
Defined.

Section groupby_runs.
Context {A K : Type} `{EqDecision K} (key : A → K).

Lemma groupby_groups (l : list A) :
  Forall (fun kg => snd kg ≠ [] ∧ Forall (fun x => key x = fst kg) (snd kg))
         (groupby key l).
Proof.
  induction l as [|x l IH]; csimpl; [constructor|].
  destruct (groupby key l) as [|[k g] r].
  - constructor; [|constructor]. simpl. split; [done|]. by constructor.
  - apply Forall_cons in IH as [[Hne Hall] IH]. simpl in *.
    case_decide as Hk.
    + constructor; [|done]. simpl. split; [done|]. by constructor.
    + constructor; [|by constructor]. simpl. split; [done|]. by constructor.
Qed.

Lemma groupby_keys_no_repeat (l : list A) : no_repeat (groupby key l).*1.
Proof.
  induction l as [|x l IH]; csimpl; [done|].
  destruct (groupby key l) as [|[k g] r]; csimpl in *; [done|].
  case_decide as Hk; csimpl; [done|]. split; [done|]. done.
Qed.

Lemma groupby_singletons (l : list A) :
  no_repeat (key <$> l) → groupby key l = (fun x => (key x, [x])) <$> l.
Proof.
  induction l as [|x l IH]; csimpl; [done|].
  intros [Hx Hl]. rewrite (IH Hl).
  destruct l as [|y l]; csimpl; [done|].
  by rewrite decide_False.
Qed.

End groupby_runs.

Lemma collapse_group_one (self : GsimLogicTree.t) branchset_ids k g out :
  g ≠ [] → Forall (fun x => trt x = k) g →
  GsimLogicTree.collapse_group self branchset_ids k g = Some out →
  ∃ b, out = [b] ∧ trt b = k
       ∧ is_Some (odict_get (GsimLogicTree.bs_id_by_trt self) (Some k)).
Proof.
  intros Hne Hall. unfold GsimLogicTree.collapse_group.
  destruct (odict_get _ (Some k)) as [bs_id|]; simpl; [|done].
  destruct (bool_decide _ && bool_decide _).
  - destruct (mapM _ _); simpl; [|done].
    destruct (ImtWeight.sum _) as [[tot|x]|]; simpl; try done.
    intros [= <-]. eexists. split; [done|]. split; [done|eauto].
  - destruct (last g) as [b|] eqn:El; simpl; [|done].
    intros [= <-]. exists b. split; [done|]. split; [|eauto].
    apply last_Some in El as [g' ->].
    apply Forall_app in Hall as [_ Hb]. by apply Forall_cons in Hb as [Hb _].
Qed.

(** X10.  [collapse] leaves exactly one branch per run of branches of
    the same tectonic region type, in the order of the runs; and it is
    idempotent: collapsing the result again, for whatever branch-set
    ids, returns the result unchanged. *)
Theorem collapse_idempotent (self new : GsimLogicTree.t)
    (branchset_ids : list string) :
  GsimLogicTree.collapse self branchset_ids = Some new →
  trt <$> GsimLogicTree.branches new
  = (groupby trt (GsimLogicTree.branches self)).*1
  ∧ ∀ again, GsimLogicTree.collapse new again = Some new.
Proof.
  unfold GsimLogicTree.collapse at 1. intros H.
  destruct (mapM _ _) as [outs|] eqn:E; simpl in H; [|done].
  injection H as <-.
  pose proof (groupby_groups trt (GsimLogicTree.branches self)) as Hgroups.
  pose proof (groupby_keys_no_repeat trt (GsimLogicTree.branches self)) as Hnr.
  apply mapM_Some in E.
  assert (Hshape :
    Forall2 (fun kg out => ∃ b, out = [b] ∧ trt b = fst kg
               ∧ is_Some (odict_get (GsimLogicTree.bs_id_by_trt self)
                                    (Some (fst kg))))
            (groupby trt (GsimLogicTree.branches self)) outs).
  { clear Hnr. revert Hgroups.
    induction E as [|[k g] out r outs Hout _ IH]; intros Hg; [constructor|].
    apply Forall_cons in Hg as [[Hne Hall] Hg].
    constructor; [by eapply collapse_group_one|by apply IH]. }
  clear E Hgroups. simpl.
  assert (Hkeys : trt <$> concat outs
                  = (groupby trt (GsimLogicTree.branches self)).*1).
  { clear Hnr. induction Hshape as [|[k g] out r outs (b & -> & Hb & _) _ IH];
      csimpl; [done|]. by rewrite IH, Hb. }
  split; [done|].
  intros again. unfold GsimLogicTree.collapse. simpl.
  rewrite groupby_singletons by (by rewrite Hkeys).
  assert (Hagain :
    mapM (fun g => GsimLogicTree.collapse_group
                     {| GsimLogicTree.filename := GsimLogicTree.filename self;
                        GsimLogicTree.values := GsimLogicTree.values self;
                        GsimLogicTree.bs_id_by_trt :=
                          GsimLogicTree.bs_id_by_trt self;
                        GsimLogicTree.branches := concat outs |}
                     again (fst g) (snd g))
         ((fun x => (trt x, [x])) <$> concat outs)
    = Some ((fun x => [x]) <$> concat outs)).
  { apply mapM_Some. apply Forall2_fmap_l, Forall2_fmap_r.
    apply Forall_Forall2_diag, Forall_forall. intros b Hb. simpl.
    assert (Hbs : is_Some (odict_get (GsimLogicTree.bs_id_by_trt self)
                                     (Some (trt b)))).
    { clear -Hshape Hb. induction Hshape as [|kg out r outs (b0 & -> & Hb0 & Hs) _ IH];
        simpl in Hb; [by apply elem_of_nil in Hb|].
      apply elem_of_cons in Hb as [->|Hb]; [by rewrite Hb0|by apply IH]. }
    destruct Hbs as [bs_id Hbs].
    rewrite (collapse_group_else _ again (trt b) [b] bs_id); [done|done|].
    simpl. lia. }
  rewrite Hagain. simpl. do 2 f_equal.
  clear. induction (concat outs) as [|x l IH]; csimpl; [done|]. by rewrite IH.
Qed.

Lemma collapse_idempotent_witness :
  ∃ new,
    GsimLogicTree.collapse scenario_C ["bs_active"] = Some new
    ∧ trt <$> GsimLogicTree.branches new = ["Active"; "Stable"]
    ∧ GsimLogicTree.collapse new [] = Some new.
Proof.
  destruct (GsimLogicTree.collapse scenario_C ["bs_active"]) as [new|] eqn:E.
  - exists new. split; [reflexivity|].
    destruct (collapse_idempotent scenario_C new ["bs_active"] E) as [H1 H2].
    split; [exact H1|exact (H2 [])].
  - vm_compute in E. discriminate E.
Defined.

(** ** Iterating over the ground-motion tree *)





Lemma times_weight (acc : ImtWeight.operand) (w : ImtWeight.t) (x y : Qc) :
  operand_weight acc = Some x →
  ImtWeight.dic w !! "weight" = Some y →
  ∃ acc', GsimIteration.times acc w = Some acc'
          ∧ operand_weight acc' = Some (x * y).
Proof.
  intros Hx Hy. destruct acc as [a|x0]; simpl in *.
  - destruct (dict_comp_is_Some
                (fun k (_ : ()) =>
                   a0 ← ImtWeight.__getitem__ a k;
                   b ← ImtWeight.__getitem__ w k; Some (a0 * b))
                (gset_to_gmap () (dom (ImtWeight.dic a) ∪ dom (ImtWeight.dic w))))
      as [d Hd].
    { intros k u _.
      destruct (getitem_is_Some a k) as [a0 ->]; [eauto|].
      destruct (getitem_is_Some w k) as [b ->]; [eauto|]. simpl. eauto. }
    rewrite Hd. simpl. eexists. split; [done|]. simpl.
    rewrite (dict_comp_lookup _ _ _ Hd "weight"), lookup_gset_to_gmap.
    rewrite option_guard_True.
    2:{ apply elem_of_union. left. apply elem_of_dom. eauto. }
    simpl. rewrite (getitem_present a _ _ Hx), (getitem_present w _ _ Hy).
    done.
  - injection Hx as ->. eexists. split; [done|]. simpl.
    rewrite lookup_fmap, Hy. simpl. f_equal. ring.
Qed.





(** ** Applying the uncertainties of a path *)

Lemma getitem_of_member (bs : BranchSet) (b : Branch) :
  NoDup (Branch.branch_id <$> BranchSet.branches bs) →
  b ∈ BranchSet.branches bs →
  BranchSetMethods.__getitem__ bs (Branch.branch_id b) = Ok b.
Proof.
  unfold BranchSetMethods.__getitem__. intros Hnd Hb.
  induction (BranchSet.branches bs) as [|x l IH]; [by apply elem_of_nil in Hb|].
  csimpl in *. apply NoDup_cons in Hnd as [Hx Hnd].
  case_decide as Hid.
  - apply elem_of_cons in Hb as [->|Hb]; [done|].
    exfalso. apply Hx. rewrite Hid. apply list_elem_of_fmap. by exists b.
  - apply elem_of_cons in Hb as [->|Hb]; [done|].
    specialize (IH Hnd Hb).
    destruct (list_find _ l) as [[i y]|]; simpl in *; [|done]. done.
Qed.

Lemma every_branchset_inv (P : BranchSet → bool) (root : BranchSet) :
  every_branchset P root = true →
  P root = true
  ∧ ∀ b child, b ∈ BranchSet.branches root → Branch.bset b = Some child →
               every_branchset P child = true.
Proof.
  destruct root as [ut fs brs]. simpl.
  intros [HP Hall]%andb_true_iff. split; [done|].
  intros b child Hb Hc. rewrite forallb_forall in Hall.
  apply list_elem_of_In in Hb. specialize (Hall b Hb). by rewrite Hc in Hall.
Qed.

Section walk_facts.
Context `{Src : Sources}.

(** X12.  In a tree whose branch ids are distinct within each branch
    set and which has no [extendModel] branch set, the path of every
    realization of the full enumeration can be walked by
    [apply_uncertainties]: the loop finds each branch, never runs out
    of ids, leaves the source groups as they are and records only
    values of branches of the path. *)
Theorem enumerated_path_walks (root : BranchSet) :
  every_branchset distinct_ids root = true →
  every_branchset no_extension root = true →
  ∀ p dirname base_ids src_groups acc,
    p ∈ dfs_paths root →
    ∃ found,
      Uncertainties.walk dirname base_ids (Some root)
        (Branch.branch_id <$> p) src_groups acc
      = Ok (src_groups, acc ++ found)
      ∧ Forall (fun bv => ∃ b, b ∈ p ∧ b ∈ BranchSet.branches (fst bv)
                               ∧ snd bv = Branch.value b) found.
Proof.
  induction root as [ut fs brs IH] using BranchSet_tree_ind.
  intros Hd He p dirname base_ids src_groups acc Hp.
  apply every_branchset_inv in Hd as [Hd Hdc].
  apply every_branchset_inv in He as [He Hec].
  unfold distinct_ids in Hd. apply bool_decide_eq_true in Hd.
  unfold no_extension in He. apply bool_decide_eq_true in He.
  simpl in Hp, Hd, He. apply list_elem_of_In, in_flat_map in Hp as (b & Hb & Hp).
  apply list_elem_of_In in Hb.
  rewrite Forall_forall in IH. specialize (IH b Hb).
  destruct (Branch.bset b) as [child|] eqn:Ec.
  - apply in_map_iff in Hp as (q & <- & Hq). apply list_elem_of_In in Hq.
    csimpl.
    rewrite (getitem_of_member (mkBranchSet ut fs brs) b Hd Hb). simpl.
    rewrite bool_decide_false by done.
    case_bool_decide as Hs; simpl; rewrite Ec.
    + destruct (IH child eq_refl (Hdc b child Hb Ec) (Hec b child Hb Ec)
                  q dirname base_ids src_groups
                  (acc ++ [(mkBranchSet ut fs brs, Branch.value b)]) Hq)
        as (found & -> & Hfound).
      exists ((mkBranchSet ut fs brs, Branch.value b) :: found).
      split; [by rewrite <- app_assoc|].
      constructor.
      * exists b. split; [by left|done].
      * eapply Forall_impl; [exact Hfound|].
        intros bv (b' & Hb' & Hrest). exists b'. split; [by right|done].
    + destruct (IH child eq_refl (Hdc b child Hb Ec) (Hec b child Hb Ec)
                  q dirname base_ids src_groups acc Hq)
        as (found & -> & Hfound).
      exists found. split; [done|].
      eapply Forall_impl; [exact Hfound|].
      intros bv (b' & Hb' & Hrest). exists b'. split; [by right|done].
  - destruct Hp as [<-|[]]. csimpl.
    rewrite (getitem_of_member (mkBranchSet ut fs brs) b Hd Hb). simpl.
    rewrite bool_decide_false by done.
    case_bool_decide as Hs; simpl; rewrite Ec.
    + exists [(mkBranchSet ut fs brs, Branch.value b)]. split; [done|].
      constructor; [|constructor]. exists b. split; [by left|done].
    + exists []. split; [by rewrite app_nil_r|constructor].
Qed.

End walk_facts.

Lemma enumerated_path_walks_witness :
  ∃ found,
    Uncertainties.walk (Src := example_sources) "/job" [] (Some scenario_A_root)
      ["B"; "M1"] [] []
    = Ok ([], found)
    ∧ Forall (fun bv => ∃ b, b ∈ [mkBranch "bs1" "B" (dec 4 10) "model_B.xml"
                                      (Some scenario_A_level2);
                                  mkBranch "bs2" "M1" (dec 5 10) "0.2" None]
                             ∧ b ∈ BranchSet.branches (fst bv)
                             ∧ snd bv = Branch.value b) found.
Proof.
  assert (Hd : every_branchset distinct_ids scenario_A_root = true)
    by (vm_compute; reflexivity).
  assert (He : every_branchset no_extension scenario_A_root = true)
    by (vm_compute; reflexivity).
  assert (Hp : [mkBranch "bs1" "B" (dec 4 10) "model_B.xml"
                  (Some scenario_A_level2);
                mkBranch "bs2" "M1" (dec 5 10) "0.2" None]
               ∈ dfs_paths scenario_A_root).
  { apply (list_elem_of_lookup_2 _ 2%nat). reflexivity. }
  exact (enumerated_path_walks (Src := example_sources) scenario_A_root Hd He
           _ "/job" [] [] [] Hp).
Defined.

Section scanned_types_facts.
Context `{W : World}.

Lemma scanned_types_refl (s : SourceModelLogicTree.t) : scanned_types s s.
Proof. intros t Ht. by left. Qed.

Lemma scanned_types_trans (s1 s2 s3 : SourceModelLogicTree.t) :
  scanned_types s1 s2 → scanned_types s2 s3 → scanned_types s1 s3.
Proof.
  intros H12 H23 t Ht. destruct (H23 t Ht) as [H2|H2]; [by apply H12|by right].
Qed.

Lemma collect_all_scanned (branch_id : string) (fnames : list string) :
  ∀ s s', SourceModelLogicTree.collect_all s branch_id fnames = Ok s' →
          scanned_types s s'.
Proof.
  induction fnames as [|fname rest IH]; intros s s' H; simpl in H.
  - injection H as <-. apply scanned_types_refl.
  - destruct (endswith fname ".xml" || endswith fname ".nrml"); [|by apply IH].
    unfold SourceModelLogicTree.collect_source_model_data in H.
    destruct (_get_source_model fname) as [xml|]; simpl in H; [|done].
    apply IH in H. eapply scanned_types_trans; [|exact H].
    intros t Ht. simpl in Ht. apply elem_of_union in Ht as [Ht|Ht]; [by left|].
    right. exists xml. by apply elem_of_list_to_set in Ht.
Qed.

Lemma parse_branch_loop_scanned (bs_id : string) (branches : list BranchNode) :
  ∀ st st',
    SourceModelLogicTree.parse_branch_loop bs_id st branches = Ok st' →
    scanned_types (SourceModelLogicTree.l_self st)
                  (SourceModelLogicTree.l_self st').
Proof.
  induction branches as [|b rest IH]; intros st st' H; csimpl in H.
  - injection H as <-. apply scanned_types_refl.
  - inv_res H st1 H1. apply IH in H.
    eapply scanned_types_trans; [|exact H]. clear H IH.
    unfold SourceModelLogicTree.parse_branch in H1.
    inv_res H1 s1 Hs1. inv_res H1 v Hv. inv_res H1 u Hu.
    injection H1 as <-. simpl.
    assert (Hs : scanned_types (SourceModelLogicTree.l_self st) s1).
    { case_bool_decide.
      - destruct (uncertaintyModel b); [|done].
        by apply collect_all_scanned in Hs1.
      - injection Hs1 as <-. apply scanned_types_refl. }
    intros t Ht. apply Hs. exact Ht.
Qed.

Lemma parse_branchset_scanned (st st' : Construction.state)
    (branchset_node : BranchSetNode) (depth : nat) :
  Construction.parse_branchset st branchset_node depth = Ok st' →
  scanned_types (Construction.self st) (Construction.self st').
Proof.
  unfold Construction.parse_branchset. intros H.
  inv_res H bsid Hid. inv_res H u Hvf. inv_res H u' Hvb.
  inv_res H parsed Hp. inv_res H attached Ha.
  destruct attached as [[np root] ch]. inv_res H n Hn.
  injection H as <-. simpl.
  apply lift_error_Ok in Hp. destruct parsed as [s1 bs1].
  unfold SourceModelLogicTree.parse_branches in Hp.
  inv_res Hp bs_id Hbs. inv_res Hp lst Hl. inv_res Hp u1 H1. inv_res Hp u2 H2.
  injection Hp as <- <-. apply parse_branch_loop_scanned in Hl. exact Hl.
Qed.

Lemma parse_levels_scanned (levels : list sm_level_node) :
  ∀ st depth st',
    Construction.parse_levels st depth levels = Ok st' →
    scanned_types (Construction.self st) (Construction.self st').
Proof.
  induction levels as [|l rest IH]; intros st depth st' H; simpl in H.
  - injection H as <-. apply scanned_types_refl.
  - inv_res H bsnodes Hbs. inv_res H n Hn. inv_res H st1 H1.
    apply parse_branchset_scanned in H1. apply IH in H.
    by eapply scanned_types_trans.
Qed.

End scanned_types_facts.

Lemma ends_with_Source_not_accepted (v : string) (k : SourceKind) :
  endswith v "Source" = true →
  BranchSetMethods.source_type_matches (FText v) k
  = Err (unknown_source_type_filter (FText v)).
Proof.
  intros Hend. unfold BranchSetMethods.source_type_matches.
  repeat (case_bool_decide as Hv;
          [injection Hv as ->; vm_compute in Hend; discriminate Hend
          |clear Hv]).
  done.
Qed.

(** X13.  The source types that the constructor records are the
    matches of [SOURCE_TYPE_REGEX], which end with [Source], and
    [validate_filters] accepts a filter [applyToSourceType] only if its
    value is one of them; [filter_source] knows the five names [area],
    [point], [simpleFault], [complexFault] and [characteristicFault].
    So on every branch set of a constructed tree that has such a
    filter, [filter_source] raises for every source. *)
Theorem source_type_filter_raises `{W : World} `{P : OsPath} `{Src : Sources}
    (filename : string) (seed num_samples : Z)
    (tree : list sm_level_node) (st : Construction.state)
    (c : Construction.cell) (v : string) :
  source_type_matches_end_with_Source W →
  Construction.__init__ filename seed num_samples (Some tree) = Ok st →
  c ∈ Construction.store st →
  ("applyToSourceType", FText v) ∈ Construction.c_filters c →
  endswith v "Source" = true
  ∧ ∀ (bs : BranchSet) (source : Source),
      BranchSet.filters bs = Construction.c_filters c →
      BranchSetMethods.filter_source bs source
      = Err (unknown_source_type_filter (FText v)).
Proof.
  intros Hregex H Hc Hf.
  assert (Hscan : ∀ t, t ∈ SourceModelLogicTree.source_types (Construction.self st)
                       → endswith t "Source" = true).
  { unfold Construction.__init__, Construction.parse_tree in H.
    inv_res H i Hi. apply parse_levels_scanned in H.
    intros t Ht. destruct (H t Ht) as [Ht'|[xml Hxml]].
    - simpl in Ht'. by apply elem_of_empty in Ht'.
    - by eapply Hregex. }
  apply init_Ok in H as (_ & bsnodes & _ & Hstore & Hfacts).
  rewrite Hstore in Hc.
  apply list_elem_of_fmap in Hc as (n & -> & Hn).
  apply list_elem_of_lookup in Hn as [i Hi].
  destruct (Hfacts i n Hi) as (_ & _ & _ & Hknown & Hlen).
  destruct (Construction.c_filters (cell_of n)) as [|f [|? ?]] eqn:Ef;
    [by apply elem_of_nil in Hf| |simpl in Hlen; lia].
  apply list_elem_of_singleton in Hf as <-.
  apply Forall_cons in Hknown as [Hknown _]. simpl in Hknown.
  destruct Hknown as [[[=] _]|[_ Hv]].
  specialize (Hscan v Hv). split; [done|].
  intros bs source Hbs. unfold BranchSetMethods.filter_source.
  rewrite Hbs. simpl.
  by rewrite ends_with_Source_not_accepted.
Qed.

Lemma source_type_filter_raises_witness :
  ∃ st c,
    Construction.__init__ (W := example_world) (H := example_paths)
      "/job/logic_tree.xml" 0 0 (Some typed_document) = Ok st
    ∧ Construction.store st !! 1%nat = Some c
    ∧ ∀ (bs : BranchSet) (source : Source (Sources := example_sources)),
        BranchSet.filters bs = Construction.c_filters c →
        BranchSetMethods.filter_source bs source
        = Err (unknown_source_type_filter (FText "areaSource")).
Proof.
  assert (Hregex : source_type_matches_end_with_Source example_world).
  { intros xml t Ht. simpl in Ht. apply list_elem_of_singleton in Ht as ->.
    reflexivity. }
  destruct (Construction.__init__ (W := example_world) (H := example_paths)
              "/job/logic_tree.xml" 0 0 (Some typed_document))
    as [st|e] eqn:E.
  - pose proof (init_Ok (W := example_world) (P := example_paths)
                  _ _ _ _ _ E) as (_ & bsnodes & Hall & Hstore & _).
    apply Forall2_cons_inv_l in Hall as (n1 & r1 & Hn1 & Hall & ->).
    apply Forall2_cons_inv_l in Hall as (n2 & r2 & Hn2 & Hall & ->).
    apply Forall2_nil_inv_l in Hall as ->.
    injection Hn1 as <-. injection Hn2 as <-.
    eexists st, _. split; [reflexivity|]. split; [by rewrite Hstore|].
    eapply (proj2 (source_type_filter_raises (W := example_world)
                     (P := example_paths) (Src := example_sources)
                     _ _ _ _ st _ "areaSource" Hregex E _ _)).
    Unshelve.
    + rewrite Hstore. apply (list_elem_of_lookup_2 _ 1%nat). reflexivity.
    + apply (list_elem_of_lookup_2 _ 0%nat). reflexivity.
  - vm_compute in E. discriminate E.
Defined.

Section apply_facts.
Context `{Src : Sources}.




End apply_facts.


(** ** The entry ['weight'] of a composite weight *)

Lemma foldl_insert_dom (entries : list (string * Qc)) :
  ∀ d : gmap string Qc,
    dom (foldl (fun d e => <[fst e := snd e]> d) d entries)
    = dom d ∪ list_to_set entries.*1.
Proof.
  induction entries as [|[k v] l IH]; intros d; csimpl.
  - by rewrite union_empty_r_L.
  - rewrite IH, dom_insert_L.
    by rewrite (union_comm_L {[k]} (dom d)), <- union_assoc_L.
Qed.

Lemma init_entries (rest : ImtWeight.weight_nodes) (entries : list (string * Qc)) :
  foldr (fun n acc =>
           let* acc := acc in
           match fst n with
           | Some imt => Ok ((imt, snd n) :: acc)
           | None => Err ImtWeight.weight_without_imt
           end) (Ok []) rest = Ok entries →
  entries.*1 = omap fst rest.
Proof.
  revert entries. induction rest as [|[[imt|] x] rest IH]; intros entries H;
    simpl in H.
  - by injection H as <-.
  - inv_res H acc Hacc. injection H as <-. csimpl. by rewrite (IH acc).
  - inv_res H acc Hacc. done.
Qed.

Lemma mul_keeps_weight (x y : ImtWeight.t) :
  has_plain_weight x → has_plain_weight y →
  ∃ z, ImtWeight.__mul__ x (ImtWeight.W y) = Some z ∧ has_plain_weight z.
Proof.
  intros [a Ha] [b Hb].
  destruct (times_weight (ImtWeight.W x) y a b Ha Hb) as (acc & Hacc & Hw).
  simpl in Hacc. apply fmap_Some in Hacc as (z & Hz & ->).
  exists z. split; [done|]. simpl in Hw. unfold has_plain_weight. eauto.
Qed.

Lemma add_keeps_weight (x y : ImtWeight.t) :
  has_plain_weight x → has_plain_weight y →
  ∃ z, ImtWeight.__add__ x (ImtWeight.W y) = Some z ∧ has_plain_weight z.
Proof.
  intros Hx Hy. destruct (add_is_Some x y Hy) as [z Hz].
  exists z. split; [done|]. apply add_spec in Hz as [Hdom _].
  unfold has_plain_weight in *. apply elem_of_dom. rewrite Hdom.
  by apply elem_of_dom.
Qed.

Lemma sum_keeps_weight (ws : list ImtWeight.t) (w : ImtWeight.t) :
  has_plain_weight w → Forall has_plain_weight ws →
  ∃ tot, ImtWeight.sum (w :: ws) = Some (ImtWeight.W tot)
         ∧ has_plain_weight tot
         ∧ dom (ImtWeight.dic tot) = dom (ImtWeight.dic w).
Proof.
  intros Hw Hall. unfold ImtWeight.sum. simpl.
  set (w0 := ImtWeight.mk ((fun v => v + 0) <$> ImtWeight.dic w)).
  assert (H0 : has_plain_weight w0
               ∧ dom (ImtWeight.dic w0) = dom (ImtWeight.dic w)).
  { unfold has_plain_weight, w0. simpl. rewrite lookup_fmap, dom_fmap_L.
    split; [|done]. destruct Hw as [a ->]. simpl. eauto. }
  clearbody w0. destruct H0 as [H0 Hd0]. rewrite <- Hd0. clear Hd0 Hw.
  revert w0 H0. induction Hall as [|y ws Hy _ IH]; intros w0 H0; simpl.
  - eauto.
  - destruct (add_keeps_weight w0 y H0 Hy) as (z & Hz & Hzw).
    pose proof (add_spec _ _ _ Hz) as [Hdom _].
    simpl in Hz. rewrite Hz. simpl. rewrite <- Hdom. by apply IH.
Qed.

(** X15.  A composite weight never lacks the entry ['weight'].  The
    constructor makes it, with one more entry per IMT; sums and
    products of weights that have it are defined and have it too; and
    the sum of a non-empty list of such weights is a weight with the
    keys of the first one.  So [KeyError] cannot come out of the
    arithmetic of constructed weights. *)
Theorem weight_entry_invariant :
  (∀ nodes w, ImtWeight.__init__ nodes = Ok w →
     has_plain_weight w
     ∧ dom (ImtWeight.dic w) = {["weight"]} ∪ list_to_set (imts_of nodes))
  ∧ (∀ x y, has_plain_weight x → has_plain_weight y →
       (∃ z, ImtWeight.__mul__ x (ImtWeight.W y) = Some z ∧ has_plain_weight z)
       ∧ (∃ z, ImtWeight.__add__ x (ImtWeight.W y) = Some z
               ∧ has_plain_weight z))
  ∧ (∀ w ws, has_plain_weight w → Forall has_plain_weight ws →
       ∃ tot, ImtWeight.sum (w :: ws) = Some (ImtWeight.W tot)
              ∧ has_plain_weight tot
              ∧ dom (ImtWeight.dic tot) = dom (ImtWeight.dic w)).
Proof.
  split; [|split].
  - intros nodes w H. unfold ImtWeight.__init__ in H.
    destruct nodes as [|[[imt|] x] rest]; try done.
    inv_res H entries He. inv_res H u Hu. injection H as <-. simpl.
    assert (Hdom : dom (foldl (fun d e => <[fst e := snd e]> d)
                              ({["weight" := x]} : gmap string Qc) entries)
                   = {["weight"]} ∪ list_to_set (imts_of ((None, x) :: rest))).
    { rewrite foldl_insert_dom, dom_singleton_L. unfold imts_of. simpl.
      by rewrite (init_entries _ _ He). }
    split; [|done]. unfold has_plain_weight. simpl.
    apply elem_of_dom. rewrite Hdom. apply elem_of_union. left.
    by apply elem_of_singleton.
  - intros x y Hx Hy. split; [by apply mul_keeps_weight|by apply add_keeps_weight].
  - intros w ws Hw Hall. by apply sum_keeps_weight.
Qed.

Lemma weight_entry_invariant_witness :
  ∃ w tot,
    ImtWeight.__init__ [(None, dec 5 10); (Some "PGA", dec 9 10)] = Ok w
    ∧ has_plain_weight w
    ∧ dom (ImtWeight.dic w) = {["weight"]} ∪ list_to_set ["PGA"]
    ∧ ImtWeight.sum [w; plain_half] = Some (ImtWeight.W tot)
    ∧ dom (ImtWeight.dic tot) = dom (ImtWeight.dic w).
Proof.
  assert (Hp : has_plain_weight plain_half) by (by eexists).
  destruct (ImtWeight.__init__ [(None, dec 5 10); (Some "PGA", dec 9 10)])
    as [w|e] eqn:E.
  - destruct weight_entry_invariant as (H1 & _ & H3).
    destruct (H1 _ _ E) as [Hw Hdom].
    destruct (H3 w [plain_half] Hw (Forall_cons_2 _ _ _ Hp (Forall_nil_2 _)))
      as (tot & Hsum & _ & Hd).
    exists w, tot. split; [reflexivity|]. split; [exact Hw|].
    split; [exact Hdom|]. split; [exact Hsum|exact Hd].
  - vm_compute in E. discriminate E.
Defined.



(** ** Effective realizations *)


Lemma fsum_concat (ls : list (list Qc)) : fsum (concat ls) = fsum (fsum <$> ls).
Proof.
  induction ls as [|l ls IH]; csimpl; [done|].
  by rewrite fsum_app, fsum_cons, IH.
Qed.

Section sorted_by_facts.
Context {A : Type} (key : A → string).

Lemma insert_by_Permutation (x : A) (l : list A) : insert_by key x l ≡ₚ x :: l.
Proof.
  induction l as [|y l IH]; simpl; [done|].
  destruct (String.leb (key x) (key y)); [done|].
  rewrite IH. apply Permutation_swap.
Qed.

Lemma sorted_by_Permutation (l : list A) : sorted_by key l ≡ₚ l.
Proof.
  induction l as [|x l IH]; simpl; [done|].
  by rewrite insert_by_Permutation, IH.
Qed.

Lemma insert_by_sorted (x : A) (l : list A) :
  StronglySorted (fun a b => str_le (key a) (key b)) l →
  StronglySorted (fun a b => str_le (key a) (key b)) (insert_by key x l).
Proof.
  induction 1 as [|y l Hs IH Hall]; simpl.
  - constructor; [constructor|constructor].
  - destruct (String.leb (key x) (key y)) eqn:E.
    + assert (Hxy : str_le (key x) (key y)) by (apply leb_str_le; by rewrite E).
      constructor; [by constructor|]. constructor; [done|].
      eapply Forall_impl; [exact Hall|]. intros z Hz. simpl in Hz.
      by eapply str_le_trans.
    + assert (Hyx : str_le (key y) (key x)).
      { destruct (String.leb_total (key x) (key y)) as [H|H];
          [congruence|]. apply leb_str_le. by rewrite H. }
      constructor; [done|].
      rewrite (insert_by_Permutation x l). by constructor.
Qed.

Lemma sorted_by_sorted (l : list A) :
  StronglySorted (fun a b => str_le (key a) (key b)) (sorted_by key l).
Proof.
  induction l as [|x l IH]; simpl; [constructor|]. by apply insert_by_sorted.
Qed.

(** In a list sorted by key each key makes one run. *)
Lemma sorted_keys_one_run (l : list A) :
  StronglySorted (fun a b => str_le (key a) (key b)) l →
  NoDup (groupby key l).*1.
Proof.
  induction 1 as [|x l Hss IH Hall]; csimpl; [constructor|].
  pose proof (groupby_keys key l) as Hkeys.
  destruct (groupby key l) as [|[k0 g0] r] eqn:E; [apply NoDup_singleton|].
  case_decide as Hk; [done|]. csimpl. constructor; [|done].
  intros Hin. apply Hkeys in Hin.
  apply list_elem_of_fmap in Hin as (y & Hy & Hyl).
  destruct (groupby_first key l k0 g0 r E) as (h & l' & -> & Hh).
  apply Forall_cons in Hall as [Hxh Hxl].
  apply StronglySorted_inv in Hss as [_ Hhl].
  apply Hk. rewrite <- Hh.
  apply elem_of_cons in Hyl as [->|Hyl]; [done|].
  rewrite Forall_forall in Hhl.
  apply str_le_antisym; [done|]. rewrite Hy. by apply Hhl.
Qed.

End sorted_by_facts.

Lemma effective_loop_spec (groups : list (string * list Realization.t)) :
  Forall (fun kg => snd kg ≠ []
                    ∧ Forall (fun r => RealizationMethods.pid r = fst kg) (snd kg))
         groups →
  ∀ ordinal,
    Realization.ordinal <$> effective_loop groups ordinal
    = Some <$> seq ordinal (length (effective_loop groups ordinal))
    ∧ Forall (fun r => ¬ empty_realization r ∧ (1 <= Realization.samples r)%nat)
             (effective_loop groups ordinal)
    ∧ sublist (RealizationMethods.pid <$> effective_loop groups ordinal)
              groups.*1
    ∧ (Forall (fun kg => Forall (fun r => ¬ empty_realization r) (snd kg)) groups →
       foldr (fun r n => (Realization.samples r + n)%nat) 0%nat
             (effective_loop groups ordinal)
       = length (concat groups.*2)
       ∧ fsum (Realization.weight <$> effective_loop groups ordinal)
         = fsum (Realization.weight <$> concat groups.*2)).
Proof.
  induction 1 as [|[k g] rest [Hne Hpid] _ IH]; intros ordinal; csimpl.
  - split; [done|]. split; [constructor|]. split; [constructor|]. done.
  - destruct g as [|rlz g]; [done|]. clear Hne. simpl in Hpid.
    apply Forall_cons in Hpid as [Hk Hpid].
    destruct (forallb _ (Realization.lt_path rlz)) eqn:Eall.
    + destruct (IH ordinal) as (Ho & Hf & Hs & Hsum).
      split; [done|]. split; [done|]. split; [by apply sublist_cons|].
      intros Hnone. apply Forall_cons in Hnone as [Hg _].
      apply Forall_cons in Hg as [Hrlz _]. exfalso. apply Hrlz.
      unfold empty_realization. apply Forall_forall. intros p Hp.
      rewrite forallb_forall in Eall. apply list_elem_of_In in Hp.
      specialize (Eall p Hp). by apply bool_decide_eq_true in Eall.
    + destruct (IH (S ordinal)) as (Ho & Hf & Hs & Hsum).
      csimpl. split; [by rewrite Ho|]. split.
      { constructor; [|done]. simpl. split; [|lia].
        unfold empty_realization. simpl. intros Hall.
        assert (forallb (fun path => bool_decide (path = "@"))
                        (Realization.lt_path rlz) = true); [|congruence].
        apply forallb_forall. intros p Hp. apply bool_decide_eq_true.
        rewrite Forall_forall in Hall. apply Hall. by apply list_elem_of_In. }
      split.
      { unfold RealizationMethods.pid at 1. simpl.
        fold (RealizationMethods.pid rlz). rewrite Hk. by apply sublist_skip. }
      intros Hnone. apply Forall_cons in Hnone as [_ Hnone].
      destruct (Hsum Hnone) as [Hn Hw]. simpl. split.
      * rewrite Hn, length_app. simpl. lia.
      * rewrite fsum_cons, Hw. rewrite !fmap_app, !fsum_cons, !fsum_app.
        ring.
Qed.

(** X17.  The effective realizations are numbered from 0 without gap,
    no two of them have the same path id, none of them is empty, and
    each stands for at least one realization. *)
Theorem effective_rlzs_numbered (rlzs : list Realization.t) :
  Realization.ordinal <$> get_effective_rlzs rlzs
  = Some <$> seq 0 (length (get_effective_rlzs rlzs))
  ∧ NoDup (RealizationMethods.pid <$> get_effective_rlzs rlzs)
  ∧ Forall (fun r => ¬ empty_realization r ∧ (1 <= Realization.samples r)%nat)
           (get_effective_rlzs rlzs)
  ∧ (length (get_effective_rlzs rlzs) <= length rlzs)%nat.
Proof.
  unfold get_effective_rlzs, groupby_sorted.
  pose proof (groupby_groups RealizationMethods.pid
                (sorted_by RealizationMethods.pid rlzs)) as Hg.
  destruct (effective_loop_spec _ Hg 0) as (Ho & Hf & Hs & _).
  split; [done|]. split.
  { eapply sublist_NoDup; [|exact Hs].
    apply sorted_keys_one_run, sorted_by_sorted. }
  split; [done|].
  apply sublist_length in Hs. rewrite !length_fmap in Hs.
  etrans; [exact Hs|].
  rewrite <- (Permutation_length (sorted_by_Permutation RealizationMethods.pid rlzs)).
  rewrite <- (groupby_concat RealizationMethods.pid
                (sorted_by RealizationMethods.pid rlzs)) at 2.
  clear -Hg. induction Hg as [|[k g] r [Hne _] _ IH]; csimpl; [done|].
  rewrite length_app. destruct g; [done|]. simpl. lia.
Qed.



(** ** The taxonomy mapping *)

Lemma leb_false_ne (a b : string) : String.leb a b = false → a ≠ b.
Proof.
  intros H ->. destruct (String.leb_total b b) as [H'|H']; congruence.
Qed.

Lemma insert_by_filter {A : Type} (key : A → string) (k : string) (x : A)
    (s : list A) :
  filter (fun y => key y = k) (insert_by key x s)
  = filter (fun y => key y = k) (x :: s).
Proof.
  induction s as [|y s IH]; simpl; [done|].
  destruct (String.leb (key x) (key y)) eqn:E; [done|].
  rewrite (filter_cons _ y), IH, !(filter_cons _ x), (filter_cons _ y).
  repeat case_decide; try done.
  exfalso. apply (leb_false_ne _ _ E). congruence.
Qed.

(** The sort is stable: the objects of one key keep their order. *)
Lemma sorted_by_stable {A : Type} (key : A → string) (k : string) (l : list A) :
  filter (fun x => key x = k) (sorted_by key l) = filter (fun x => key x = k) l.
Proof.
  induction l as [|x l IH]; [done|].
  cbn [sorted_by foldr]. fold (sorted_by key l).
  by rewrite insert_by_filter, !(filter_cons _ x), IH.
Qed.

Lemma groupby_sorted_lookup {A : Type} (key : A → string) (l : list A)
    (k : string) :
  k ∈ key <$> l →
  odict_get (groupby_sorted key l) k = Some (filter (fun x => key x = k) l).
Proof.
  intros Hk. unfold groupby_sorted.
  assert (Hnd : NoDup (groupby key (sorted_by key l)).*1)
    by apply sorted_keys_one_run, sorted_by_sorted.
  assert (Hin : k ∈ (groupby key (sorted_by key l)).*1).
  { apply groupby_keys. rewrite (sorted_by_Permutation key l). done. }
  apply list_elem_of_fmap in Hin as ([k' g] & -> & Hkg). cbn [fst].
  rewrite (odict_get_elem _ _ g Hnd Hkg). f_equal.
  rewrite <- (groupby_filter key _ Hnd _ _ Hkg).
  apply sorted_by_stable.
Qed.

Lemma mapping_loop_Ok (arr : list association) (taxonomies : list string) lst :
  Forall (fun taxo => taxo ∈ taxonomy <$> arr) taxonomies →
  mapping_loop (groupby_sorted taxonomy arr) taxonomies = Ok lst →
  lst = conversions_of arr <$> taxonomies
  ∧ Forall (fun taxo => abs (fsum ((conversions_of arr taxo).*2) - 1)
                        <= PRECISION) taxonomies.
Proof.
  revert lst. induction taxonomies as [|taxo rest IH]; intros lst Hall H;
    simpl in H.
  - injection H as <-. by split.
  - apply Forall_cons in Hall as [Htaxo Hall].
    rewrite (groupby_sorted_lookup taxonomy arr taxo Htaxo) in H. simpl in H.
    inv_res H u Hu. inv_res H lst' Hlst. injection H as <-.
    destruct (IH lst' Hall Hlst) as [-> Hsums]. split; [done|].
    constructor; [|done].
    apply raise_if_Ok, bool_decide_eq_false in Hu.
    unfold conversions_of. rewrite <- list_fmap_compose.
    by apply Qcnot_lt_le.
Qed.

(** X19.  With an association table, a successful [taxonomy_mapping]
    returns the table as it is and one list per taxonomy.  The first
    taxonomy is taken to be the placeholder and is never looked up: its
    list is [[("?", 1)]].  The list of every other taxonomy holds the
    records of that taxonomy in the order of the file, is not empty,
    and its weights sum to one within the tolerance. *)
Theorem taxonomy_mapping_spec (arr : list association)
    (taxonomies : list string) arr' lst :
  taxonomy_mapping (Some arr) taxonomies = Ok (arr', lst) →
  arr' = arr
  ∧ lst = [("?", 1)] :: (conversions_of arr <$> drop 1 taxonomies)
  ∧ Forall (fun taxo =>
              conversions_of arr taxo ≠ []
              ∧ abs (fsum ((conversions_of arr taxo).*2) - 1) <= PRECISION)
           (drop 1 taxonomies).
Proof.
  unfold taxonomy_mapping. intros H.
  inv_res H u Hu. inv_res H lst' Hlst. injection H as <- <-.
  apply raise_if_Ok, bool_decide_eq_false in Hu.
  assert (Hmissing : filter (fun taxo => taxo ∉ (groupby_sorted taxonomy arr).*1)
                            (remove_dups (drop 1 taxonomies)) = []).
  { destruct (filter _ _); [done|]. exfalso. by apply Hu. }
  assert (Hall : Forall (fun taxo => taxo ∈ taxonomy <$> arr)
                        (drop 1 taxonomies)).
  { apply Forall_forall. intros taxo Ht.
    destruct (decide (taxo ∈ (groupby_sorted taxonomy arr).*1)) as [Hin|Hnot].
    - unfold groupby_sorted in Hin.
      apply (groupby_keys taxonomy (sorted_by taxonomy arr) taxo) in Hin.
      by rewrite (sorted_by_Permutation taxonomy arr) in Hin.
    - exfalso. assert (Hf : taxo ∈ filter
                 (fun taxo => taxo ∉ (groupby_sorted taxonomy arr).*1)
                 (remove_dups (drop 1 taxonomies))).
      { apply list_elem_of_filter. split; [done|]. by apply elem_of_remove_dups. }
      rewrite Hmissing in Hf. by apply elem_of_nil in Hf. }
  destruct (mapping_loop_Ok arr _ _ Hall Hlst) as [-> Hsums].
  split; [done|]. split; [done|].
  apply Forall_forall. intros taxo Ht. rewrite Forall_forall in Hall, Hsums.
  split; [|by apply Hsums].
  specialize (Hall taxo Ht). apply list_elem_of_fmap in Hall as (r & -> & Hr).
  unfold conversions_of. intros Hnil. apply fmap_nil_inv in Hnil.
  assert (Hin : r ∈ filter (fun rec => taxonomy rec = taxonomy r) arr)
    by (by apply list_elem_of_filter).
  rewrite Hnil in Hin. by apply elem_of_nil in Hin.
Qed.

Lemma taxonomy_mapping_spec_witness :
  ∃ lst,
    taxonomy_mapping (Some example_associations) ["?"; "RC"; "MS"]
    = Ok (example_associations, lst)
    ∧ lst = [("?", 1)]
            :: (conversions_of example_associations <$> ["RC"; "MS"]).
Proof.
  destruct (taxonomy_mapping (Some example_associations) ["?"; "RC"; "MS"])
    as [[arr' lst]|e] eqn:E.
  - destruct (taxonomy_mapping_spec _ _ _ _ E) as (-> & Hlst & _).
    exists lst. split; [reflexivity|exact Hlst].
  - vm_compute in E. discriminate E.
Defined.

(** ** Group ids *)

(** X20.  The functions that [get_grp_id] and [get_trti_eri] return are
    inverse of one another on the realization indices below the number
    of effective realizations: the group id made of a tectonic region
    type and such an index is split back into the position of the
    region type and the index. *)
Theorem grp_id_round_trip `{G : numpy_random.Generator}
    (self : SourceModelLogicTree.t) (trts : list string)
    (g g1 g2 : numpy_random.state)
    (split_id : Z → option (Z * Z)) (grp_id : string → Z → option Z) :
  GroupIds.get_trti_eri self g = (Some split_id, g1) →
  GroupIds.get_grp_id self trts g = (Some grp_id, g2) →
  ∃ n rlzs,
    SourceModelLogicTree.__iter__ self g = (Some rlzs, g1)
    ∧ n = length (get_effective_rlzs rlzs)
    ∧ ∀ trt i eri,
        trti_of trts !! trt = Some i → (0 <= eri < Z.of_nat n)%Z →
        ∃ gid, grp_id trt eri = Some gid
               ∧ split_id gid = Some (Z.of_nat i, eri).
Proof.
  unfold GroupIds.get_trti_eri, GroupIds.get_grp_id,
    GroupIds.num_effective_rlzs, bind, ret.
  destruct (SourceModelLogicTree.__iter__ self g) as [[rlzs|] g'];
    [|intros [=]].
  intros [= <- <-] [= <- <-].
  exists (length (get_effective_rlzs rlzs)), rlzs.
  split; [done|]. split; [done|].
  intros trt i eri Hi Heri. rewrite Hi. simpl. eexists. split; [done|].
  rewrite decide_False by lia. do 2 f_equal.
  - symmetry. apply (Z.div_unique_pos _ _ _ eri); lia.
  - symmetry. apply (Z.mod_unique_pos _ _ (Z.of_nat i)); lia.
Qed.

Lemma grp_id_round_trip_witness :
  ∃ split_id grp_id,
    GroupIds.get_trti_eri (G := constant_generator) (scenario_A 0 0) 0%Z
    = (Some split_id, 0%Z)
    ∧ GroupIds.get_grp_id (G := constant_generator) (scenario_A 0 0)
        ["Active"; "Stable"] 0%Z
      = (Some grp_id, 0%Z)
    ∧ ∃ gid, grp_id "Stable" 3%Z = Some gid
             ∧ split_id gid = Some (1%Z, 3%Z).
Proof.
  assert (Hi : trti_of ["Active"; "Stable"] !! "Stable" = Some 1%nat)
    by (vm_compute; reflexivity).
  assert (Hiter : SourceModelLogicTree.__iter__ (G := constant_generator)
                    (scenario_A 0 0) 0%Z
                  = (Some (imap enumerated (dfs_paths scenario_A_root)), 0%Z))
    by exact (iter_enumerates (G := constant_generator) (scenario_A 0 0)
                scenario_A_root 0%Z eq_refl eq_refl).
  eexists _, _. split.
  { unfold GroupIds.get_trti_eri, GroupIds.num_effective_rlzs, bind, ret.
    rewrite Hiter. reflexivity. }
  split.
  { unfold GroupIds.get_grp_id, GroupIds.num_effective_rlzs, bind, ret.
    rewrite Hiter. reflexivity. }
  destruct (grp_id_round_trip (G := constant_generator) (scenario_A 0 0)
              ["Active"; "Stable"] 0%Z 0%Z 0%Z _ _
              ltac:(unfold GroupIds.get_trti_eri, GroupIds.num_effective_rlzs,
                      bind, ret; rewrite Hiter; reflexivity)
              ltac:(unfold GroupIds.get_grp_id, GroupIds.num_effective_rlzs,
                      bind, ret; rewrite Hiter; reflexivity))
    as (n & rlzs & Hit & -> & Hall).
  rewrite Hiter in Hit. injection Hit as <-.
  apply (Hall "Stable" 1%nat 3%Z Hi).
  split; [vm_compute; discriminate|vm_compute; reflexivity].
Defined.

(** ** Duplicates and the paths of the source models *)

#[local] Instance leb_total : Total (fun a b : string => Is_true (String.leb a b)).
Proof.
  intros a b. destruct (String.leb_total a b) as [-> | ->]; simpl; auto.
Qed.

#[local] Instance leb_transitive :
  Transitive (fun a b : string => Is_true (String.leb a b)).
Proof. intros a b c. rewrite !leb_str_le. apply str_le_trans. Qed.

Lemma merge_sort_leb_sorted (l : list string) :
  StronglySorted (fun a b => str_le a b) (merge_sort String.leb l).
Proof.
  assert (H : StronglySorted (fun a b : string => Is_true (String.leb a b))
                             (merge_sort String.leb l))
    by (apply StronglySorted_merge_sort; apply _).
  induction H as [|x s Hs IH Hall]; constructor; [done|].
  eapply Forall_impl; [exact Hall|]. intros y Hy. by apply leb_str_le.
Qed.

Lemma singleton_groups (gs : list (string * list string)) :
  Forall (fun kg => snd kg ≠ [] ∧ Forall (fun x => x = fst kg) (snd kg)) gs →
  omap (fun g => if bool_decide (1 < length (snd g))%nat
                 then Some (fst g) else None) gs = [] →
  concat gs.*2 = gs.*1.
Proof.
  induction 1 as [|[k g] gs [Hne Hall] _ IH]; csimpl; [done|].
  case_bool_decide as Hlen; [done|]. intros Hrest. rewrite (IH Hrest).
  destruct g as [|x [|y g]]; [done| |simpl in Hlen; lia]. simpl in Hall.
  apply Forall_cons in Hall as [Hx _]. by subst x.
Qed.

(** X21.  [unique] returns the objects as they are exactly when no
    object occurs twice; otherwise it raises, naming only objects of
    the list. *)
Theorem unique_iff_NoDup (objects : list string) :
  match unique (fun x => x) objects with
  | Ok out => out = objects ∧ NoDup objects
  | Err dupl => ¬ NoDup objects ∧ dupl ≠ []
                ∧ Forall (fun d => d ∈ objects) dupl
  end.
Proof.
  unfold unique.
  pose proof (groupby_groups (fun x : string => x)
                (merge_sort String.leb objects)) as Hg.
  pose proof (sorted_keys_one_run (fun x : string => x) _
                (merge_sort_leb_sorted objects)) as Hnd.
  pose proof (groupby_concat (fun x : string => x)
                (merge_sort String.leb objects)) as Hcat.
  pose proof (merge_sort_Permutation String.leb objects) as Hperm.
  case_bool_decide as Hd.
  - split; [|split; [done|]].
    + intros Hno. rewrite <- Hperm, <- Hcat in Hno. apply Hd. clear Hd Hnd Hcat.
      induction Hg as [|[k g] gs [Hne Hall] _ IH]; csimpl; [done|].
      simpl in Hno. apply NoDup_app in Hno as (Hg' & _ & Hrest).
      rewrite (IH Hrest). rewrite bool_decide_false; [done|].
      destruct g as [|x [|y g]]; simpl; [lia|lia|]. simpl in Hall.
      apply Forall_cons in Hall as [Hx Hall].
      apply Forall_cons in Hall as [Hy _]. subst x y.
      apply NoDup_cons in Hg' as [Hk _]. exfalso. apply Hk. by left.
    + apply Forall_forall. intros d Hdin.
      apply list_elem_of_omap in Hdin as ([k g] & Hkg & Hsome).
      simpl in Hsome. case_bool_decide; [|done]. injection Hsome as <-.
      rewrite <- Hperm.
      assert (Hin : k ∈ (fun x : string => x)
                          <$> merge_sort String.leb objects).
      { apply (groupby_keys (fun x : string => x)).
        apply list_elem_of_fmap. by exists (k, g). }
      by rewrite list_fmap_id in Hin.
  - split; [done|].
    rewrite <- Hperm, <- Hcat, (singleton_groups _ Hg Hd). done.
Qed.

Lemma foldl_rbind_Err {A B E : Type} (f : A → B → result E A) (e : E)
    (l : list B) :
  foldl (fun acc b => let* a := acc in f a b) (Err e) l = Err e.
Proof. induction l as [|x l IH]; simpl; [done|]. exact IH. Qed.

Lemma foldl_rbind_inv {A B E : Type} (f : A → B → result E A)
    (Inv : A → Prop) (l : list B) :
  (∀ a b a', Inv a → f a b = Ok a' → Inv a') →
  ∀ a0 a', Inv a0 →
    foldl (fun acc b => let* a := acc in f a b) (Ok a0) l = Ok a' → Inv a'.
Proof.
  intros Hstep. induction l as [|x l IH]; intros a0 a' H0 H; simpl in H.
  - by injection H as <-.
  - destruct (f a0 x) as [a1|e] eqn:Ef.
    + by apply (IH a1 a' (Hstep _ _ _ H0 Ef)).
    + by rewrite foldl_rbind_Err in H.
Qed.

Lemma odict_set_Forall {K V : Type} `{EqDecision K} (P : K * V → Prop)
    (d : list (K * V)) (k : K) (v : V) :
  Forall P d → P (k, v) → Forall P (odict_set d k v).
Proof.
  induction 1 as [|[k' v'] d Hkv Hd IH]; intros Hnew; simpl.
  - by constructor.
  - case_decide; constructor; auto.
Qed.

Lemma odict_get_Forall {K V : Type} `{EqDecision K} (P : K * V → Prop)
    (d : list (K * V)) (k : K) (v : V) :
  Forall P d → odict_get d k = Some v → P (k, v).
Proof.
  induction 1 as [|[k' v'] d Hkv _ IH]; simpl; [done|].
  case_decide as Hk; [|done]. intros [= <-]. by rewrite <- Hk.
Qed.

Lemma odict_set_keys {K V : Type} `{EqDecision K} (d : list (K * V))
    (k : K) (v : V) :
  NoDup d.*1 → NoDup (odict_set d k v).*1.
Proof.
  induction d as [|[k' v'] d IH]; csimpl; intros Hnd.
  - apply NoDup_singleton.
  - apply NoDup_cons in Hnd as [Hk' Hnd]. case_decide as Hk; csimpl.
    + subst. by constructor.
    + constructor; [|by apply IH].
      intros Hin. apply Hk'. clear -Hin Hk.
      induction d as [|[k0 v0] d IHd]; csimpl in *.
      * apply list_elem_of_singleton in Hin. congruence.
      * case_decide; csimpl in *.
        -- subst. apply elem_of_cons in Hin as [->|Hin]; [done|by right].
        -- apply elem_of_cons in Hin as [->|Hin]; [by left|].
           right. by apply IHd.
Qed.

Section collect_info_facts.
Context `{P : OsPath}.

Lemma _abs_paths_Ok (smlt : string) (fnames paths : list string) :
  _abs_paths smlt fnames = Ok paths → Forall (recorded_path smlt) paths.
Proof.
  revert paths. induction fnames as [|fname rest IH]; intros paths H;
    simpl in H.
  - injection H as <-. constructor.
  - inv_res H u Hu. inv_res H found Hfound. injection H as <-.
    specialize (IH found Hfound).
    destruct (path_exists _) eqn:Ex; [|done].
    constructor; [|done]. split; [done|]. exists fname. split; [|done].
    apply raise_if_Ok in Hu. done.
Qed.

(** X22.  The paths that [collect_info] records for a branch exist,
    are the absolute forms of relative names, and are sorted without
    repetition; and no branch id has two entries. *)
Theorem collect_info_paths (smlt : string)
    (document : option (list sm_level_node)) (info : Info) :
  collect_info smlt document = Ok info →
  NoDup (smpaths info).*1
  ∧ Forall (fun kv =>
              Forall (recorded_path smlt) (snd kv)
              ∧ StronglySorted str_le (snd kv)
              ∧ NoDup (snd kv))
           (smpaths info).
Proof.
  unfold collect_info. intros H.
  inv_res H blevels Hb. inv_res H acc Hacc. injection H as <-. simpl.
  set (Inv := fun acc : list (string * list string)
                          * list (option string * list string) =>
                NoDup (fst acc).*1
                ∧ Forall (fun kv => Forall (recorded_path smlt) (snd kv))
                         (fst acc)).
  assert (Hinv : Inv acc).
  { revert Hacc. apply (foldl_rbind_inv
      (fun acc blevel =>
         let* bsets := sm_bsnodes blevel in
         foldl (fun acc bset => let* acc := acc in collect_bset smlt acc bset)
               (Ok acc) bsets) Inv).
    2:{ split; [constructor|constructor]. }
    intros a blevel a' Ha Hstep. inv_res Hstep bsets Hbsets.
    revert Hstep. apply (foldl_rbind_inv (collect_bset smlt) Inv); [|done].
    clear. intros [paths ats] bset a' [Hnd Hall] Hstep.
    unfold collect_bset in Hstep. inv_res Hstep ut Hut.
    destruct (str_contains _ ut); [|by injection Hstep as <-].
    inv_res Hstep paths' Hpaths. injection Hstep as <-. simpl in *.
    revert Hpaths.
    apply (foldl_rbind_inv
             (fun paths br =>
                let* text :=
                  match uncertaintyModel br with
                  | Some text => Ok text
                  | None => Err no_uncertaintyModel_text
                  end in
                let* fnames :=
                  match unique (fun x => x) (split text) with
                  | Ok fnames => Ok fnames
                  | Err dupl => Err (found_duplicates dupl)
                  end in
                let* found := _abs_paths smlt fnames in
                Ok (odict_set paths (branchID br)
                      (default [] (odict_get paths (branchID br)) ++ found)))
             (fun paths => NoDup paths.*1
                           ∧ Forall (fun kv => Forall (recorded_path smlt)
                                                      (snd kv)) paths));
      [|done].
    clear. intros paths br paths' [Hnd Hall] Hstep.
    inv_res Hstep text Ht. inv_res Hstep fnames Hf. inv_res Hstep found Hfound.
    injection Hstep as <-. split; [by apply odict_set_keys|].
    apply odict_set_Forall; [done|]. simpl. apply Forall_app. split.
    - destruct (odict_get paths (branchID br)) as [old|] eqn:Eold; [|constructor].
      apply (odict_get_Forall _ _ _ _ Hall Eold).
    - by eapply _abs_paths_Ok. }
  destruct Hinv as [Hnd Hall]. split.
  { rewrite <- list_fmap_compose. exact Hnd. }
  apply Forall_fmap. eapply Forall_impl; [exact Hall|].
  intros [k v] Hv. simpl in *. split; [|split].
  - apply Forall_forall. intros p Hp.
    rewrite merge_sort_Permutation, elem_of_remove_dups in Hp.
    rewrite Forall_forall in Hv. by apply Hv.
  - apply merge_sort_leb_sorted.
  - rewrite merge_sort_Permutation. apply NoDup_remove_dups.
Qed.

End collect_info_facts.

Lemma collect_info_paths_witness :
  ∃ info,
    collect_info (H := example_paths) "/job/logic_tree.xml"
      (Some two_files_document) = Ok info
    ∧ NoDup (smpaths info).*1
    ∧ Forall (fun kv =>
                Forall (recorded_path (H := example_paths)
                          "/job/logic_tree.xml") (snd kv)
                ∧ StronglySorted str_le (snd kv)
                ∧ NoDup (snd kv))
             (smpaths info).
Proof.
  destruct (collect_info (H := example_paths) "/job/logic_tree.xml"
              (Some two_files_document)) as [info|e] eqn:E.
  - exists info. split; [reflexivity|].
    exact (collect_info_paths (P := example_paths) _ _ _ E).
  - vm_compute in E. discriminate E.
Defined.
